(** * thejord-api: scheduled publication sweep and the posts routes

    A shallow embedding of [server.ts] (the cron callback that publishes
    scheduled posts and its cache-revalidation helper) and of the handlers
    of [routes/posts.ts] that read or write the [published] / [scheduledAt]
    columns, followed by the properties stated about them.

    Modelling conventions
    - a [Date] is the integer number of milliseconds since the epoch;
    - the [blog_posts] table is the list of its rows, in storage order;
    - asynchronous code is written in a state-and-exception monad over a
      [World] (table, wall clock, trace of observable effects);
    - everything the process cannot control (transient database failures,
      the outcome of an outbound HTTP call, generated UUIDs, environment
      variables, the authentication middleware whose source is not part of
      the tree) is a field of an [Env] that theorems quantify over. *)

From Stdlib Require Import List String Ascii ZArith Bool Lia Arith.
From Stdlib Require Import Permutation Sorted.
Import ListNotations.

Local Open Scope string_scope.
Local Open Scope Z_scope.
Local Open Scope list_scope.

(* ================================================================== *)
(** ** Data model *)
(* ================================================================== *)

Definition Time := Z.

(** One row of [blog_posts].  The columns that the code under study only
    copies from the request into the table (readTime, tags, image, icon,
    the SEO columns, editorType) are not represented. *)
Record Post := mkPost {
  id : string;
  slug : string;
  language : string;
  title : string;
  excerpt : string;
  content : string;
  author : string;
  published : bool;
  publishedAt : option Time;
  scheduledAt : option Time;
  translationGroup : option string;
  createdAt : Time;
  updatedAt : Time
}.

(** The [data] argument of a Prisma [update]: a column that is absent is
    left as it is; a nullable column can be set to [null] ([Some None]). *)
Record PostData := mkData {
  d_slug : option string;
  d_language : option string;
  d_title : option string;
  d_excerpt : option string;
  d_content : option string;
  d_author : option string;
  d_published : option bool;
  d_publishedAt : option (option Time);
  d_scheduledAt : option (option Time);
  d_translationGroup : option (option string);
  d_updatedAt : option Time
}.

Definition or_keep {A} (o : option A) (old : A) : A :=
  match o with Some v => v | None => old end.

Definition apply_data (d : PostData) (p : Post) : Post :=
  {| id := id p;
     slug := or_keep (d_slug d) (slug p);
     language := or_keep (d_language d) (language p);
     title := or_keep (d_title d) (title p);
     excerpt := or_keep (d_excerpt d) (excerpt p);
     content := or_keep (d_content d) (content p);
     author := or_keep (d_author d) (author p);
     published := or_keep (d_published d) (published p);
     publishedAt := or_keep (d_publishedAt d) (publishedAt p);
     scheduledAt := or_keep (d_scheduledAt d) (scheduledAt p);
     translationGroup := or_keep (d_translationGroup d) (translationGroup p);
     createdAt := createdAt p;
     updatedAt := or_keep (d_updatedAt d) (updatedAt p) |}.

(** Errors a promise can reject with. *)
Inductive Error :=
| PrismaKnown (code : string)   (* carries [error.code], e.g. P2002, P2025 *)
| PrismaUnavailable             (* connection-level failure, no code *)
| FetchRejected.                (* network failure or timeout of [fetch] *)

(** Database statements issued through the Prisma client. *)
Inductive Stmt :=
| FindManyDue (now : Time)
| FindUniqueId (i : string)
| FindUniqueSlugLanguage (s l : string)
| Create (row : Post)
| Update (i : string) (d : PostData).

(** An outbound HTTP request, as passed to [fetch].  The body is the
    object given to [JSON.stringify], whose members are all strings. *)
Definition JsonObject := list (string * string).

Record Request := mkRequest {
  url : string;
  method : string;
  headers : list (string * string);
  body : JsonObject
}.

Inductive FetchOutcome :=
| Rejects                 (* the promise rejects *)
| Responds (status : Z).  (* a response with this status code *)

(** Lines written to the console, by content rather than by wording. *)
Inductive Line :=
| Publishing (n : nat)
| Published (title language : string)
| Revalidated (slug language : string)
| RevalidationFailed (slug : string) (status : Z)
| RevalidationError (slug : string) (e : Error)
| JobError (e : Error)
| HandlerError (what : string) (e : Error).

(** What a run leaves behind, in order: console lines, statements sent
    to the database, requests sent with [fetch].  [Call_revalidateCache]
    marks an entry into the notifier with its two arguments; it is not an
    effect of the program and is only there so that invocations can be
    counted per (slug, language). *)
Inductive Event :=
| Log (l : Line)     (* console.log *)
| Warn (l : Line)    (* console.warn *)
| Err (l : Line)     (* console.error *)
| Db (s : Stmt)
| Fetch (r : Request)
| Call_revalidateCache (slug language : string).

Record World := mkWorld {
  db : list Post;
  clock : Time;
  trace : list Event
}.

(** HTTP responses of the posts router. *)
Inductive ResBody :=
| Success (data : Post)
| Failure (error : string)
| FailureMsg (error : string) (e : Error)
| FailureRequired (error : string) (required : list string).

Record Response := mkResponse {
  status : Z;
  json : ResBody
}.

Record Env := mkEnv {
  FRONTEND_URL : option string;
  REVALIDATE_TOKEN : option string;
  (** a statement for which this returns [Some e] fails with [e] *)
  db_fault : Stmt -> option Error;
  (** outcome of the [fetch] issued when the trace has the given length *)
  fetch_outcome : nat -> Request -> FetchOutcome;
  (** result of [crypto.randomUUID()] when the trace has the given length *)
  randomUUID : nat -> string;
  (** [middleware/auth.ts] is not part of the tree: given the request's
      Authorization header it either answers itself ([Some r]) or calls
      [next()] ([None]) *)
  authMiddleware : option string -> option Response
}.

(* ================================================================== *)
(** ** The monad of asynchronous computations *)
(* ================================================================== *)

Inductive Outcome (A : Type) :=
| Returned (a : A)
| Thrown (e : Error).
Arguments Returned {A} a.
Arguments Thrown {A} e.

Definition M (A : Type) := World -> Outcome A * World.

Definition ret {A} (a : A) : M A := fun w => (Returned a, w).

Definition bind {A B} (m : M A) (k : A -> M B) : M B :=
  fun w =>
    match m w with
    | (Returned a, w') => k a w'
    | (Thrown e, w') => (Thrown e, w')
    end.

Definition throw {A} (e : Error) : M A := fun w => (Thrown e, w).

Definition try_catch {A} (m : M A) (handler : Error -> M A) : M A :=
  fun w =>
    match m w with
    | (Returned a, w') => (Returned a, w')
    | (Thrown e, w') => handler e w'
    end.

Notation "x <- m ;; k" := (bind m (fun x => k))
  (at level 61, m at next level, right associativity).
Notation "m ;;; k" := (bind m (fun _ => k))
  (at level 61, right associativity).

Fixpoint for_of {A} (xs : list A) (body : A -> M unit) : M unit :=
  match xs with
  | [] => ret tt
  | x :: rest => body x ;;; for_of rest body
  end.

Definition emit (e : Event) : M unit :=
  fun w => (Returned tt, mkWorld (db w) (clock w) (trace w ++ [e])).

Definition console_log (l : Line) : M unit := emit (Log l).
Definition console_warn (l : Line) : M unit := emit (Warn l).
Definition console_error (l : Line) : M unit := emit (Err l).

(** [new Date()] *)
Definition new_Date : M Time := fun w => (Returned (clock w), w).

(** [a || b] on a string that may be undefined: the empty string is falsy *)
Definition str_or (a : option string) (b : string) : string :=
  match a with
  | Some s => if (s =? "")%string then b else s
  | None => b
  end.

Definition truthy_str (a : option string) : bool :=
  match a with
  | Some s => negb (s =? "")%string
  | None => false
  end.

(* ================================================================== *)
(** ** The Prisma client on [blog_posts] *)
(* ================================================================== *)

(** [where: { published: false, scheduledAt: { lte: now } }]; a null
    [scheduledAt] compares false. *)
Definition is_due (now : Time) (p : Post) : bool :=
  negb (published p) &&
  match scheduledAt p with
  | Some t => t <=? now
  | None => false
  end.

Definition has_id (i : string) (p : Post) : bool := (id p =? i)%string.

Definition has_slug_language (s l : string) (p : Post) : bool :=
  (slug p =? s)%string && (language p =? l)%string.

Definition update_rows (i : string) (d : PostData) (rows : list Post) : list Post :=
  map (fun p => if has_id i p then apply_data d p else p) rows.

Section Program.

Variable env : Env.

(** A statement is recorded, then fails if the environment says so, and
    otherwise runs against the table. *)
Definition prisma {A} (s : Stmt) (run : list Post -> Outcome A * list Post) : M A :=
  fun w =>
    let w1 := mkWorld (db w) (clock w) (trace w ++ [Db s]) in
    match db_fault env s with
    | Some e => (Thrown e, w1)
    | None =>
        let (r, rows) := run (db w1) in
        (r, mkWorld rows (clock w1) (trace w1))
    end.

Definition findMany_due (now : Time) : M (list Post) :=
  prisma (FindManyDue now) (fun rows => (Returned (filter (is_due now) rows), rows)).

Definition findUnique_id (i : string) : M (option Post) :=
  prisma (FindUniqueId i) (fun rows => (Returned (find (has_id i) rows), rows)).

Definition findUnique_slug_language (s l : string) : M (option Post) :=
  prisma (FindUniqueSlugLanguage s l)
         (fun rows => (Returned (find (has_slug_language s l) rows), rows)).

(** Whether a statement writes a column of the (slug, language) index. *)
Definition writes_key (d : PostData) : bool :=
  match d_slug d, d_language d with
  | None, None => false
  | _, _ => true
  end.

(** [update] rejects with P2025 when no row has the id, and with P2002
    when it would give the row the (slug, language) of another row. *)
Definition update (i : string) (d : PostData) : M Post :=
  prisma (Update i d)
         (fun rows =>
            match find (has_id i) rows with
            | Some p =>
                let p' := apply_data d p in
                if writes_key d &&
                   existsb (fun q => negb (has_id i q) &&
                                     has_slug_language (slug p') (language p') q) rows
                then (Thrown (PrismaKnown "P2002"), rows)
                else (Returned p', update_rows i d rows)
            | None => (Thrown (PrismaKnown "P2025"), rows)
            end).

(** [create] rejects with P2002 when the primary key or the
    (slug, language) pair is taken. *)
Definition create (row : Post) : M Post :=
  prisma (Create row)
         (fun rows =>
            if existsb (has_id (id row)) rows
               || existsb (has_slug_language (slug row) (language row)) rows
            then (Thrown (PrismaKnown "P2002"), rows)
            else (Returned row, rows ++ [row])).

(** [fetch(url, init)] *)
Definition fetch (r : Request) : M Z :=
  fun w =>
    let w1 := mkWorld (db w) (clock w) (trace w ++ [Fetch r]) in
    match fetch_outcome env (List.length (trace w)) r with
    | Rejects => (Thrown FetchRejected, w1)
    | Responds st => (Returned st, w1)
    end.

(** [response.ok] *)
Definition ok (st : Z) : bool := (200 <=? st) && (st <=? 299).

(* ================================================================== *)
(** ** server.ts: cache revalidation and the cron callback *)
(* ================================================================== *)

Definition revalidate_request (slug : string) : Request :=
  let frontendUrl := str_or (FRONTEND_URL env) "https://thejord.it" in
  let revalidateToken := str_or (REVALIDATE_TOKEN env) "dev-token-change-in-production" in
  {| url := (frontendUrl ++ "/api/revalidate")%string;
     method := "POST";
     headers := [("Content-Type", "application/json");
                 ("Authorization", ("Bearer " ++ revalidateToken)%string)];
     body := [("path", "/blog"); ("slug", slug)] |}.

Definition revalidateCache (slug language : string) : M unit :=
  emit (Call_revalidateCache slug language) ;;;
  try_catch
    (response <- fetch (revalidate_request slug) ;;
     if ok response
     then console_log (Revalidated slug language)
     else console_warn (RevalidationFailed slug response))
    (fun error => console_warn (RevalidationError slug error)).

Definition publish_data (now : Time) : PostData :=
  {| d_slug := None; d_language := None; d_title := None; d_excerpt := None;
     d_content := None; d_author := None;
     d_published := Some true;
     d_publishedAt := Some (Some now);
     d_scheduledAt := Some None;
     d_translationGroup := None;
     d_updatedAt := Some now |}.

(** Body of the [for (const post of postsToPublish)] loop. *)
Definition publish_post (now : Time) (post : Post) : M unit :=
  update (id post) (publish_data now) ;;;
  console_log (Published (title post) (language post)) ;;;
  revalidateCache (slug post) (language post).

(** The [try] block of the callback up to and including the query. *)
Definition sweep_select : M (Time * list Post) :=
  now <- new_Date ;;
  postsToPublish <- findMany_due now ;;
  ret (now, postsToPublish).

(** The rest of the [try] block. *)
Definition sweep_publish (now : Time) (postsToPublish : list Post) : M unit :=
  if (0 <? List.length postsToPublish)%nat then
    console_log (Publishing (List.length postsToPublish)) ;;;
    for_of postsToPublish (publish_post now)
  else ret tt.

Definition sweep_body : M unit :=
  sel <- sweep_select ;;
  sweep_publish (fst sel) (snd sel).

(** The callback given to [cron.schedule('* * * * *', ...)]. *)
Definition cron_callback : M unit :=
  try_catch sweep_body (fun error => console_error (JobError error)).

(* ================================================================== *)
(** ** Overlapping runs of the callback

    A run of the callback is suspended at each [await].  A [Task] is a
    suspended run: not yet started; inside the loop, about to update the
    first of the posts it still has to handle (they come from the array
    its own query returned); about to notify for the post it has just
    updated; or finished.  [step] resumes a task up to its next
    suspension; an error escaping the [try] block ends the task in its
    [catch] clause. *)
(* ================================================================== *)

Inductive Task :=
| Starting
| Looping (now : Time) (rest : list Post)
| Notifying (now : Time) (post : Post) (rest : list Post)
| Finished.

Definition caught (e : Error) (w : World) : Task * World :=
  (Finished, snd (console_error (JobError e) w)).

Definition step (t : Task) (w : World) : Task * World :=
  match t with
  | Starting =>
      match sweep_select w with
      | (Returned (now, postsToPublish), w1) =>
          if (0 <? List.length postsToPublish)%nat
          then (Looping now postsToPublish,
                snd (console_log (Publishing (List.length postsToPublish)) w1))
          else (Finished, w1)
      | (Thrown e, w1) => caught e w1
      end
  | Looping now [] => (Finished, w)
  | Looping now (post :: rest) =>
      match (update (id post) (publish_data now) ;;;
             console_log (Published (title post) (language post))) w with
      | (Returned _, w1) => (Notifying now post rest, w1)
      | (Thrown e, w1) => caught e w1
      end
  | Notifying now post rest =>
      match revalidateCache (slug post) (language post) w with
      | (Returned _, w1) => (Looping now rest, w1)
      | (Thrown e, w1) => caught e w1
      end
  | Finished => (Finished, w)
  end.

Fixpoint run (fuel : nat) (t : Task) (w : World) : Task * World :=
  match fuel with
  | O => (t, w)
  | S n => let (t', w') := step t w in run n t' w'
  end.

End Program.

(** Two runs of the callback, each with its own environment, under a
    schedule that says which one is resumed next and when the wall clock
    moves. *)
Inductive Move :=
| ResumeA
| ResumeB
| Tick (t : Time).

Record Overlap := mkOverlap {
  taskA : Task;
  taskB : Task;
  world : World
}.

Definition move (envA envB : Env) (m : Move) (s : Overlap) : Overlap :=
  match m with
  | ResumeA => let (t, w) := step envA (taskA s) (world s) in mkOverlap t (taskB s) w
  | ResumeB => let (t, w) := step envB (taskB s) (world s) in mkOverlap (taskA s) t w
  | Tick t => mkOverlap (taskA s) (taskB s)
                        (mkWorld (db (world s)) t (trace (world s)))
  end.

Definition schedule (envA envB : Env) (ms : list Move) (s : Overlap) : Overlap :=
  fold_left (fun s m => move envA envB m s) ms s.

(* ================================================================== *)
(** ** routes/posts.ts *)
(* ================================================================== *)

(** [/^[0-9a-f]{8}-[0-9a-f]{4}-[0-9a-f]{4}-[0-9a-f]{4}-[0-9a-f]{12}$/i] *)
Definition is_hex (c : ascii) : bool :=
  let n := nat_of_ascii c in
  ((48 <=? n) && (n <=? 57) || (97 <=? n) && (n <=? 102)
   || (65 <=? n) && (n <=? 70))%nat.

Fixpoint hexes (n : nat) (s : string) : option string :=
  match n with
  | O => Some s
  | S k =>
      match s with
      | String c rest => if is_hex c then hexes k rest else None
      | EmptyString => None
      end
  end.

Definition dash (s : string) : option string :=
  match s with
  | String "-"%char rest => Some rest
  | _ => None
  end.

Definition andThen {A B} (o : option A) (f : A -> option B) : option B :=
  match o with Some a => f a | None => None end.

Definition isUUID (s : string) : bool :=
  match andThen (andThen (andThen (andThen (andThen (andThen (andThen (andThen
          (hexes 8 s) dash) (hexes 4)) dash) (hexes 4)) dash) (hexes 4)) dash)
          (hexes 12) with
  | Some EmptyString => true
  | _ => false
  end.

(** Request of [GET /api/posts/:slugOrId]. *)
Record GetRequest := mkGet {
  slugOrId : string;
  lang : option string;            (* [req.query.lang] *)
  authorization : option string    (* [req.headers.authorization] *)
}.

(** Body of [POST /api/posts].  A timestamp member is the instant its date
    string denotes; [None] stands for a member that is absent, null or
    the empty string. *)
Record CreateBody := mkCreate {
  b_id : option string;
  b_slug : option string;
  b_language : option string;
  b_title : option string;
  b_excerpt : option string;
  b_content : option string;
  b_author : option string;
  b_published : option bool;
  b_publishedAt : option Time;
  b_scheduledAt : option Time;
  b_translationGroup : option string
}.

(** Body of [PUT /api/posts/:id]: the members the handler deletes, and the
    rest, which goes to Prisma as it is. *)
Record UpdateBody := mkUpdate {
  ub_id : option string;
  ub_createdAt : option Time;
  ub_data : PostData
}.

(** [error.code === c] *)
Definition code_is (c : string) (e : Error) : bool :=
  match e with
  | PrismaKnown code => (code =? c)%string
  | _ => false
  end.

Section Routes.

Variable env : Env.

Definition get_post (req : GetRequest) : M Response :=
  try_catch
    (let lang := match lang req with Some l => l | None => "it" end in
     post <- (if isUUID (slugOrId req)
              then findUnique_id env (slugOrId req)
              else findUnique_slug_language env (slugOrId req) lang) ;;
     match post with
     | None => ret (mkResponse 404 (Failure "Post not found"))
     | Some post =>
         if negb (published post) && negb (truthy_str (authorization req))
         then ret (mkResponse 404 (Failure "Post not found"))
         else ret (mkResponse 200 (Success post))
     end)
    (fun error =>
       console_error (HandlerError "Error fetching post:" error) ;;;
       ret (mkResponse 500 (FailureMsg "Failed to fetch post" error))).

Definition crypto_randomUUID : M string :=
  fun w => (Returned (randomUUID env (List.length (trace w))), w).

Definition create_post (b : CreateBody) : M Response :=
  try_catch
    (if negb (truthy_str (b_slug b)) || negb (truthy_str (b_language b))
        || negb (truthy_str (b_title b)) || negb (truthy_str (b_excerpt b))
        || negb (truthy_str (b_content b))
     then ret (mkResponse 400
                 (FailureRequired "Missing required fields"
                    ["slug"; "language"; "title"; "excerpt"; "content"]))
     else
       now <- new_Date ;;
       let finalPublishedAt :=
         if or_keep (b_published b) false
         then Some (or_keep (b_publishedAt b) now)
         else None in
       let finalScheduledAt := b_scheduledAt b in
       uuid <- crypto_randomUUID ;;
       post <- create env
                 {| id := str_or (b_id b) uuid;
                    slug := str_or (b_slug b) "";
                    language := str_or (b_language b) "";
                    title := str_or (b_title b) "";
                    excerpt := str_or (b_excerpt b) "";
                    content := str_or (b_content b) "";
                    author := str_or (b_author b) "THEJORD Team";
                    published := or_keep (b_published b) false;
                    publishedAt := finalPublishedAt;
                    scheduledAt := finalScheduledAt;
                    translationGroup :=
                      if truthy_str (b_translationGroup b)
                      then b_translationGroup b else None;
                    createdAt := now;   (* not passed: the column default *)
                    updatedAt := now |} ;;
       ret (mkResponse 201 (Success post)))
    (fun error =>
       console_error (HandlerError "Error creating post:" error) ;;;
       if code_is "P2002" error
       then ret (mkResponse 409 (Failure "Post with this slug and language already exists"))
       else ret (mkResponse 500 (FailureMsg "Failed to create post" error))).

Definition update_post (i : string) (b : UpdateBody) : M Response :=
  try_catch
    (let updateData := ub_data b in
     post <- update env i updateData ;;
     ret (mkResponse 200 (Success post)))
    (fun error =>
       console_error (HandlerError "Error updating post:" error) ;;;
       if code_is "P2025" error
       then ret (mkResponse 404 (Failure "Post not found"))
       else ret (mkResponse 500 (FailureMsg "Failed to update post" error))).

(** [router.post('/', authMiddleware, ...)] and
    [router.put('/:id', authMiddleware, ...)] *)
Definition protected (auth : option string) (handler : M Response) : M Response :=
  match authMiddleware env auth with
  | Some r => ret r
  | None => handler
  end.

Definition POST_posts (auth : option string) (b : CreateBody) : M Response :=
  protected auth (create_post b).

Definition PUT_posts (auth : option string) (i : string) (b : UpdateBody) : M Response :=
  protected auth (update_post i b).

End Routes.

(* ================================================================== *)
(** ** Observations on tables and traces *)
(* ================================================================== *)

Definition key (p : Post) : string * string := (slug p, language p).

(** The two unique indexes of [blog_posts]. *)
Definition unique_ids (rows : list Post) : Prop := NoDup (map id rows).
Definition unique_keys (rows : list Post) : Prop := NoDup (map key rows).

(** Number of invocations of the notifier for a (slug, language). *)
Definition is_call (s l : string) (e : Event) : bool :=
  match e with
  | Call_revalidateCache s' l' => (s' =? s)%string && (l' =? l)%string
  | _ => false
  end.
Definition calls_for (s l : string) (tr : list Event) : nat :=
  List.length (filter (is_call s l) tr).

(** Number of [update] statements issued for an id. *)
Definition is_update_of (i : string) (e : Event) : bool :=
  match e with
  | Db (Update i' _) => (i' =? i)%string
  | _ => false
  end.
Definition updates_of (i : string) (tr : list Event) : nat :=
  List.length (filter (is_update_of i) tr).

(** Number of HTTP requests sent whose body names a slug. *)
Definition is_fetch_of (s : string) (e : Event) : bool :=
  match e with
  | Fetch r =>
      match body r with
      | [_; (_, s')] => (s' =? s)%string
      | _ => false
      end
  | _ => false
  end.
Definition fetches_of (s : string) (tr : list Event) : nat :=
  List.length (filter (is_fetch_of s) tr).

Definition count_key (s l : string) (rows : list Post) : nat :=
  List.length (filter (has_slug_language s l) rows).
Definition count_slug (s : string) (rows : list Post) : nat :=
  List.length (filter (fun p => (slug p =? s)%string) rows).

Definition known (i : string) (rows : list Post) : bool := existsb (has_id i) rows.

(** The row a due post becomes. *)
Definition publish_row (now : Time) (p : Post) : Post := apply_data (publish_data now) p.

(** The invariant of the data model: a published post has no schedule. *)
Definition unscheduled_if_published (p : Post) : Prop :=
  published p = true -> scheduledAt p = None.
Definition table_ok (rows : list Post) : Prop :=
  forall p, In p rows -> unscheduled_if_published p.

(* ================================================================== *)
(** ** What one run of the loop does, as a function of the batch

    The definitions below describe, without the monad, the table and the
    trace that a run of the callback leaves; the lemmas that follow prove
    that the callback computes exactly that. *)
(* ================================================================== *)

Section Description.

Variable env : Env.
Variable now : Time.

Definition update_ok (p : Post) : bool :=
  match db_fault env (Update (id p) (publish_data now)) with
  | None => true
  | Some _ => false
  end.

(** The posts the loop gets through, and those it does not reach. *)
Fixpoint handled (batch : list Post) : list Post :=
  match batch with
  | [] => []
  | p :: rest => if update_ok p then p :: handled rest else []
  end.

Fixpoint unhandled (batch : list Post) : list Post :=
  match batch with
  | [] => []
  | p :: rest => if update_ok p then unhandled rest else p :: rest
  end.

Definition publish_rows (done : list Post) (rows : list Post) : list Post :=
  fold_left (fun rows p => update_rows (id p) (publish_data now) rows) done rows.

Definition revalidate_line (n : nat) (s l : string) : Event :=
  match fetch_outcome env n (revalidate_request env s) with
  | Rejects => Warn (RevalidationError s FetchRejected)
  | Responds st =>
      if ok st then Log (Revalidated s l) else Warn (RevalidationFailed s st)
  end.

Definition post_events (n : nat) (p : Post) : list Event :=
  [Db (Update (id p) (publish_data now));
   Log (Published (title p) (language p));
   Call_revalidateCache (slug p) (language p);
   Fetch (revalidate_request env (slug p));
   revalidate_line (n + 3) (slug p) (language p)].

Fixpoint loop_events (n : nat) (done : list Post) : list Event :=
  match done with
  | [] => []
  | p :: rest => post_events n p ++ loop_events (n + 5) rest
  end.

Definition abort_events (rest : list Post) : list Event :=
  match rest with
  | [] => []
  | q :: _ => [Db (Update (id q) (publish_data now))]
  end.

Definition loop_outcome (rest : list Post) : Outcome unit :=
  match rest with
  | [] => Returned tt
  | q :: _ =>
      match db_fault env (Update (id q) (publish_data now)) with
      | Some e => Thrown e
      | None => Returned tt
      end
  end.

End Description.

Definition due_batch (w : World) : list Post := filter (is_due (clock w)) (db w).

(** Posts transitioned by the run that starts in [w]. *)
Definition sweep_done (env : Env) (w : World) : list Post :=
  match db_fault env (FindManyDue (clock w)) with
  | Some _ => []
  | None => handled env (clock w) (due_batch w)
  end.

Definition catch_events (r : Outcome unit) : list Event :=
  match r with
  | Returned _ => []
  | Thrown e => [Err (JobError e)]
  end.

(** Effects of the run that starts in [w], in order. *)
Definition sweep_events (env : Env) (w : World) : list Event :=
  Db (FindManyDue (clock w)) ::
  match db_fault env (FindManyDue (clock w)) with
  | Some e => [Err (JobError e)]
  | None =>
      match due_batch w with
      | [] => []
      | _ :: _ =>
          Log (Publishing (List.length (due_batch w))) ::
          loop_events env (clock w) (List.length (trace w) + 2)
                      (handled env (clock w) (due_batch w))
          ++ abort_events (clock w) (unhandled env (clock w) (due_batch w))
          ++ catch_events (loop_outcome env (clock w)
                             (unhandled env (clock w) (due_batch w)))
      end
  end.

(** What the run that starts in [w] makes of a row. *)
Definition sweep_row (env : Env) (w : World) (q : Post) : Post :=
  if known (id q) (sweep_done env w) then publish_row (clock w) q else q.

(** The same world at another time. *)
Definition at_time (t : Time) (w : World) : World := mkWorld (db w) t (trace w).

(** The same environment with other outcomes for the outbound calls. *)
Definition with_fetch (env : Env) (f : nat -> Request -> FetchOutcome) : Env :=
  {| FRONTEND_URL := FRONTEND_URL env;
     REVALIDATE_TOKEN := REVALIDATE_TOKEN env;
     db_fault := db_fault env;
     fetch_outcome := f;
     randomUUID := randomUUID env;
     authMiddleware := authMiddleware env |}.

(** Posts that a step from [w] to [w'] took from unpublished to
    published. *)
Definition transitioned (w w' : World) : list Post :=
  filter (fun p => negb (published p) &&
                   existsb (fun q => has_id (id p) q && published q) (db w'))
         (db w).

(** The request designates the post: by its id when the path parameter
    has the shape of a UUID, otherwise by its slug together with the
    [lang] query parameter, which defaults to [it]. *)
Definition addresses (req : GetRequest) (p : Post) : Prop :=
  (isUUID (slugOrId req) = true /\ slugOrId req = id p) \/
  (isUUID (slugOrId req) = false /\ slugOrId req = slug p /\
   match lang req with Some l => l | None => "it" end = language p).

(** Notifications a task may still cause for a (slug, language). *)
Definition owed (s l : string) (t : Task) : nat :=
  match t with
  | Starting => 1
  | Looping _ rest => count_key s l rest
  | Notifying _ post rest => count_key s l (post :: rest)
  | Finished => 0
  end.

Definition is_error_line (e : Event) : bool :=
  match e with
  | Err _ => true
  | _ => false
  end.

(* ================================================================== *)
(** ** Sample data *)
(* ================================================================== *)

Module Sample.

(** An environment in which nothing fails. *)
Definition quiet : Env :=
  {| FRONTEND_URL := None;
     REVALIDATE_TOKEN := None;
     db_fault := fun _ => None;
     fetch_outcome := fun _ _ => Responds 200;
     randomUUID := fun _ => "0b0e7a52-5a0c-4f0e-9c57-1d2f3a4b5c6d";
     authMiddleware := fun _ => None |}.

Definition scheduled (i s : string) (at_ : Time) : Post :=
  {| id := i; slug := s; language := "it"; title := s; excerpt := "e";
     content := "c"; author := "THEJORD Team"; published := false;
     publishedAt := None; scheduledAt := Some at_; translationGroup := None;
     createdAt := 0; updatedAt := 0 |}.

Definition alpha : Post := scheduled "id-1" "alpha" 5.
Definition beta : Post := scheduled "id-2" "beta" 50.
Definition gamma : Post := scheduled "id-3" "gamma" 7.
Definition draft : Post :=
  {| id := "id-4"; slug := "draft"; language := "it"; title := "draft";
     excerpt := "e"; content := "c"; author := "THEJORD Team";
     published := false; publishedAt := None; scheduledAt := None;
     translationGroup := None; createdAt := 0; updatedAt := 0 |}.

(** At time 10, [alpha] and [gamma] are due, [beta] is not. *)
Definition start : World :=
  {| db := [alpha; beta; gamma; draft]; clock := 10; trace := [] |}.

End Sample.

Module Sample2.

(** The update of [alpha], the first due post, fails; nothing else does. *)
Definition flaky : Env :=
  {| FRONTEND_URL := None;
     REVALIDATE_TOKEN := None;
     db_fault := fun s =>
       match s with
       | Update i _ => if (i =? "id-1")%string then Some PrismaUnavailable else None
       | _ => None
       end;
     fetch_outcome := fun _ _ => Responds 200;
     randomUUID := fun _ => "0b0e7a52-5a0c-4f0e-9c57-1d2f3a4b5c6d";
     authMiddleware := fun _ => None |}.

(** The update of [gamma], the second due post, fails; nothing else does. *)
Definition flaky_late : Env :=
  {| FRONTEND_URL := None;
     REVALIDATE_TOKEN := None;
     db_fault := fun s =>
       match s with
       | Update i _ => if (i =? "id-3")%string then Some PrismaUnavailable else None
       | _ => None
       end;
     fetch_outcome := fun _ _ => Responds 200;
     randomUUID := fun _ => "0b0e7a52-5a0c-4f0e-9c57-1d2f3a4b5c6d";
     authMiddleware := fun _ => None |}.

(** The update of [beta] fails; nothing else does. *)
Definition flaky_middle : Env :=
  {| FRONTEND_URL := None;
     REVALIDATE_TOKEN := None;
     db_fault := fun s =>
       match s with
       | Update i _ => if (i =? "id-2")%string then Some PrismaUnavailable else None
       | _ => None
       end;
     fetch_outcome := fun _ _ => Responds 200;
     randomUUID := fun _ => "0b0e7a52-5a0c-4f0e-9c57-1d2f3a4b5c6d";
     authMiddleware := fun _ => None |}.

(** At time 60 all three scheduled posts are due, in the order [alpha],
    [beta], [gamma]. *)
Definition later : World := at_time 60 Sample.start.

End Sample2.

Module Sample3.

(** Every outbound call fails; the database works. *)
Definition offline : Env := with_fetch Sample.quiet (fun _ _ => Rejects).

End Sample3.

Module Sample4.

Definition hidden : Post :=
  {| id := "123e4567-e89b-12d3-a456-426614174000"; slug := "hidden";
     language := "it"; title := "Hidden"; excerpt := "e"; content := "c";
     author := "THEJORD Team"; published := false; publishedAt := None;
     scheduledAt := None; translationGroup := None;
     createdAt := 0; updatedAt := 0 |}.

Definition site : World := {| db := [hidden]; clock := 10; trace := [] |}.

Definition anonymous : GetRequest :=
  {| slugOrId := "hidden"; lang := None; authorization := None |}.

Definition with_header : GetRequest :=
  {| slugOrId := "123e4567-e89b-12d3-a456-426614174000"; lang := None;
     authorization := Some "not a token" |}.

End Sample4.

Module Sample5.

Definition nothing : World := {| db := []; clock := 10; trace := [] |}.

(** A create request that is both published and scheduled. *)
Definition published_and_scheduled : CreateBody :=
  {| b_id := None; b_slug := Some "launch"; b_language := Some "it";
     b_title := Some "Launch"; b_excerpt := Some "e"; b_content := Some "c";
     b_author := None; b_published := Some true; b_publishedAt := None;
     b_scheduledAt := Some 99; b_translationGroup := None |}.

(** A plain draft. *)
Definition plain_draft : CreateBody :=
  {| b_id := None; b_slug := Some "launch"; b_language := Some "it";
     b_title := Some "Launch"; b_excerpt := Some "e"; b_content := Some "c";
     b_author := None; b_published := None; b_publishedAt := None;
     b_scheduledAt := None; b_translationGroup := None |}.

(** An edit that only flips [published]. *)
Definition publish_now : UpdateBody :=
  {| ub_id := None; ub_createdAt := None;
     ub_data := mkData None None None None None None (Some true) None None None None |}.

End Sample5.

Module Sample6.

(** Run A selects [alpha] and [gamma] at time 10, publishes [alpha] and is
    suspended in the notification for it.  A minute passes; run B starts,
    selects [beta] (due by then) and [gamma] (still unpublished), and
    publishes and notifies both. *)
Definition first_moves : list Move :=
  [ResumeA; ResumeA; Tick 70;
   ResumeB; ResumeB; ResumeB; ResumeB; ResumeB; ResumeB].

(** Run A resumes: its notification for [alpha] completes and it goes on
    with [gamma], from the array it holds. *)
Definition last_moves : list Move := [ResumeA; ResumeA; ResumeA; ResumeA].

Definition midway : Overlap :=
  schedule Sample.quiet Sample.quiet first_moves
           (mkOverlap Starting Starting Sample.start).

Definition outcome : Overlap :=
  schedule Sample.quiet Sample.quiet (first_moves ++ last_moves)
           (mkOverlap Starting Starting Sample.start).

End Sample6.

(* ================================================================== *)
(** ** routes/posts.ts: the list views, translations and deletion

    These handlers answer with shapes that [Response] does not have, so
    they get a type of answers of their own.  Each of their statements is
    a plain read or write of the table; whether it fails, and with what,
    is an argument of the handler. *)
(* ================================================================== *)

(** [{ success: true, count?, data }], [{ success: true, message }] and
    [{ success: false, error, message? }]. *)
Inductive Reply (A : Type) :=
| Data (count : option nat) (data : A)
| Message (message : string)
| Refusal (error : string) (detail : option Error).
Arguments Data {A} count data.
Arguments Message {A} message.
Arguments Refusal {A} error detail.

Record Answer (A : Type) := mkAnswer {
  code : Z;
  reply : Reply A
}.
Arguments mkAnswer {A} code reply.
Arguments code {A} a.
Arguments reply {A} a.

(** A statement on the table, outside the trace. *)
Definition statement {A} (fault : option Error)
    (run : list Post -> Outcome A * list Post) : M A :=
  fun w =>
    match fault with
    | Some e => (Thrown e, w)
    | None =>
        let (r, rows) := run (db w) in
        (r, mkWorld rows (clock w) (trace w))
    end.

(** A route behind [authMiddleware]: [inl] is the middleware's own
    answer, [inr] the handler's. *)
Definition guarded {A} (env : Env) (auth : option string) (handler : M A)
  : M (Response + A) :=
  match authMiddleware env auth with
  | Some r => ret (inl r)
  | None => a <- handler ;; ret (inr a)
  end.

(** Insertion sort, for [orderBy]; rows that compare equal keep the
    order of the table. *)
Fixpoint insert_by {A} (le : A -> A -> bool) (x : A) (l : list A) : list A :=
  match l with
  | [] => [x]
  | y :: rest => if le x y then x :: l else y :: insert_by le x rest
  end.

Fixpoint sort_by {A} (le : A -> A -> bool) (l : list A) : list A :=
  match l with
  | [] => []
  | x :: rest => insert_by le x (sort_by le rest)
  end.

(** *** DELETE /api/posts/:id *)

Definition delete_rows (i : string) (rows : list Post) : list Post :=
  filter (fun p => negb (has_id i p)) rows.

(** [prisma.blog_posts.delete({ where: { id } })] *)
Definition delete (fault : option Error) (i : string) : M Post :=
  statement fault
    (fun rows =>
       match find (has_id i) rows with
       | Some p => (Returned p, delete_rows i rows)
       | None => (Thrown (PrismaKnown "P2025"), rows)
       end).

Definition delete_post (fault : option Error) (i : string) : M (Answer unit) :=
  try_catch
    (delete fault i ;;;
     ret (mkAnswer 200 (Message "Post deleted successfully")))
    (fun error =>
       console_error (HandlerError "Error deleting post:" error) ;;;
       if code_is "P2025" error
       then ret (mkAnswer 404 (Refusal "Post not found" None))
       else ret (mkAnswer 500 (Refusal "Failed to delete post" (Some error)))).

Definition DELETE_posts (env : Env) (auth : option string)
    (fault : option Error) (i : string) : M (Response + Answer unit) :=
  guarded env auth (delete_post fault i).

(** *** GET /api/posts and GET /api/posts/scheduled/list *)

(** The columns selected by [GET /api/posts]: all but [content]. *)
Record Summary := mkSummary {
  s_id : string;
  s_slug : string;
  s_language : string;
  s_title : string;
  s_excerpt : string;
  s_author : string;
  s_published : bool;
  s_createdAt : Time;
  s_updatedAt : Time;
  s_publishedAt : option Time;
  s_scheduledAt : option Time;
  s_translationGroup : option string
}.

Definition summary (p : Post) : Summary :=
  {| s_id := id p; s_slug := slug p; s_language := language p;
     s_title := title p; s_excerpt := excerpt p; s_author := author p;
     s_published := published p; s_createdAt := createdAt p;
     s_updatedAt := updatedAt p; s_publishedAt := publishedAt p;
     s_scheduledAt := scheduledAt p;
     s_translationGroup := translationGroup p |}.

(** The columns selected by [GET /api/posts/scheduled/list]. *)
Record Upcoming := mkUpcoming {
  u_id : string;
  u_slug : string;
  u_language : string;
  u_title : string;
  u_excerpt : string;
  u_author : string;
  u_scheduledAt : option Time;
  u_createdAt : Time;
  u_updatedAt : Time
}.

Definition upcoming (p : Post) : Upcoming :=
  {| u_id := id p; u_slug := slug p; u_language := language p;
     u_title := title p; u_excerpt := excerpt p; u_author := author p;
     u_scheduledAt := scheduledAt p; u_createdAt := createdAt p;
     u_updatedAt := updatedAt p |}.

(** [req.query] of [GET /api/posts]; a member is a string or absent. *)
Record ListQuery := mkListQuery {
  q_lang : option string;
  q_published : option string;
  q_search : option string;
  q_tags : option string
}.

(** The [whereClause] object. *)
Inductive NullTest := IsNull | NotNull.

Record Where := mkWhere {
  w_language : option string;
  w_published : option bool;
  w_scheduledAt : option NullTest;
  w_OR : option string;              (* the search term of both branches *)
  w_tags : option (list string)      (* [hasSome] *)
}.

(** [s.split(',')] *)
Fixpoint split_comma (s : string) : list string :=
  match s with
  | EmptyString => [EmptyString]
  | String c rest =>
      if Ascii.eqb c ","%char
      then EmptyString :: split_comma rest
      else match split_comma rest with
           | [] => [String c EmptyString]
           | x :: xs => String c x :: xs
           end
  end.

Definition nonempty (s : string) : bool := negb (s =? "")%string.

Section ListViews.

(** [String.prototype.trim], the case-insensitive [contains] of the
    database and the [hasSome] test on the [tags] column (a column that
    [Post] does not carry) are taken as given. *)
Variable trim : string -> string.
Variable contains_insensitive : string -> string -> bool.   (* term, text *)
Variable has_some : list string -> Post -> bool.

Definition where_of (q : ListQuery) : Where :=
  let lang := match q_lang q with Some l => l | None => "it" end in
  let published := match q_published q with Some v => v | None => "true" end in
  {| w_language := if (lang =? "all")%string then None else Some lang;
     w_published :=
       if (published =? "scheduled")%string then Some false
       else if (published =? "all")%string then None
       else Some (published =? "true")%string;
     w_scheduledAt :=
       if (published =? "scheduled")%string then Some NotNull
       else if (published =? "all")%string then None
       else if (published =? "false")%string then Some IsNull
       else None;
     w_OR :=
       match q_search q with
       | Some search =>
           if nonempty search && nonempty (trim search)
           then Some (trim search) else None
       | None => None
       end;
     w_tags :=
       match q_tags q with
       | Some tags =>
           if nonempty tags && nonempty (trim tags)
           then let tagArray := filter nonempty (map trim (split_comma tags)) in
                if (0 <? List.length tagArray)%nat then Some tagArray else None
           else None
       | None => None
       end |}.

Definition null_test (t : NullTest) (v : option Time) : bool :=
  match t, v with
  | IsNull, None => true
  | NotNull, Some _ => true
  | _, _ => false
  end.

Definition satisfies (wh : Where) (p : Post) : bool :=
  match w_language wh with Some l => (language p =? l)%string | None => true end &&
  match w_published wh with Some b => Bool.eqb (published p) b | None => true end &&
  match w_scheduledAt wh with Some t => null_test t (scheduledAt p) | None => true end &&
  match w_OR wh with
  | Some term => contains_insensitive term (title p)
                 || contains_insensitive term (excerpt p)
  | None => true
  end &&
  match w_tags wh with Some tags => has_some tags p | None => true end.

(** [orderBy: { createdAt: 'desc' }] *)
Definition newer_first (p q : Post) : bool := createdAt q <=? createdAt p.

Definition list_posts (fault : option Error) (q : ListQuery)
  : M (Answer (list Summary)) :=
  try_catch
    (posts <- statement fault
                (fun rows =>
                   (Returned (map summary
                                (sort_by newer_first
                                   (filter (satisfies (where_of q)) rows))),
                    rows)) ;;
     ret (mkAnswer 200 (Data (Some (List.length posts)) posts)))
    (fun error =>
       console_error (HandlerError "Error fetching posts:" error) ;;;
       ret (mkAnswer 500 (Refusal "Failed to fetch posts" (Some error)))).

End ListViews.

Definition is_scheduled (p : Post) : bool :=
  negb (published p) && match scheduledAt p with Some _ => true | None => false end.

(** [orderBy: { scheduledAt: 'asc' }], on rows whose [scheduledAt] is set *)
Definition sooner_first (p q : Post) : bool :=
  match scheduledAt p, scheduledAt q with
  | Some a, Some b => a <=? b
  | None, _ => true
  | Some _, None => false
  end.

Definition scheduled_list (fault : option Error) : M (Answer (list Upcoming)) :=
  try_catch
    (posts <- statement fault
                (fun rows =>
                   (Returned (map upcoming
                                (sort_by sooner_first (filter is_scheduled rows))),
                    rows)) ;;
     ret (mkAnswer 200 (Data (Some (List.length posts)) posts)))
    (fun error =>
       console_error (HandlerError "Error fetching scheduled posts:" error) ;;;
       ret (mkAnswer 500 (Refusal "Failed to fetch scheduled posts" (Some error)))).

Definition GET_scheduled_list (env : Env) (auth : option string)
    (fault : option Error) : M (Response + Answer (list Upcoming)) :=
  guarded env auth (scheduled_list fault).

(** *** GET /api/posts/:slug/translations *)

(** A plain JavaScript object, as the list of its own members.
    [set_member] defines or replaces a member.  [o[k] = v] does that for
    every key but [__proto__]: that name is an accessor inherited from
    [Object.prototype], the assignment calls its setter (which changes the
    prototype when [v] is an object or null and does nothing otherwise),
    and the object gets no member of its own, so none is serialised. *)
Fixpoint set_member {V} (k : string) (v : V) (o : list (string * V))
  : list (string * V) :=
  match o with
  | [] => [(k, v)]
  | (k', v') :: rest =>
      if (k' =? k)%string then (k, v) :: rest else (k', v') :: set_member k v rest
  end.

Definition assign {V} (k : string) (v : V) (o : list (string * V))
  : list (string * V) :=
  if (k =? "__proto__")%string then o else set_member k v o.

Fixpoint member {V} (k : string) (o : list (string * V)) : option V :=
  match o with
  | [] => None
  | (k', v) :: rest => if (k' =? k)%string then Some v else member k rest
  end.

Definition in_group (g : string) (p : Post) : bool :=
  match translationGroup p with
  | Some g' => (g' =? g)%string
  | None => false
  end && published p.

Definition translation_map (translations : list Post) : list (string * string) :=
  fold_left (fun m t => assign (language t) (slug t) m) translations [].

Record TranslationsRequest := mkTranslations {
  t_slug : string;
  t_lang : option string
}.

Definition translations (fault1 fault2 : option Error) (req : TranslationsRequest)
  : M (Answer (list (string * string))) :=
  try_catch
    (let lang := match t_lang req with Some l => l | None => "it" end in
     post <- statement fault1
               (fun rows =>
                  (Returned (find (has_slug_language (t_slug req) lang) rows), rows)) ;;
     match post with
     | None => ret (mkAnswer 404 (Refusal "Post not found" None))
     | Some post =>
         if negb (truthy_str (translationGroup post))
         then ret (mkAnswer 200 (Data None []))
         else
           found <- statement fault2
                      (fun rows =>
                         (Returned (filter (in_group
                                              (str_or (translationGroup post) ""))
                                           rows),
                          rows)) ;;
           ret (mkAnswer 200 (Data None (translation_map found)))
     end)
    (fun error =>
       console_error (HandlerError "Error fetching translations:" error) ;;;
       ret (mkAnswer 500 (Refusal "Failed to fetch translations" (Some error)))).

(** *** PUT /api/posts/:id, with the body as the object it is

    [update_post] takes the body already split into the two members that
    the handler deletes and the rest.  Here the body is the object itself:
    the two [delete] statements are steps of the handler, and [update]
    writes every member of its [data], [id] and [createdAt] included. *)

(** [delete updateData.id] and [delete updateData.createdAt] *)
Definition delete_id (o : UpdateBody) : UpdateBody :=
  mkUpdate None (ub_createdAt o) (ub_data o).

Definition delete_createdAt (o : UpdateBody) : UpdateBody :=
  mkUpdate (ub_id o) None (ub_data o).

(** What [update] makes of a row, given the object as [data]. *)
Definition apply_object (o : UpdateBody) (p : Post) : Post :=
  let p' := apply_data (ub_data o) p in
  {| id := or_keep (ub_id o) (id p');
     slug := slug p';
     language := language p';
     title := title p';
     excerpt := excerpt p';
     content := content p';
     author := author p';
     published := published p';
     publishedAt := publishedAt p';
     scheduledAt := scheduledAt p';
     translationGroup := translationGroup p';
     createdAt := or_keep (ub_createdAt o) (createdAt p');
     updatedAt := updatedAt p' |}.

(** [prisma.blog_posts.update({ where: { id }, data })]: P2025 when no
    row has the id, P2002 when the row would get the (slug, language) or
    the id of another row. *)
Definition update_object (fault : option Error) (i : string) (data : UpdateBody)
  : M Post :=
  statement fault
    (fun rows =>
       match find (has_id i) rows with
       | Some p =>
           let p' := apply_object data p in
           if (writes_key (ub_data data) &&
               existsb (fun q => negb (has_id i q) &&
                                 has_slug_language (slug p') (language p') q) rows)
              || match ub_id data with
                 | Some _ => existsb (fun q => negb (has_id i q) && has_id (id p') q) rows
                 | None => false
                 end
           then (Thrown (PrismaKnown "P2002"), rows)
           else (Returned p',
                 map (fun q => if has_id i q then apply_object data q else q) rows)
       | None => (Thrown (PrismaKnown "P2025"), rows)
       end).

Definition edit_post (fault : option Error) (i : string) (body : UpdateBody)
  : M (Answer Post) :=
  try_catch
    (let updateData := delete_createdAt (delete_id body) in
     post <- update_object fault i updateData ;;
     ret (mkAnswer 200 (Data None post)))
    (fun error =>
       console_error (HandlerError "Error updating post:" error) ;;;
       if code_is "P2025" error
       then ret (mkAnswer 404 (Refusal "Post not found" None))
       else ret (mkAnswer 500 (Refusal "Failed to update post" (Some error)))).

Definition PUT_posts_object (env : Env) (auth : option string)
    (fault : option Error) (i : string) (body : UpdateBody)
  : M (Response + Answer Post) :=
  guarded env auth (edit_post fault i body).

(* ================================================================== *)
(** ** Vocabulary for the properties of the routes *)
(* ================================================================== *)

(** A body member that JavaScript treats as missing: absent or empty. *)
Definition absent (o : option string) : Prop := o = None \/ o = Some "".

(** The five required members of a create request are there. *)
Definition complete (b : CreateBody) : Prop :=
  ~ absent (b_slug b) /\ ~ absent (b_language b) /\ ~ absent (b_title b) /\
  ~ absent (b_excerpt b) /\ ~ absent (b_content b).

(** The row that [POST /api/posts] asks the database to insert, given the
    UUID and the time it draws. *)
Definition row_of (uuid : string) (now : Time) (b : CreateBody) : Post :=
  {| id := str_or (b_id b) uuid;
     slug := str_or (b_slug b) "";
     language := str_or (b_language b) "";
     title := str_or (b_title b) "";
     excerpt := str_or (b_excerpt b) "";
     content := str_or (b_content b) "";
     author := str_or (b_author b) "THEJORD Team";
     published := or_keep (b_published b) false;
     publishedAt := if or_keep (b_published b) false
                    then Some (or_keep (b_publishedAt b) now) else None;
     scheduledAt := b_scheduledAt b;
     translationGroup := if truthy_str (b_translationGroup b)
                         then b_translationGroup b else None;
     createdAt := now;
     updatedAt := now |}.

Module Sample7.

(** A complete create request for a published post. *)
Definition announcement : CreateBody :=
  {| b_id := None; b_slug := Some "launch"; b_language := Some "en";
     b_title := Some "Launch"; b_excerpt := Some "e"; b_content := Some "c";
     b_author := None; b_published := Some true; b_publishedAt := None;
     b_scheduledAt := None; b_translationGroup := Some "g-1" |}.

(** The same without a title. *)
Definition untitled : CreateBody :=
  {| b_id := None; b_slug := Some "launch"; b_language := Some "en";
     b_title := None; b_excerpt := Some "e"; b_content := Some "c";
     b_author := None; b_published := Some true; b_publishedAt := None;
     b_scheduledAt := None; b_translationGroup := None |}.

(** A request that takes the slug and language of [Sample.alpha]. *)
Definition clash : CreateBody :=
  {| b_id := None; b_slug := Some "alpha"; b_language := Some "it";
     b_title := Some "Alpha again"; b_excerpt := Some "e"; b_content := Some "c";
     b_author := None; b_published := None; b_publishedAt := None;
     b_scheduledAt := None; b_translationGroup := None |}.

(** An edit that renames a post to the slug of [Sample.beta]. *)
Definition rename_to_beta : UpdateBody :=
  {| ub_id := Some "other"; ub_createdAt := Some 999;
     ub_data := mkData (Some "beta") None None None None None None None None None None |}.

(** An edit of the title, with [id] and [createdAt] members in the body. *)
Definition retitle : UpdateBody :=
  {| ub_id := Some "other"; ub_createdAt := Some 999;
     ub_data := mkData None None (Some "New title") None None None None None None None None |}.

End Sample7.

(** A string of [n] hexadecimal digits, in either case. *)
Fixpoint all_hex (s : string) : bool :=
  match s with
  | EmptyString => true
  | String c rest => is_hex c && all_hex rest
  end.

Definition hex_group (n : nat) (s : string) : Prop :=
  String.length s = n /\ all_hex s = true.

Module Sample8.

(** A published post whose slug has the shape of a UUID. *)
Definition odd_slug : Post :=
  {| id := "id-7"; slug := "123e4567-e89b-12d3-a456-426614174000";
     language := "it"; title := "Odd"; excerpt := "e"; content := "c";
     author := "THEJORD Team"; published := true; publishedAt := Some 3;
     scheduledAt := None; translationGroup := None;
     createdAt := 0; updatedAt := 3 |}.

(** A published post, and an unpublished translation of it. *)
Definition guide_it : Post :=
  {| id := "id-8"; slug := "guida"; language := "it"; title := "Guida";
     excerpt := "e"; content := "c"; author := "THEJORD Team";
     published := true; publishedAt := Some 4; scheduledAt := None;
     translationGroup := Some "g-guide"; createdAt := 1; updatedAt := 4 |}.

Definition guide_en : Post :=
  {| id := "id-9"; slug := "guide"; language := "en"; title := "Guide";
     excerpt := "e"; content := "c"; author := "THEJORD Team";
     published := false; publishedAt := None; scheduledAt := Some 90;
     translationGroup := Some "g-guide"; createdAt := 2; updatedAt := 2 |}.

Definition site : World :=
  {| db := [odd_slug; guide_it; guide_en]; clock := 10; trace := [] |}.

(** Every database statement fails. *)
Definition down : Env :=
  {| FRONTEND_URL := None;
     REVALIDATE_TOKEN := None;
     db_fault := fun _ => Some PrismaUnavailable;
     fetch_outcome := fun _ _ => Responds 200;
     randomUUID := fun _ => "0b0e7a52-5a0c-4f0e-9c57-1d2f3a4b5c6d";
     authMiddleware := fun _ => None |}.

End Sample8.

(** The list query in which only [published] is given. *)
Definition only_published (lang : option string) (v : string)
    (search tags : option string) : ListQuery :=
  {| q_lang := lang; q_published := Some v; q_search := search; q_tags := tags |}.

Module Sample9.

(** Stand-ins for [trim], the database's text search and [hasSome]. *)
Definition no_trim (s : string) : string := s.
Definition same_text (term text : string) : bool := (term =? text)%string.
Definition any_tag (tags : list string) (p : Post) : bool := true.

Definition everything : ListQuery :=
  {| q_lang := Some "all"; q_published := Some "all"; q_search := None;
     q_tags := None |}.

End Sample9.

(* ================================================================== *)
(** ** routes/analytics.ts

    Header values reach the handler as strings of one-byte characters, so
    a [string] is such a value exactly.  The in-memory rate-limit table,
    the stored events and the console are threaded explicitly. *)
(* ================================================================== *)

Module Analytics.

(** *** Regular expressions of the file

    All of them are alternations of literal words tested with the [i]
    flag and without anchors; one word ([archive.org]) has a dot, which
    matches any character but a line break. *)
Inductive Pat :=
| Lit (c : ascii)      (* a literal, written in lower case *)
| Dot.

Definition lower_ascii (c : ascii) : ascii :=
  let n := nat_of_ascii c in
  if ((65 <=? n) && (n <=? 90))%nat then ascii_of_nat (n + 32) else c.

Definition pat_matches (p : Pat) (c : ascii) : bool :=
  match p with
  | Lit l => Ascii.eqb (lower_ascii c) l
  | Dot => negb (Ascii.eqb c "010"%char || Ascii.eqb c "013"%char)
  end.

Fixpoint matches_at (p : list Pat) (s : string) : bool :=
  match p, s with
  | [], _ => true
  | _ :: _, EmptyString => false
  | x :: p', String c s' => pat_matches x c && matches_at p' s'
  end.

Fixpoint search (p : list Pat) (s : string) : bool :=
  matches_at p s ||
  match s with
  | EmptyString => false
  | String _ s' => search p s'
  end.

Fixpoint word (s : string) : list Pat :=
  match s with
  | EmptyString => []
  | String c s' => Lit c :: word s'
  end.

(** [re.test(s)] for [re] an alternation of the given words *)
Definition test (alternatives : list (list Pat)) (s : string) : bool :=
  existsb (fun p => search p s) alternatives.

(** *** isTailscaleIP *)

Definition is_digit (c : ascii) : bool :=
  let n := nat_of_ascii c in ((48 <=? n) && (n <=? 57))%nat.

(** The longest run of digits at the start of a string, and what follows. *)
Fixpoint span_digits (s : string) : string * string :=
  match s with
  | EmptyString => (EmptyString, EmptyString)
  | String c rest =>
      if is_digit c
      then let (ds, tl) := span_digits rest in (String c ds, tl)
      else (EmptyString, s)
  end.

(** [parseInt] on a string of digits *)
Fixpoint parse_digits (acc : N) (s : string) : N :=
  match s with
  | EmptyString => acc
  | String c rest => parse_digits (acc * 10 + (N_of_ascii c - 48))%N rest
  end.

Definition parseInt (ds : string) : N := parse_digits 0%N ds.

Fixpoint strip_prefix (p s : string) : option string :=
  match p, s with
  | EmptyString, _ => Some s
  | String a p', String b s' => if Ascii.eqb a b then strip_prefix p' s' else None
  | String _ _, EmptyString => None
  end.

(** [/^100\.(\d+)\./] and the test on the captured octet *)
Definition isTailscaleIP (ip : string) : bool :=
  match strip_prefix "100." ip with
  | None => false
  | Some rest =>
      match span_digits rest with
      | (EmptyString, _) => false
      | (ds, String "."%char _) =>
          let secondOctet := parseInt ds in
          ((64 <=? secondOctet) && (secondOctet <=? 127))%N
      | (_, _) => false
      end
  end.

Definition EXCLUDED_IPS : list string := ["93.41.245.152"].

(** *** Bot detection *)

Definition BOT_PATTERNS : list (list Pat) :=
  map word
    ["bot"; "crawler"; "spider"; "scraper"; "slurp";
     "curl"; "wget"; "python"; "java"; "php"; "go-http"; "axios"; "node-fetch";
     "postman"; "insomnia"; "httpie"; "thunder client";
     "screaming frog"; "ahrefs"; "semrush"; "moz"; "majestic"; "seokicks";
     "sistrix"; "serpstat"; "linkdex"; "netcraft"; "rogerbot";
     "googlebot"; "bingbot"; "yandex"; "baiduspider"; "duckduckbot";
     "facebookexternalhit"; "twitterbot"; "linkedinbot"; "whatsapp"; "telegrambot";
     "pingdom"; "uptimerobot"; "statuscake"; "site24x7"; "gtmetrix"; "pagespeed";
     "headlesschrome"; "phantomjs"; "puppeteer"; "playwright"; "selenium";
     "applebot"; "pinterestbot"; "slackbot"; "discordbot"]
  ++ [word "archive" ++ [Dot] ++ word "org"].

(** [ua.toLowerCase().includes(w)] for a lower-case ASCII word [w] *)
Definition includes_lower (w : string) (ua : string) : bool := search (word w) ua.

Record Headers := mkHeaders {
  x_forwarded_for : option string;
  x_real_ip : option string;
  user_agent : option string;
  accept_language : option string;
  accept : option string;
  content_type : option string;
  referer : option string
}.

Definition isHeadlessBrowser (userAgent : string) (headers : Headers) : bool :=
  if includes_lower "headless" userAgent then true
  else if truthy_str (accept_language headers) then false
  else if includes_lower "chrome" userAgent then true
  else false.

Definition isBot (userAgent : string) (headers : Headers) : bool :=
  if (userAgent =? "")%string || (String.length userAgent <? 10)%nat then true
  else if test BOT_PATTERNS userAgent then true
  else if isHeadlessBrowser userAgent headers then true
  else false.

(** *** Rate limiting per IP *)

Record Bucket := mkBucket {
  count : nat;
  resetTime : Z
}.

(** [rateLimitMap]: a [Map] from IP to bucket *)
Definition RateMap := string -> option Bucket.

Definition no_buckets : RateMap := fun _ => None.

Definition set_bucket (ip : string) (b : Bucket) (m : RateMap) : RateMap :=
  fun ip' => if (ip' =? ip)%string then Some b else m ip'.

Definition RATE_LIMIT_WINDOW_MS : Z := 60000.
Definition RATE_LIMIT_MAX : nat := 100.

(** [isRateLimited(ip)], with [Date.now()] as an argument; the result is
    the answer and the table after the call. *)
Definition isRateLimited (now : Z) (ip : string) (m : RateMap) : bool * RateMap :=
  match m ip with
  | Some record =>
      if resetTime record <? now
      then (false, set_bucket ip (mkBucket 1 (now + RATE_LIMIT_WINDOW_MS)) m)
      else
        let record' := mkBucket (count record + 1) (resetTime record) in
        ((RATE_LIMIT_MAX <? count record')%nat, set_bucket ip record' m)
  | None => (false, set_bucket ip (mkBucket 1 (now + RATE_LIMIT_WINDOW_MS)) m)
  end.

(** The callback of [setInterval]: drop the buckets whose window is over. *)
Definition cleanup (now : Z) (m : RateMap) : RateMap :=
  fun ip =>
    match m ip with
    | Some record => if resetTime record <? now then None else Some record
    | None => None
    end.

(** Successive calls for one IP at the given times. *)
Fixpoint calls (times : list Z) (ip : string) (m : RateMap) : list bool * RateMap :=
  match times with
  | [] => ([], m)
  | t :: rest =>
      let (limited, m1) := isRateLimited t ip m in
      let (answers, m2) := calls rest ip m1 in
      (limited :: answers, m2)
  end.

(** *** Classification of the user agent *)

Definition getDeviceType (userAgent : string) : string :=
  if test (map word ["mobile"; "android"; "iphone"; "ipad"; "ipod"; "blackberry";
                     "windows phone"]) userAgent
  then if test (map word ["ipad"; "tablet"]) userAgent then "tablet" else "mobile"
  else "desktop".

Definition getBrowser (userAgent : string) : string :=
  if test [word "edg"] userAgent then "Edge"
  else if test (map word ["opr"; "opera"]) userAgent then "Opera"
  else if test (map word ["chrome"; "crios"; "chromium"]) userAgent then "Chrome"
  else if test (map word ["firefox"; "fxios"]) userAgent then "Firefox"
  else if test [word "safari"] userAgent then "Safari"
  else "Other".

Definition getOS (userAgent : string) : string :=
  if test [word "windows"] userAgent then "Windows"
  else if test (map word ["macintosh"; "mac os"]) userAgent then "macOS"
  else if test [word "linux"] userAgent then "Linux"
  else if test [word "android"] userAgent then "Android"
  else if test (map word ["iphone"; "ipad"; "ipod"]) userAgent then "iOS"
  else "Other".

(** *** getClientIP *)

(** White space, for [trim], among one-byte characters. *)
Definition is_space (c : ascii) : bool :=
  let n := nat_of_ascii c in
  ((9 <=? n) && (n <=? 13) || (n =? 32) || (n =? 160))%nat.

Fixpoint trim_start (s : string) : string :=
  match s with
  | EmptyString => EmptyString
  | String c rest => if is_space c then trim_start rest else s
  end.

(** Drops the white space at the end: the result of the recursive call
    is empty exactly when nothing but white space follows. *)
Fixpoint trim_end (s : string) : string :=
  match s with
  | EmptyString => EmptyString
  | String c rest =>
      match trim_end rest with
      | EmptyString => if is_space c then EmptyString else String c EmptyString
      | kept => String c kept
      end
  end.

Definition trim (s : string) : string := trim_end (trim_start s).

(** [s.split(',')[0]] *)
Fixpoint before_comma (s : string) : string :=
  match s with
  | EmptyString => EmptyString
  | String c rest => if Ascii.eqb c ","%char then EmptyString else String c (before_comma rest)
  end.

Record TrackBody := mkTrackBody {
  path : option string;
  event : option string;
  referrer : option string;
  sessionId : option string;
  userId : option string;
  language : option string;
  toolName : option string;
  metadata : option string     (* a JSON document, [None] when falsy *)
}.

Record TrackRequest := mkTrackRequest {
  headers : Headers;
  req_ip : option string;            (* [req.ip] *)
  remoteAddress : option string;     (* [req.socket.remoteAddress] *)
  body : TrackBody
}.

Definition getClientIP (req : TrackRequest) : string :=
  if truthy_str (x_forwarded_for (headers req))
  then trim (before_comma (str_or (x_forwarded_for (headers req)) ""))
  else if truthy_str (x_real_ip (headers req))
  then str_or (x_real_ip (headers req)) ""
  else str_or (req_ip req) (str_or (remoteAddress req) "unknown").

(** *** POST /api/analytics/track *)

(** A row of [analytics_events]. *)
Record AnalyticsEvent := mkEvent {
  e_sessionId : string;
  e_userId : string;
  e_path : string;
  e_event : string;
  e_referrer : option string;
  e_country : option string;
  e_city : option string;
  e_deviceType : string;
  e_browser : string;
  e_os : string;
  e_language : option string;
  e_toolName : option string;
  e_metadata : option string;
  e_createdAt : Time             (* not passed: the column default *)
}.

(** Lines written to the console, by content. *)
Inductive ALine :=
| SawRequest (ip ua50 : string)
| FilteredInternal (ip : string)
| FilteredRateLimited (ip : string)
| FilteredBot (ua80 : string)
| BotHeaders (accept accept_lang content_type : option string)
| TrackedLine (event path ip : string)
| TrackingError (e : Error).

Fixpoint slice0 (n : nat) (s : string) : string :=
  match n, s with
  | S k, String c rest => String c (slice0 k rest)
  | _, _ => EmptyString
  end.

Record AState := mkAState {
  events : list AnalyticsEvent;
  rateLimitMap : RateMap;
  console : list ALine
}.

(** The JSON bodies of the route. *)
Inductive TrackReply :=
| NotTracked (reason : string)     (* { success: true, tracked: false, reason } *)
| WasTracked (sessionId : string)  (* { success: true, tracked: true, sessionId } *)
| PathRequired.                    (* { success: false, error: 'path is required' } *)

Definition truthy_or_none (o : option string) : option string :=
  if truthy_str o then o else None.

Section Track.

(** The clock, [crypto.randomUUID()], SHA-256 in hexadecimal and the
    failure of the [create] statement, if any. *)
Variable now : Z.
Variable uuid : string.
Variable sha256_hex : string -> string.
Variable fault : option Error.

Definition generateUserHash (ip userAgent : string) : string :=
  slice0 16 (sha256_hex (ip ++ "|" ++ userAgent)%string).

Definition say (l : ALine) (st : AState) : AState :=
  mkAState (events st) (rateLimitMap st) (console st ++ [l]).

Definition track (req : TrackRequest) (st : AState) : (Z * TrackReply) * AState :=
  let ip := getClientIP req in
  let userAgent := str_or (user_agent (headers req)) "" in
  let st := say (SawRequest ip (slice0 50 userAgent)) st in
  if existsb (String.eqb ip) EXCLUDED_IPS || isTailscaleIP ip then
    ((200, NotTracked "internal"), say (FilteredInternal ip) st)
  else
    let (limited, m) := isRateLimited now ip (rateLimitMap st) in
    let st := mkAState (events st) m (console st) in
    if limited then
      ((200, NotTracked "rate_limited"), say (FilteredRateLimited ip) st)
    else if isBot userAgent (headers req) then
      ((200, NotTracked "bot"),
       say (BotHeaders (accept (headers req)) (accept_language (headers req))
                       (content_type (headers req)))
           (say (FilteredBot (slice0 80 userAgent)) st))
    else if negb (truthy_str (path (body req))) then
      ((400, PathRequired), st)
    else
      let finalSessionId := str_or (sessionId (body req)) uuid in
      let userHash := str_or (userId (body req)) (generateUserHash ip userAgent) in
      match fault with
      | Some e => ((200, NotTracked "error"), say (TrackingError e) st)
      | None =>
          let row :=
            {| e_sessionId := finalSessionId;
               e_userId := userHash;
               e_path := str_or (path (body req)) "";
               e_event := match event (body req) with Some e => e | None => "pageview" end;
               e_referrer :=
                 if truthy_str (referrer (body req)) then referrer (body req)
                 else truthy_or_none (referer (headers req));
               e_country := None;
               e_city := None;
               e_deviceType := getDeviceType userAgent;
               e_browser := getBrowser userAgent;
               e_os := getOS userAgent;
               e_language := truthy_or_none (language (body req));
               e_toolName := truthy_or_none (toolName (body req));
               e_metadata := metadata (body req);
               e_createdAt := now |} in
          ((200, WasTracked finalSessionId),
           say (TrackedLine (e_event row) (e_path row) ip)
               (mkAState (events st ++ [row]) (rateLimitMap st) (console st)))
      end.

End Track.

End Analytics.

(** Vocabulary for the properties of the analytics route. *)
Module AnalyticsAux.

Import Analytics.

(** Decimal numerals, as an address is written. *)
Fixpoint dec_aux (fuel n : nat) (acc : string) : string :=
  match fuel with
  | O => acc
  | S f =>
      let acc' := String (ascii_of_nat (48 + n mod 10)) acc in
      if (n <? 10)%nat then acc' else dec_aux f (n / 10) acc'
  end.

Definition dec (n : nat) : string := dec_aux (S n) n EmptyString.

Definition dotted (a b c d : nat) : string :=
  (dec a ++ "." ++ dec b ++ "." ++ dec c ++ "." ++ dec d)%string.

Fixpoint all_digits (s : string) : bool :=
  match s with
  | EmptyString => true
  | String c rest => is_digit c && all_digits rest
  end.

(** Requests of several clients, each a time and an IP, served in order
    by the rate limiter. *)
Fixpoint serve (requests : list (Z * string)) (m : RateMap) : list bool * RateMap :=
  match requests with
  | [] => ([], m)
  | (t, ip) :: rest =>
      let (limited, m1) := isRateLimited t ip m in
      let (answers, m2) := serve rest m1 in
      (limited :: answers, m2)
  end.

Definition from (ip : string) (r : Z * string) : bool := (snd r =? ip)%string.

(** [s] spells the lower-case word [w], letter case apart. *)
Fixpoint spells (w s : string) : bool :=
  match w, s with
  | EmptyString, EmptyString => true
  | String a w', String b s' => Ascii.eqb (lower_ascii b) a && spells w' s'
  | _, _ => false
  end.

Definition bot_words : list string :=
  ["bot"; "crawler"; "spider"; "scraper"; "slurp";
   "curl"; "wget"; "python"; "java"; "php"; "go-http"; "axios"; "node-fetch";
   "postman"; "insomnia"; "httpie"; "thunder client";
   "screaming frog"; "ahrefs"; "semrush"; "moz"; "majestic"; "seokicks";
   "sistrix"; "serpstat"; "linkdex"; "netcraft"; "rogerbot";
   "googlebot"; "bingbot"; "yandex"; "baiduspider"; "duckduckbot";
   "facebookexternalhit"; "twitterbot"; "linkedinbot"; "whatsapp"; "telegrambot";
   "pingdom"; "uptimerobot"; "statuscake"; "site24x7"; "gtmetrix"; "pagespeed";
   "headlesschrome"; "phantomjs"; "puppeteer"; "playwright"; "selenium";
   "applebot"; "pinterestbot"; "slackbot"; "discordbot"].

Definition internal (ip : string) : bool :=
  existsb (String.eqb ip) EXCLUDED_IPS || isTailscaleIP ip.

(** A browser-like request from a public address. *)
Definition visitor : TrackRequest :=
  {| headers :=
       {| x_forwarded_for := Some "203.0.113.9, 10.0.0.1";
          x_real_ip := None;
          user_agent := Some "Mozilla/5.0 (X11; Linux x86_64) Firefox/120.0";
          accept_language := Some "it-IT";
          accept := None; content_type := Some "application/json";
          referer := None |};
     req_ip := Some "10.0.0.1";
     remoteAddress := None;
     body := {| path := Some "/blog"; event := None; referrer := None;
                sessionId := Some "s-1"; userId := None; language := Some "it";
                toolName := None; metadata := None |} |}.

(** The same from a Tailscale address. *)
Definition colleague : TrackRequest :=
  {| headers :=
       {| x_forwarded_for := Some "100.101.7.7";
          x_real_ip := None;
          user_agent := Some "Mozilla/5.0 (X11; Linux x86_64) Firefox/120.0";
          accept_language := Some "it-IT";
          accept := None; content_type := Some "application/json";
          referer := None |};
     req_ip := None;
     remoteAddress := None;
     body := body visitor |}.

Definition fresh : AState :=
  {| events := []; rateLimitMap := no_buckets; console := [] |}.

Definition fake_sha (s : string) : string := "00112233445566778899aabbccddeeff".

End AnalyticsAux.

(* ================================================================== *)
(** ** The settings routes

    A key-value store behind a bearer token.  [V] is the type of the
    [value] column; [verify] is [jwt.verify] with the secret of the
    environment. *)
(* ================================================================== *)

Module Settings.

(** What [jwt.verify(token, secret)] does: it returns the decoded
    payload, or throws [TokenExpiredError] or another error. *)
Inductive Verdict := Decoded | TokenExpiredError | OtherJwtError.

(** [s.substring(n)] *)
Fixpoint substring_from (n : nat) (s : string) : string :=
  match n, s with
  | S k, String _ rest => substring_from k rest
  | _, _ => s
  end.

Section Store.

Variable V : Type.
Variable verify : string -> Verdict.

(** A row of [admin_settings]; [key] is unique. *)
Record Setting := mkSetting {
  key : string;
  value : V
}.

(** The table, and what was written with [console.error]. *)
Record Store := mkStore {
  table : list Setting;
  console : list (string * Error)
}.

Definition Handler (A : Type) : Type := Store -> Answer A * Store.

Definition answer {A} (a : Answer A) : Handler A := fun st => (a, st).

Definition console_error {A} (label : string) (e : Error) (a : Answer A)
  : Handler A :=
  fun st => (a, mkStore (table st) (console st ++ [(label, e)])).

(** The middleware of every route. *)
Definition verifyToken {A} (authorization : option string) (next : Handler A)
  : Handler A :=
  if negb (truthy_str authorization)
     || negb (String.prefix "Bearer " (str_or authorization ""))
  then answer (mkAnswer 401 (Refusal "No token provided" None))
  else
    let token := substring_from 7 (str_or authorization "") in
    match verify token with
    | Decoded => next
    | TokenExpiredError => answer (mkAnswer 401 (Refusal "Token expired" None))
    | OtherJwtError => answer (mkAnswer 401 (Refusal "Invalid token" None))
    end.

Definition has_key (k : string) (s : Setting) : bool := (key s =? k)%string.

(** [upsert({ where: { key }, update: { value }, create: { key, value } })] *)
Fixpoint upsert_rows (k : string) (v : V) (rows : list Setting) : list Setting :=
  match rows with
  | [] => [mkSetting k v]
  | s :: rest =>
      if has_key k s then mkSetting (key s) v :: rest
      else s :: upsert_rows k v rest
  end.

(** GET /api/settings/:key *)
Definition get_setting (fault : option Error) (k : string) : Handler (option V) :=
  fun st =>
    match fault with
    | Some error =>
        console_error "Get setting error:" error
          (mkAnswer 500 (Refusal "Failed to get setting" (Some error))) st
    | None =>
        let setting := find (has_key k) (table st) in
        answer (mkAnswer 200 (Data None (option_map value setting))) st
    end.

(** PUT /api/settings/:key; the body's [value] is [None] when it is
    undefined. *)
Definition put_setting (fault : option Error) (k : string) (body_value : option V)
  : Handler V :=
  fun st =>
    match body_value with
    | None => answer (mkAnswer 400 (Refusal "Value is required" None)) st
    | Some v =>
        match fault with
        | Some error =>
            console_error "Update setting error:" error
              (mkAnswer 500 (Refusal "Failed to update setting" (Some error))) st
        | None =>
            answer (mkAnswer 200 (Data None v))
                   (mkStore (upsert_rows k v (table st)) (console st))
        end
    end.

(** DELETE /api/settings/:key; the statement fails with P2025 when
    there is no such row. *)
Definition delete_setting (fault : option Error) (k : string) : Handler unit :=
  fun st =>
    let thrown :=
      match fault with
      | Some error => Some error
      | None =>
          match find (has_key k) (table st) with
          | Some _ => None
          | None => Some (PrismaKnown "P2025")
          end
      end in
    match thrown with
    | None =>
        answer (mkAnswer 200 (Message "Setting deleted"))
               (mkStore (filter (fun s => negb (has_key k s)) (table st))
                        (console st))
    | Some error =>
        if code_is "P2025" error
        then answer (mkAnswer 404 (Refusal "Setting not found" None)) st
        else console_error "Delete setting error:" error
               (mkAnswer 500 (Refusal "Failed to delete setting" (Some error))) st
    end.

(** GET /api/settings *)
Definition all_settings (fault : option Error) : Handler (list (string * V)) :=
  fun st =>
    match fault with
    | Some error =>
        console_error "Get all settings error:" error
          (mkAnswer 500 (Refusal "Failed to get settings" (Some error))) st
    | None =>
        let data :=
          fold_left (fun data setting => assign (key setting) (value setting) data)
                    (table st) [] in
        answer (mkAnswer 200 (Data None data)) st
    end.

Definition GET_setting auth fault k := verifyToken auth (get_setting fault k).
Definition PUT_setting auth fault k body_value :=
  verifyToken auth (put_setting fault k body_value).
Definition DELETE_setting auth fault k := verifyToken auth (delete_setting fault k).
Definition GET_settings auth fault := verifyToken auth (all_settings fault).

End Store.

Arguments mkSetting {V} key value.
Arguments key {V} s.
Arguments value {V} s.
Arguments mkStore {V} table console.
Arguments table {V} s.
Arguments console {V} s.
Arguments has_key {V} k s.
Arguments upsert_rows {V} k v rows.
Arguments verifyToken {V} verify {A} authorization next.
Arguments get_setting {V} fault k.
Arguments put_setting {V} fault k body_value.
Arguments delete_setting {V} fault k.
Arguments all_settings {V} fault.
Arguments GET_setting {V} verify auth fault k.
Arguments PUT_setting {V} verify auth fault k body_value.
Arguments DELETE_setting {V} verify auth fault k.
Arguments GET_settings {V} verify auth fault.

(** Vocabulary and samples for the properties of the routes. *)

(** No two rows have the same key. *)
Definition unique_setting_keys {V} (rows : list (Setting V)) : Prop :=
  NoDup (map key rows).

(** A verifier that accepts one token and finds another expired. *)
Definition one_token (token : string) : Verdict :=
  if (token =? "good")%string then Decoded
  else if (token =? "old")%string then TokenExpiredError
  else OtherJwtError.

Definition themed : Store string :=
  mkStore [mkSetting "theme" "dark"; mkSetting "lang" "it"] [].

End Settings.

(* ================================================================== *)
(** ** The loop computes what the description says *)
(* ================================================================== *)

Section LoopFacts.

Variable env : Env.
Variable now : Time.

Lemma handled_unhandled batch : batch = handled env now batch ++ unhandled env now batch.
Proof.
  induction batch as [|p rest IH]; simpl; [reflexivity|].
  destruct (update_ok env now p); simpl; [now rewrite <- IH | reflexivity].
Qed.

Lemma handled_all_ok batch :
  (forall p, In p batch -> update_ok env now p = true) ->
  handled env now batch = batch /\ unhandled env now batch = [].
Proof.
  induction batch as [|p rest IH]; simpl; intros H; [split; reflexivity|].
  rewrite (H p (or_introl eq_refl)).
  destruct IH as [-> ->]; [intros; apply H; now right|split; reflexivity].
Qed.

Lemma handled_prefix pre q post :
  (forall p, In p pre -> update_ok env now p = true) ->
  update_ok env now q = false ->
  handled env now (pre ++ q :: post) = pre /\ unhandled env now (pre ++ q :: post) = q :: post.
Proof.
  induction pre as [|p rest IH]; simpl; intros Hpre Hq.
  - rewrite Hq; split; reflexivity.
  - rewrite (Hpre p (or_introl eq_refl)).
    destruct IH as [-> ->]; [intros; apply Hpre; now right|assumption|].
    split; reflexivity.
Qed.

Lemma known_update_rows i j d rows :
  known i (update_rows j d rows) = known i rows.
Proof.
  unfold known, update_rows.
  induction rows as [|p rest IH]; simpl; [reflexivity|].
  rewrite IH; f_equal.
  unfold has_id; destruct (id p =? j)%string; reflexivity.
Qed.

Lemma known_find i rows : known i rows = true -> exists p, find (has_id i) rows = Some p.
Proof.
  unfold known; induction rows as [|p rest IH]; simpl; [discriminate|].
  destruct (has_id i p); [eauto | exact IH].
Qed.

Lemma revalidateCache_run s l w :
  revalidateCache env s l w =
  (Returned tt,
   mkWorld (db w) (clock w)
     (trace w ++ [Call_revalidateCache s l;
                  Fetch (revalidate_request env s);
                  revalidate_line env (S (List.length (trace w))) s l])).
Proof.
  unfold revalidateCache, bind, try_catch, fetch, emit, revalidate_line,
    console_log, console_warn, emit; simpl.
  rewrite length_app; simpl; rewrite Nat.add_1_r.
  destruct (fetch_outcome env _ _) as [|st]; simpl;
    [|destruct (ok st); simpl]; repeat rewrite <- app_assoc; reflexivity.
Qed.

Lemma publish_post_fault p w e :
  db_fault env (Update (id p) (publish_data now)) = Some e ->
  publish_post env now p w =
  (Thrown e, mkWorld (db w) (clock w)
               (trace w ++ [Db (Update (id p) (publish_data now))])).
Proof.
  intros H; unfold publish_post, bind, update, prisma; simpl.
  rewrite H; reflexivity.
Qed.

Lemma publish_post_ok p w :
  update_ok env now p = true ->
  known (id p) (db w) = true ->
  publish_post env now p w =
  (Returned tt,
   mkWorld (update_rows (id p) (publish_data now) (db w)) (clock w)
     (trace w ++ post_events env now (List.length (trace w)) p)).
Proof.
  unfold update_ok; intros Hok Hk.
  destruct (db_fault env _) eqn:F; [discriminate|].
  destruct (known_find _ _ Hk) as [q Hq].
  unfold publish_post, bind, update, prisma; simpl.
  rewrite F; simpl; rewrite Hq; simpl.
  unfold console_log, emit; simpl.
  rewrite revalidateCache_run; simpl.
  rewrite !length_app; simpl.
  unfold post_events.
  replace (S (List.length (trace w) + 1 + 1)) with (List.length (trace w) + 3)%nat by lia.
  repeat rewrite <- app_assoc; reflexivity.
Qed.

Lemma for_of_run batch : forall w,
  (forall p, In p batch -> known (id p) (db w) = true) ->
  for_of batch (publish_post env now) w =
  (loop_outcome env now (unhandled env now batch),
   mkWorld (publish_rows now (handled env now batch) (db w)) (clock w)
     (trace w ++ loop_events env now (List.length (trace w)) (handled env now batch)
              ++ abort_events now (unhandled env now batch))).
Proof.
  induction batch as [|p rest IH]; intros w Hk; simpl.
  - unfold ret; rewrite app_nil_r; destruct w; reflexivity.
  - unfold bind. destruct (update_ok env now p) eqn:Hp.
    + rewrite (publish_post_ok p w Hp) by (apply Hk; now left).
      rewrite IH; simpl.
      * rewrite length_app; simpl.
        repeat rewrite <- app_assoc; reflexivity.
      * intros q Hq; rewrite known_update_rows; apply Hk; now right.
    + unfold update_ok in Hp.
      destruct (db_fault env _) as [e|] eqn:F; [|discriminate].
      rewrite (publish_post_fault p w e F); simpl; rewrite F; reflexivity.
Qed.

End LoopFacts.

(* ================================================================== *)
(** ** What one run of the callback does *)
(* ================================================================== *)

Section SweepFacts.

Variable env : Env.

Lemma in_known p rows : In p rows -> known (id p) rows = true.
Proof.
  intros H; unfold known; apply existsb_exists.
  exists p; split; [assumption | apply String.eqb_refl].
Qed.

Lemma sweep_publish_run now p rest w :
  (forall q, In q (p :: rest) -> known (id q) (db w) = true) ->
  sweep_publish env now (p :: rest) w =
  (loop_outcome env now (unhandled env now (p :: rest)),
   mkWorld (publish_rows now (handled env now (p :: rest)) (db w)) (clock w)
     (trace w ++ Log (Publishing (List.length (p :: rest))) ::
        loop_events env now (List.length (trace w) + 1) (handled env now (p :: rest))
        ++ abort_events now (unhandled env now (p :: rest)))).
Proof.
  intros Hk. unfold sweep_publish.
  replace (0 <? List.length (p :: rest))%nat with true by reflexivity.
  unfold bind, console_log, emit.
  rewrite for_of_run by exact Hk.
  cbn [db clock trace]. rewrite length_app; cbn [List.length].
  repeat rewrite <- app_assoc; reflexivity.
Qed.

Lemma cron_callback_run w :
  cron_callback env w =
  (Returned tt,
   mkWorld (publish_rows (clock w) (sweep_done env w) (db w)) (clock w)
           (trace w ++ sweep_events env w)).
Proof.
  unfold cron_callback, sweep_body, sweep_select, try_catch, bind, ret,
    new_Date, findMany_due, prisma, sweep_done, sweep_events.
  cbn [db clock trace fst snd].
  destruct (db_fault env (FindManyDue (clock w))) as [e|] eqn:F.
  - unfold console_error, emit; cbn [db clock trace publish_rows fold_left].
    repeat rewrite <- app_assoc; reflexivity.
  - cbn [fst snd]. unfold due_batch.
    destruct (filter (is_due (clock w)) (db w)) as [|p rest] eqn:B.
    + reflexivity.
    + rewrite sweep_publish_run.
      * cbn [db clock trace]. rewrite length_app; cbn [List.length].
        replace (List.length (trace w) + 1 + 1)%nat
          with (List.length (trace w) + 2)%nat by lia.
        destruct (loop_outcome env (clock w) _) as [[]|e];
          unfold console_error, emit; cbn [db clock trace catch_events];
          repeat rewrite <- app_assoc; cbn [app]; try rewrite app_nil_r;
          repeat rewrite <- app_assoc; reflexivity.
      * intros q Hq. cbn [db]. apply in_known.
        rewrite <- B in Hq. apply filter_In in Hq. tauto.
Qed.

Lemma calls_for_app s l a b :
  calls_for s l (a ++ b) = (calls_for s l a + calls_for s l b)%nat.
Proof. unfold calls_for; now rewrite filter_app, length_app. Qed.

Lemma updates_of_app i a b :
  updates_of i (a ++ b) = (updates_of i a + updates_of i b)%nat.
Proof. unfold updates_of; now rewrite filter_app, length_app. Qed.

Lemma fetches_of_app s a b :
  fetches_of s (a ++ b) = (fetches_of s a + fetches_of s b)%nat.
Proof. unfold fetches_of; now rewrite filter_app, length_app. Qed.

Lemma revalidate_line_silent n s l :
  (forall a b, is_call a b (revalidate_line env n s l) = false) /\
  (forall i, is_update_of i (revalidate_line env n s l) = false) /\
  (forall x, is_fetch_of x (revalidate_line env n s l) = false).
Proof.
  unfold revalidate_line.
  destruct (fetch_outcome env n _) as [|st]; [|destruct (ok st)];
    repeat split; reflexivity.
Qed.

Lemma calls_for_loop_events now s l done : forall n,
  calls_for s l (loop_events env now n done) = count_key s l done.
Proof.
  induction done as [|p rest IH]; intros n; [reflexivity|].
  cbn [loop_events]. rewrite calls_for_app, IH.
  unfold calls_for, count_key, post_events; cbn [filter is_call].
  destruct (revalidate_line_silent (n + 3) (slug p) (language p)) as [-> _].
  unfold has_slug_language.
  destruct ((slug p =? s)%string && (language p =? l)%string); reflexivity.
Qed.

Lemma fetches_of_loop_events now s done : forall n,
  fetches_of s (loop_events env now n done) = count_slug s done.
Proof.
  induction done as [|p rest IH]; intros n; [reflexivity|].
  cbn [loop_events]. rewrite fetches_of_app, IH.
  unfold fetches_of, count_slug, post_events; cbn [filter is_fetch_of].
  destruct (revalidate_line_silent (n + 3) (slug p) (language p)) as (_ & _ & ->).
  cbn [revalidate_request body].
  destruct (slug p =? s)%string; reflexivity.
Qed.

Lemma updates_of_loop_events now i done : forall n,
  (forall p, In p done -> id p <> i) ->
  updates_of i (loop_events env now n done) = 0%nat.
Proof.
  induction done as [|p rest IH]; intros n H; [reflexivity|].
  cbn [loop_events]. rewrite updates_of_app, IH by (intros; apply H; now right).
  unfold updates_of, post_events; cbn [filter is_update_of].
  destruct (revalidate_line_silent (n + 3) (slug p) (language p)) as (_ & -> & _).
  destruct (String.eqb_spec (id p) i) as [E|_]; [|reflexivity].
  exfalso; exact (H p (or_introl eq_refl) E).
Qed.

Lemma catch_events_silent r :
  (forall s l, calls_for s l (catch_events r) = 0%nat) /\
  (forall i, updates_of i (catch_events r) = 0%nat) /\
  (forall s, fetches_of s (catch_events r) = 0%nat).
Proof. destruct r; repeat split; reflexivity. Qed.

Lemma abort_events_silent now rest :
  (forall s l, calls_for s l (abort_events now rest) = 0%nat) /\
  (forall s, fetches_of s (abort_events now rest) = 0%nat).
Proof. destruct rest; repeat split; reflexivity. Qed.

(** The notifier is invoked once for each transitioned post and for
    nothing else. *)
Lemma calls_for_sweep_events s l w :
  calls_for s l (sweep_events env w) = count_key s l (sweep_done env w).
Proof.
  unfold sweep_events, sweep_done.
  destruct (db_fault env (FindManyDue (clock w))); [reflexivity|].
  destruct (due_batch w) as [|p rest] eqn:B; [reflexivity|].
  change (calls_for s l (?a :: ?b :: ?t)) with (calls_for s l t).
  rewrite !calls_for_app, calls_for_loop_events.
  destruct (abort_events_silent (clock w) (unhandled env (clock w) (p :: rest))) as [-> _].
  destruct (catch_events_silent
              (loop_outcome env (clock w) (unhandled env (clock w) (p :: rest))))
    as [-> _].
  lia.
Qed.

Lemma fetches_of_sweep_events s w :
  fetches_of s (sweep_events env w) = count_slug s (sweep_done env w).
Proof.
  unfold sweep_events, sweep_done.
  destruct (db_fault env (FindManyDue (clock w))); [reflexivity|].
  destruct (due_batch w) as [|p rest] eqn:B; [reflexivity|].
  change (fetches_of s (?a :: ?b :: ?t)) with (fetches_of s t).
  rewrite !fetches_of_app, fetches_of_loop_events.
  destruct (abort_events_silent (clock w) (unhandled env (clock w) (p :: rest))) as [_ ->].
  destruct (catch_events_silent
              (loop_outcome env (clock w) (unhandled env (clock w) (p :: rest))))
    as (_ & _ & ->).
  lia.
Qed.

Lemma in_handled now p batch : In p (handled env now batch) -> In p batch.
Proof.
  intros H; rewrite (handled_unhandled env now batch); apply in_or_app; now left.
Qed.

Lemma in_unhandled now p batch : In p (unhandled env now batch) -> In p batch.
Proof.
  intros H; rewrite (handled_unhandled env now batch); apply in_or_app; now right.
Qed.

(** An [update] is only ever issued for the id of a selected post. *)
Lemma updates_of_sweep_events i w :
  (forall p, In p (due_batch w) -> id p <> i) ->
  updates_of i (sweep_events env w) = 0%nat.
Proof.
  intros H. unfold sweep_events.
  destruct (db_fault env (FindManyDue (clock w))); [reflexivity|].
  destruct (due_batch w) as [|p rest] eqn:B; [reflexivity|].
  change (updates_of i (?a :: ?b :: ?t)) with (updates_of i t).
  rewrite !updates_of_app, updates_of_loop_events
    by (intros q Hq; apply H; eapply in_handled; eassumption).
  destruct (catch_events_silent
              (loop_outcome env (clock w) (unhandled env (clock w) (p :: rest))))
    as (_ & -> & _).
  destruct (unhandled env (clock w) (p :: rest)) as [|q tl] eqn:U; [reflexivity|].
  unfold updates_of, abort_events; cbn [filter is_update_of].
  destruct (String.eqb_spec (id q) i) as [E|_]; [|reflexivity].
  exfalso; apply (H q); [|assumption].
  eapply in_unhandled; rewrite U; now left.
Qed.

Lemma callback_returns w : fst (cron_callback env w) = Returned tt.
Proof. rewrite cron_callback_run. reflexivity. Qed.

Lemma sweep_done_due p w : In p (sweep_done env w) -> In p (db w) /\ is_due (clock w) p = true.
Proof.
  unfold sweep_done.
  destruct (db_fault env _); [intros []|].
  intros H; apply in_handled in H. apply filter_In in H; assumption.
Qed.

End SweepFacts.

(* ================================================================== *)
(** ** Facts about tables *)
(* ================================================================== *)

Lemma publish_rows_map now done : forall rows,
  publish_rows now done rows =
  map (fun q => if known (id q) done then publish_row now q else q) rows.
Proof.
  induction done as [|p rest IH]; intros rows.
  - cbn. symmetry. erewrite map_ext; [apply map_id|reflexivity].
  - change (publish_rows now (p :: rest) rows)
      with (publish_rows now rest (update_rows (id p) (publish_data now) rows)).
    rewrite IH. unfold update_rows. rewrite map_map.
    apply map_ext; intros q.
    unfold known; cbn [existsb].
    replace (has_id (id q) p) with (has_id (id p) q)
      by (unfold has_id; apply String.eqb_sym).
    destruct (has_id (id p) q); cbn [orb].
    + change (id (apply_data (publish_data now) q)) with (id q).
      fold (publish_row now q).
      destruct (existsb (has_id (id q)) rest); reflexivity.
    + reflexivity.
Qed.

Lemma publish_rows_keys now done rows : map key (publish_rows now done rows) = map key rows.
Proof.
  rewrite publish_rows_map, map_map. apply map_ext; intros q.
  destruct (known (id q) done); reflexivity.
Qed.

Lemma known_in i rows : known i rows = true -> exists p, In p rows /\ id p = i.
Proof.
  unfold known; intros H. apply existsb_exists in H as [p [Hp E]].
  exists p; split; [assumption | now apply String.eqb_eq].
Qed.

Lemma known_false i rows : known i rows = false -> forall p, In p rows -> id p <> i.
Proof.
  intros H p Hp E. rewrite <- E, (in_known p rows Hp) in H. discriminate.
Qed.

Lemma NoDup_map_inj_in {A B} (f : A -> B) (l : list A) a b :
  NoDup (map f l) -> In a l -> In b l -> f a = f b -> a = b.
Proof.
  induction l as [|x l IH]; cbn; intros ND Ha Hb E; [contradiction|].
  inversion ND as [|? ? Hx ND']; subst.
  destruct Ha as [->|Ha], Hb as [->|Hb]; auto.
  - exfalso; apply Hx; rewrite E; now apply in_map.
  - exfalso; apply Hx; rewrite <- E; now apply in_map.
Qed.

Lemma has_slug_language_key s l p : has_slug_language s l p = true <-> key p = (s, l).
Proof.
  unfold has_slug_language, key; rewrite andb_true_iff, !String.eqb_eq.
  split; [intros [-> ->]; reflexivity | intros E; injection E; auto].
Qed.

Lemma count_key_app s l a b :
  count_key s l (a ++ b) = (count_key s l a + count_key s l b)%nat.
Proof. unfold count_key; now rewrite filter_app, length_app. Qed.

Lemma count_key_none s l rows :
  (forall p, In p rows -> key p <> (s, l)) -> count_key s l rows = 0%nat.
Proof.
  unfold count_key; induction rows as [|p rest IH]; intros H; [reflexivity|].
  cbn [filter]. destruct (has_slug_language s l p) eqn:E.
  - apply has_slug_language_key in E. exfalso; exact (H p (or_introl eq_refl) E).
  - apply IH; intros; apply H; now right.
Qed.

Lemma count_key_some s l rows :
  count_key s l rows <> 0%nat -> exists p, In p rows /\ key p = (s, l).
Proof.
  unfold count_key; induction rows as [|p rest IH]; intros H; [now contradiction H|].
  cbn [filter] in H. destruct (has_slug_language s l p) eqn:E.
  - exists p; split; [now left | now apply has_slug_language_key].
  - destruct (IH H) as [q [Hq Eq]]; exists q; split; [now right | assumption].
Qed.

Lemma count_key_unique s l rows : unique_keys rows -> (count_key s l rows <= 1)%nat.
Proof.
  unfold unique_keys; induction rows as [|p rest IH]; intros ND; [cbn; lia|].
  cbn [map] in ND; inversion ND as [|? ? Hp ND']; subst.
  specialize (IH ND').
  change (p :: rest) with ([p] ++ rest). rewrite count_key_app.
  unfold count_key at 1; cbn [filter].
  destruct (has_slug_language s l p) eqn:E; cbn [List.length]; [|lia].
  apply has_slug_language_key in E.
  rewrite count_key_none; [lia|].
  intros q Hq Eq; apply Hp; rewrite E, <- Eq; now apply in_map.
Qed.

Lemma count_key_filter s l f rows :
  (count_key s l (filter f rows) <= count_key s l rows)%nat.
Proof.
  unfold count_key; induction rows as [|p rest IH]; [cbn; lia|].
  cbn [filter]. destruct (f p); cbn [filter];
    destruct (has_slug_language s l p); cbn [List.length]; lia.
Qed.

Lemma count_key_handled env now s l batch :
  (count_key s l (handled env now batch) <= count_key s l batch)%nat.
Proof.
  rewrite (handled_unhandled env now batch) at 2. rewrite count_key_app; lia.
Qed.

Lemma count_key_sweep_done env s l w :
  (count_key s l (sweep_done env w) <= count_key s l (db w))%nat.
Proof.
  unfold sweep_done. destruct (db_fault env _); [cbn; lia|].
  etransitivity; [apply count_key_handled | apply count_key_filter].
Qed.

Lemma is_due_published now p : published p = true -> is_due now p = false.
Proof. unfold is_due; intros ->; reflexivity. Qed.

Lemma sweep_done_no_fault env w :
  (forall s, db_fault env s = None) -> sweep_done env w = due_batch w.
Proof.
  intros H; unfold sweep_done; rewrite H.
  apply handled_all_ok; intros p _; unfold update_ok; now rewrite H.
Qed.

(* ================================================================== *)
(** ** Properties of the sweep *)
(* ================================================================== *)

(** C1: every post that is unpublished and whose [scheduledAt] is set and
    not after the sweep's [now] is, after a sweep in which no database
    statement fails, published, with [publishedAt] and [updatedAt] equal to
    that [now] and [scheduledAt] cleared; its other columns are kept. *)
Theorem sweep_publishes_every_due_post (env : Env) (w : World) (p : Post) :
  (forall s, db_fault env s = None) ->
  In p (db w) ->
  published p = false ->
  (exists t, scheduledAt p = Some t /\ t <= clock w) ->
  let w' := snd (cron_callback env w) in
  In (publish_row (clock w) p) (db w') /\
  forall q, In q (db w') -> id q = id p ->
    published q = true /\ publishedAt q = Some (clock w) /\
    scheduledAt q = None /\ updatedAt q = clock w.
Proof.
  intros Hok Hin Hpub (t & Ht & Hle) w'.
  assert (Hdue : is_due (clock w) p = true).
  { unfold is_due; rewrite Hpub, Ht; cbn. now apply Z.leb_le. }
  assert (Hb : In p (due_batch w)) by (apply filter_In; auto).
  subst w'. rewrite cron_callback_run; cbn [snd db].
  rewrite sweep_done_no_fault by assumption.
  rewrite publish_rows_map. split.
  - apply in_map_iff. exists p. split; [|assumption].
    now rewrite (in_known p _ Hb).
  - intros q Hq Eid. apply in_map_iff in Hq as (q0 & <- & Hq0).
    assert (Hk : known (id q0) (due_batch w) = true).
    { destruct (known (id q0) (due_batch w)) eqn:K; [reflexivity|].
      cbn in Eid. exfalso. apply (known_false _ _ K p Hb). now symmetry. }
    rewrite Hk. repeat split; reflexivity.
Qed.

Lemma sweep_publishes_every_due_post_witness :
  In (publish_row 10 Sample.alpha)
     (db (snd (cron_callback Sample.quiet Sample.start))).
Proof.
  refine (proj1 (sweep_publishes_every_due_post Sample.quiet Sample.start
                   Sample.alpha _ _ _ _)).
  - reflexivity.
  - simpl; auto.
  - reflexivity.
  - exists 5; split; [reflexivity | simpl; lia].
Defined.



(** C9: whatever the table, the clock and the failures of the query, of
    the updates and of the notifications, one execution of the callback
    ends normally: no error leaves it. *)
Theorem cron_callback_never_throws (env : Env) (w : World) :
  fst (cron_callback env w) = Returned tt.
Proof.
  unfold cron_callback, try_catch.
  destruct (sweep_body env w) as [[[]|e] w']; reflexivity.
Qed.

Lemma sweep_db env w :
  db (snd (cron_callback env w)) = map (sweep_row env w) (db w).
Proof. rewrite cron_callback_run; cbn [snd db]. apply publish_rows_map. Qed.

Lemma sweep_trace env w :
  trace (snd (cron_callback env w)) = trace w ++ sweep_events env w.
Proof. rewrite cron_callback_run; reflexivity. Qed.

Lemma sweep_row_id env w q : id (sweep_row env w q) = id q.
Proof. unfold sweep_row; destruct (known _ _); reflexivity. Qed.

Lemma sweep_row_key env w q : key (sweep_row env w q) = key q.
Proof. unfold sweep_row; destruct (known _ _); reflexivity. Qed.

Lemma sweep_unique_ids env w :
  unique_ids (db w) -> unique_ids (db (snd (cron_callback env w))).
Proof.
  unfold unique_ids. intros H. rewrite sweep_db, map_map.
  erewrite map_ext; [exact H | apply sweep_row_id].
Qed.

Lemma sweep_unique_keys env w :
  unique_keys (db w) -> unique_keys (db (snd (cron_callback env w))).
Proof.
  unfold unique_keys. intros H. rewrite sweep_db, map_map.
  erewrite map_ext; [exact H | apply sweep_row_key].
Qed.

(** C2: two sweeps run one after the other, with nothing in between but
    the passing of time and whatever failures occur, invoke the notifier
    at most once for any post; and a post that is published after the first
    sweep is not returned by the second sweep's query, gets no [update]
    statement and no notification from the second sweep. *)
Theorem second_sweep_skips_published_posts (env1 env2 : Env) (w : World) (t2 : Time) :
  unique_ids (db w) ->
  unique_keys (db w) ->
  let w1 := snd (cron_callback env1 w) in
  let w2 := snd (cron_callback env2 (at_time t2 w1)) in
  (forall p, In p (db w) ->
     (calls_for (slug p) (language p) (trace w2)
      <= calls_for (slug p) (language p) (trace w) + 1)%nat) /\
  (forall p1, In p1 (db w1) -> published p1 = true ->
     (forall batch w', findMany_due env2 t2 (at_time t2 w1) = (Returned batch, w') ->
                       ~ In p1 batch) /\
     updates_of (id p1) (trace w2) = updates_of (id p1) (trace w1) /\
     calls_for (slug p1) (language p1) (trace w2)
     = calls_for (slug p1) (language p1) (trace w1)).
Proof.
  intros NDi NDk w1 w2.
  assert (NDi1 : unique_ids (db w1)) by now apply sweep_unique_ids.
  assert (NDk1 : unique_keys (db w1)) by now apply sweep_unique_keys.
  assert (T2 : trace w2 = trace w1 ++ sweep_events env2 (at_time t2 w1))
    by (unfold w2; now rewrite sweep_trace).
  assert (Skip : forall p1, In p1 (db w1) -> published p1 = true ->
            forall r, In r (sweep_done env2 (at_time t2 w1)) ->
                      key r <> key p1).
  { intros p1 H1 Hpub r Hr E.
    apply sweep_done_due in Hr as [Hr Dr]. cbn [db clock at_time] in Hr, Dr.
    assert (r = p1)
      by (apply (NoDup_map_inj_in key (db w1)); assumption).
    subst r.
    rewrite is_due_published in Dr by assumption. discriminate. }
  split.
  - intros p Hp.
    rewrite T2, calls_for_app. unfold w1 at 1. rewrite sweep_trace, calls_for_app.
    rewrite !calls_for_sweep_events.
    pose proof (count_key_sweep_done env1 (slug p) (language p) w) as L1.
    pose proof (count_key_unique (slug p) (language p) _ NDk) as U.
    pose proof (count_key_sweep_done env2 (slug p) (language p) (at_time t2 w1)) as L2.
    pose proof (count_key_unique (slug p) (language p) _ NDk1) as U1.
    cbn [db at_time] in L2.
    destruct (Nat.eq_dec (count_key (slug p) (language p) (sweep_done env1 w)) 0)
      as [Z|NZ]; [lia|].
    apply count_key_some in NZ as (r & Hr & Er).
    assert (r = p).
    { apply sweep_done_due in Hr as Hr'. destruct Hr' as [Hr' _].
      apply (NoDup_map_inj_in key (db w)); [exact NDk | exact Hr' | exact Hp | exact Er]. }
    subst r.
    assert (P1 : In (publish_row (clock w) p) (db w1)).
    { unfold w1; rewrite sweep_db. apply in_map_iff. exists p; split; [|assumption].
      unfold sweep_row. now rewrite (in_known p _ Hr). }
    rewrite (count_key_none (slug p) (language p) (sweep_done env2 (at_time t2 w1))).
    + lia.
    + intros r Hr2 E. exact (Skip _ P1 eq_refl r Hr2 E).
  - intros p1 H1 Hpub. repeat split.
    + intros batch w' Hrun Hq.
      unfold findMany_due, prisma in Hrun.
      destruct (db_fault env2 (FindManyDue t2)); [discriminate|].
      injection Hrun as <- _. apply filter_In in Hq as [_ Hq].
      rewrite is_due_published in Hq by assumption. discriminate.
    + rewrite T2, updates_of_app, updates_of_sweep_events; [lia|].
      intros r Hr E. apply filter_In in Hr as [Hr Dr]. cbn [db clock at_time] in Hr, Dr.
      assert (r = p1)
        by (apply (NoDup_map_inj_in id (db w1)); assumption).
      subst r.
      rewrite is_due_published in Dr by assumption. discriminate.
    + rewrite T2, calls_for_app, calls_for_sweep_events, count_key_none; [lia|].
      intros r Hr E. exact (Skip p1 H1 Hpub r Hr E).
Qed.

Lemma second_sweep_skips_published_posts_witness :
  (calls_for "alpha" "it"
     (trace (snd (cron_callback Sample.quiet
                    (at_time 70%Z (snd (cron_callback Sample.quiet Sample.start))))))
   <= calls_for "alpha" "it" (trace Sample.start) + 1)%nat.
Proof.
  refine (proj1 (second_sweep_skips_published_posts Sample.quiet Sample.quiet
                   Sample.start 70 _ _) Sample.alpha _).
  - unfold unique_ids; simpl.
    repeat (constructor; [simpl; intuition discriminate|]). constructor.
  - unfold unique_keys; simpl.
    repeat (constructor; [simpl; intuition discriminate|]). constructor.
  - simpl; auto.
Defined.

Lemma count_key_in p rows :
  In p rows -> (1 <= count_key (slug p) (language p) rows)%nat.
Proof.
  intros H. destruct (count_key (slug p) (language p) rows) eqn:E; [|lia].
  exfalso. revert E. induction rows as [|r rest IH]; [contradiction|].
  unfold count_key; cbn [filter]. destruct H as [->|H].
  - replace (has_slug_language (slug p) (language p) p) with true; [discriminate|].
    symmetry; now apply has_slug_language_key.
  - destruct (has_slug_language _ _ r); [discriminate | now apply IH].
Qed.

Lemma NoDup_app_disjoint {A} (l1 l2 : list A) a :
  NoDup (l1 ++ l2) -> In a l1 -> In a l2 -> False.
Proof.
  induction l1 as [|x l1 IH]; cbn; intros ND H1 H2; [contradiction|].
  inversion ND as [|? ? Hx ND']; subst. destruct H1 as [->|H1].
  - apply Hx, in_or_app; now right.
  - now apply IH.
Qed.

(** Two posts at different places of a batch differ in id and in
    (slug, language). *)
Lemma batch_split_apart w pre rest a b :
  unique_ids (db w) -> unique_keys (db w) ->
  due_batch w = pre ++ rest -> In a pre -> In b rest ->
  id a <> id b /\ key a <> key b.
Proof.
  intros NDi NDk B Ha Hb.
  assert (NDb : NoDup (pre ++ rest)).
  { rewrite <- B. apply NoDup_filter. eapply NoDup_map_inv; exact NDi. }
  assert (Ia : In a (db w)).
  { assert (H : In a (due_batch w)) by (rewrite B; apply in_or_app; now left).
    apply filter_In in H; tauto. }
  assert (Ib : In b (db w)).
  { assert (H : In b (due_batch w)) by (rewrite B; apply in_or_app; now right).
    apply filter_In in H; tauto. }
  split; intros E.
  - assert (a = b) by (apply (NoDup_map_inj_in id (db w)); assumption).
    subst b. eapply NoDup_app_disjoint; eauto.
  - assert (a = b) by (apply (NoDup_map_inj_in key (db w)); assumption).
    subst b. eapply NoDup_app_disjoint; eauto.
Qed.

(** C3, as stated, fails: [alpha] and [gamma] are both due; the update of
    [alpha] throws, the update of [gamma] would not.  After the sweep
    [gamma] is still in the table unpublished, no [update] was issued for
    it and its notification was not attempted. *)
Lemma failed_update_stops_later_posts :
  due_batch Sample.start = [Sample.alpha; Sample.gamma] /\
  db_fault Sample2.flaky (Update (id Sample.alpha) (publish_data 10)) = Some PrismaUnavailable /\
  db_fault Sample2.flaky (Update (id Sample.gamma) (publish_data 10)) = None /\
  In Sample.gamma (db (snd (cron_callback Sample2.flaky Sample.start))) /\
  published Sample.gamma = false /\
  ~ In (publish_row 10 Sample.gamma) (db (snd (cron_callback Sample2.flaky Sample.start))) /\
  updates_of "id-3" (trace (snd (cron_callback Sample2.flaky Sample.start))) = 0%nat /\
  calls_for "gamma" "it" (trace (snd (cron_callback Sample2.flaky Sample.start))) = 0%nat.
Proof.
  repeat split; try reflexivity.
  - vm_compute; tauto.
  - vm_compute. intros H.
    repeat (destruct H as [H|H]; [discriminate H|]). exact H.
Qed.

Lemma id_sweep_row env w q : id (sweep_row env w q) = id q.
Proof. unfold sweep_row. destruct (known _ _); reflexivity. Qed.

(** C3, amended: when the update of one due post throws, the callback
    catches the error, logs it and ends.  The posts that precede the
    failing one in the batch are published ([published] is true,
    [publishedAt] and [updatedAt] are the sweep's [now], [scheduledAt] is
    null, the other columns are kept) and were each notified once; the
    failing post and all the posts after it are in the table exactly as
    they were, unpublished and with their [scheduledAt] in the past, and
    for the posts after it no [update] is issued and no notification is
    attempted: they wait for a later tick. *)
Theorem failed_update_ends_the_sweep
    (env : Env) (w : World) (pre post : list Post) (q : Post) (e : Error) :
  unique_ids (db w) ->
  unique_keys (db w) ->
  db_fault env (FindManyDue (clock w)) = None ->
  filter (is_due (clock w)) (db w) = pre ++ q :: post ->
  (forall p, In p pre -> db_fault env (Update (id p) (publish_data (clock w))) = None) ->
  db_fault env (Update (id q) (publish_data (clock w))) = Some e ->
  let w' := snd (cron_callback env w) in
  fst (cron_callback env w) = Returned tt /\
  (forall p, In p pre ->
     In (publish_row (clock w) p) (db w') /\
     (forall r, In r (db w') -> id r = id p ->
        published r = true /\ publishedAt r = Some (clock w) /\
        scheduledAt r = None /\ updatedAt r = clock w) /\
     calls_for (slug p) (language p) (trace w')
     = (calls_for (slug p) (language p) (trace w) + 1)%nat) /\
  (forall p, In p (q :: post) ->
     In p (db w') /\
     (forall r, In r (db w') -> id r = id p -> r = p) /\
     published p = false /\
     exists t, scheduledAt p = Some t /\ t <= clock w) /\
  (forall p, In p post ->
     updates_of (id p) (trace w') = updates_of (id p) (trace w) /\
     calls_for (slug p) (language p) (trace w')
     = calls_for (slug p) (language p) (trace w)) /\
  (exists evs,
     trace w' = trace w ++ evs ++ [Db (Update (id q) (publish_data (clock w)));
                                   Err (JobError e)]).
Proof.
  intros NDi NDk F B Hpre Hq w'.
  fold (due_batch w) in B.
  assert (Hh : handled env (clock w) (due_batch w) = pre /\
               unhandled env (clock w) (due_batch w) = q :: post).
  { rewrite B. apply handled_prefix.
    - intros p Hp; unfold update_ok; now rewrite Hpre.
    - unfold update_ok; now rewrite Hq. }
  destruct Hh as [Hh Hu].
  assert (Hd : sweep_done env w = pre) by (unfold sweep_done; now rewrite F).
  assert (Inb : forall p, In p (due_batch w) -> In p (db w) /\ is_due (clock w) p = true)
    by (intros p Hp; apply filter_In in Hp; exact Hp).
  assert (Hev : sweep_events env w =
                (Db (FindManyDue (clock w)) ::
                 Log (Publishing (List.length (due_batch w))) ::
                 loop_events env (clock w) (List.length (trace w) + 2) pre)
                ++ [Db (Update (id q) (publish_data (clock w))); Err (JobError e)]).
  { unfold sweep_events. rewrite F, Hh, Hu.
    destruct (due_batch w) as [|x xs] eqn:Bx.
    - destruct pre; discriminate B.
    - cbn [abort_events loop_outcome]. rewrite Hq. cbn [catch_events].
      cbn [app]. reflexivity. }
  assert (Tr : trace w' = trace w ++ sweep_events env w)
    by (unfold w'; apply sweep_trace).
  assert (Dw : db w' = map (sweep_row env w) (db w))
    by (unfold w'; apply sweep_db).
  assert (Kept : forall p, In p (q :: post) -> known (id p) pre = false).
  { intros p Hp. destruct (known (id p) pre) eqn:K; [|reflexivity].
    apply known_in in K as (r & Hr & E). exfalso.
    destruct (batch_split_apart w pre (q :: post) r p NDi NDk B Hr Hp) as [N _].
    exact (N E). }
  assert (Row : forall p r, In p (db w) -> In r (db w') -> id r = id p ->
                            r = sweep_row env w p).
  { intros p r Hp Hr E. rewrite Dw in Hr. apply in_map_iff in Hr as (r0 & <- & Hr0).
    rewrite id_sweep_row in E.
    now rewrite (NoDup_map_inj_in id (db w) r0 p NDi Hr0 Hp E). }
  split; [apply callback_returns|].
  split; [|split; [|split]].
  - intros p Hp.
    assert (Hin : In p (db w)) by (apply Inb; rewrite B; apply in_or_app; now left).
    assert (Sp : sweep_row env w p = publish_row (clock w) p).
    { unfold sweep_row. now rewrite Hd, (in_known p pre Hp). }
    split; [|split].
    + rewrite Dw. apply in_map_iff. exists p. split; assumption.
    + intros r Hr E. rewrite (Row p r Hin Hr E), Sp. repeat split; reflexivity.
    + rewrite Tr, calls_for_app, calls_for_sweep_events, Hd.
      pose proof (count_key_in p pre Hp) as L.
      assert (U : (count_key (slug p) (language p) pre <= 1)%nat).
      { pose proof (count_key_unique (slug p) (language p) (db w) NDk) as U1.
        pose proof (count_key_filter (slug p) (language p) (is_due (clock w)) (db w)) as U2.
        fold (due_batch w) in U2. rewrite B, count_key_app in U2. lia. }
      lia.
  - intros p Hp.
    assert (Hb : In p (db w) /\ is_due (clock w) p = true)
      by (apply Inb; rewrite B; apply in_or_app; now right).
    destruct Hb as [Hin Hdue].
    assert (Sp : sweep_row env w p = p).
    { unfold sweep_row. now rewrite Hd, (Kept p Hp). }
    split; [|split].
    + rewrite Dw. apply in_map_iff. exists p. split; assumption.
    + intros r Hr E. now rewrite (Row p r Hin Hr E).
    + unfold is_due in Hdue. apply andb_true_iff in Hdue as [Hu1 Hu2].
      split; [now apply negb_true_iff in Hu1|].
      destruct (scheduledAt p) as [t|]; [|discriminate].
      exists t. split; [reflexivity | now apply Z.leb_le].
  - intros p Hp.
    assert (Hp' : In p (q :: post)) by now right.
    assert (Nq : id q <> id p).
    { assert (B' : due_batch w = (pre ++ [q]) ++ post)
        by (rewrite <- app_assoc; exact B).
      apply (batch_split_apart w (pre ++ [q]) post q p NDi NDk B');
        [apply in_or_app; right; now left | assumption]. }
    split.
    + rewrite Tr, Hev, !updates_of_app.
      change (updates_of (id p) (Db (FindManyDue ?n) :: ?b :: ?t))
        with (updates_of (id p) t).
      rewrite updates_of_loop_events.
      * unfold updates_of; cbn [filter is_update_of].
        destruct (String.eqb_spec (id q) (id p)); [contradiction|]. cbn; lia.
      * intros r Hr E.
        destruct (batch_split_apart w pre (q :: post) r p NDi NDk B Hr Hp') as [N _].
        exact (N E).
    + rewrite Tr, calls_for_app, calls_for_sweep_events, Hd, count_key_none; [lia|].
      intros r Hr E.
      destruct (batch_split_apart w pre (q :: post) r p NDi NDk B Hr Hp') as [_ N].
      exact (N E).
  - eexists. rewrite Tr, Hev. reflexivity.
Qed.

Lemma failed_update_ends_the_sweep_witness :
  (forall r,
     In r (db (snd (cron_callback Sample2.flaky_middle Sample2.later))) ->
     id r = "id-1" ->
     published r = true /\ publishedAt r = Some 60 /\
     scheduledAt r = None /\ updatedAt r = 60) /\
  (In Sample.gamma (db (snd (cron_callback Sample2.flaky_middle Sample2.later))) /\
   (forall r,
      In r (db (snd (cron_callback Sample2.flaky_middle Sample2.later))) ->
      id r = "id-3" -> r = Sample.gamma)) /\
  updates_of "id-3" (trace (snd (cron_callback Sample2.flaky_middle Sample2.later)))
  = 0%nat /\
  calls_for "gamma" "it" (trace (snd (cron_callback Sample2.flaky_middle Sample2.later)))
  = 0%nat.
Proof.
  assert (U1 : unique_ids (db Sample2.later)).
  { unfold unique_ids; simpl.
    repeat (constructor; [simpl; intuition discriminate|]). constructor. }
  assert (U2 : unique_keys (db Sample2.later)).
  { unfold unique_keys; simpl.
    repeat (constructor; [simpl; intuition discriminate|]). constructor. }
  assert (Hpre : forall p, In p [Sample.alpha] ->
            db_fault Sample2.flaky_middle
              (Update (id p) (publish_data (clock Sample2.later))) = None).
  { intros p [<-|[]]; reflexivity. }
  destruct (failed_update_ends_the_sweep Sample2.flaky_middle Sample2.later
              [Sample.alpha] [Sample.gamma] Sample.beta PrismaUnavailable
              U1 U2 eq_refl eq_refl Hpre eq_refl) as (_ & Hdone & Hleft & Hlater & _).
  split; [|split; [|split]].
  - exact (proj1 (proj2 (Hdone Sample.alpha (or_introl eq_refl)))).
  - destruct (Hleft Sample.gamma (or_intror (or_introl eq_refl))) as (H1 & H2 & _).
    split; assumption.
  - exact (proj1 (Hlater Sample.gamma (or_introl eq_refl))).
  - exact (proj2 (Hlater Sample.gamma (or_introl eq_refl))).
Defined.

Lemma handled_with_fetch env f now batch :
  handled (with_fetch env f) now batch = handled env now batch.
Proof. induction batch as [|p rest IH]; [reflexivity|]. cbn. now rewrite IH. Qed.

Lemma sweep_done_with_fetch env f w :
  sweep_done (with_fetch env f) w = sweep_done env w.
Proof. unfold sweep_done; cbn [db_fault with_fetch]. now rewrite handled_with_fetch. Qed.

Lemma updates_of_loop_events_in env now p done : forall n,
  In p done -> (1 <= updates_of (id p) (loop_events env now n done))%nat.
Proof.
  induction done as [|r rest IH]; intros n H; [contradiction|].
  cbn [loop_events]. rewrite updates_of_app. destruct H as [->|H].
  - unfold updates_of at 1, post_events; cbn [filter is_update_of].
    rewrite String.eqb_refl. cbn [List.length]. lia.
  - specialize (IH (n + 5)%nat H). lia.
Qed.

Lemma updates_of_sweep_events_in env w p :
  In p (sweep_done env w) -> (1 <= updates_of (id p) (sweep_events env w))%nat.
Proof.
  unfold sweep_events, sweep_done.
  destruct (db_fault env (FindManyDue (clock w))); [contradiction|].
  destruct (due_batch w) as [|x rest] eqn:B; [contradiction|]. intros H.
  change (updates_of (id p) (?a :: ?b :: ?t)) with (updates_of (id p) t).
  rewrite updates_of_app.
  pose proof (updates_of_loop_events_in env (clock w) p _
                (List.length (trace w) + 2)%nat H).
  lia.
Qed.

(** C7: the notifier never throws and never touches the table, whatever
    happens to its HTTP call.  Consequently the outcomes of the outbound
    calls (rejected, timed out, answered with any status) have no influence
    on a sweep: it ends normally, leaves the same table and invokes the
    notifier for the same posts as it would with any other outcomes; and
    when no database statement fails, every due post of the batch ends
    with [published] true, [publishedAt] and [updatedAt] the sweep's [now]
    and [scheduledAt] null, was updated once and had its notification
    attempted, even if every notification failed. *)
Theorem notification_failure_is_swallowed
    (env : Env) (f : nat -> Request -> FetchOutcome) (w : World) :
  (forall s l w0,
     fst (revalidateCache (with_fetch env f) s l w0) = Returned tt /\
     db (snd (revalidateCache (with_fetch env f) s l w0)) = db w0) /\
  fst (cron_callback (with_fetch env f) w) = Returned tt /\
  db (snd (cron_callback (with_fetch env f) w)) = db (snd (cron_callback env w)) /\
  (forall s l,
     calls_for s l (trace (snd (cron_callback (with_fetch env f) w)))
     = calls_for s l (trace (snd (cron_callback env w)))) /\
  ((forall s, db_fault env s = None) ->
   forall p, In p (db w) -> published p = false ->
     (exists t, scheduledAt p = Some t /\ t <= clock w) ->
     let w' := snd (cron_callback (with_fetch env f) w) in
     In (publish_row (clock w) p) (db w') /\
     (forall q, In q (db w') -> id q = id p ->
        published q = true /\ publishedAt q = Some (clock w) /\
        scheduledAt q = None /\ updatedAt q = clock w) /\
     (updates_of (id p) (trace w) + 1 <= updates_of (id p) (trace w'))%nat /\
     (calls_for (slug p) (language p) (trace w) + 1
      <= calls_for (slug p) (language p) (trace w'))%nat).
Proof.
  split; [|split; [|split; [|split]]].
  - intros s l w0. rewrite revalidateCache_run. split; reflexivity.
  - apply callback_returns.
  - rewrite !sweep_db. apply map_ext; intros q.
    unfold sweep_row. now rewrite sweep_done_with_fetch.
  - intros s l. rewrite !sweep_trace, !calls_for_app, !calls_for_sweep_events.
    now rewrite sweep_done_with_fetch.
  - intros Hok p Hp Hpub (t & Ht & Hle) w'.
    assert (Hdue : is_due (clock w) p = true).
    { unfold is_due; rewrite Hpub, Ht; cbn. now apply Z.leb_le. }
    assert (Hb : In p (sweep_done env w)).
    { rewrite sweep_done_no_fault by assumption. apply filter_In; auto. }
    assert (Dw : db w' = map (sweep_row (with_fetch env f) w) (db w))
      by (unfold w'; apply sweep_db).
    assert (Tr : trace w' = trace w ++ sweep_events (with_fetch env f) w)
      by (unfold w'; apply sweep_trace).
    split; [|split; [|split]].
    + rewrite Dw. apply in_map_iff. exists p; split; [|assumption].
      unfold sweep_row. now rewrite sweep_done_with_fetch, (in_known p _ Hb).
    + intros q Hq Eid. rewrite Dw in Hq. apply in_map_iff in Hq as (q0 & <- & Hq0).
      rewrite id_sweep_row in Eid. unfold sweep_row.
      rewrite sweep_done_with_fetch.
      assert (Hk : known (id q0) (sweep_done env w) = true).
      { destruct (known (id q0) (sweep_done env w)) eqn:K; [reflexivity|].
        exfalso. apply (known_false _ _ K p Hb). now symmetry. }
      rewrite Hk. repeat split; reflexivity.
    + rewrite Tr, updates_of_app.
      rewrite <- (sweep_done_with_fetch env f) in Hb.
      pose proof (updates_of_sweep_events_in _ _ _ Hb). lia.
    + rewrite Tr, calls_for_app, calls_for_sweep_events, sweep_done_with_fetch.
      pose proof (count_key_in p _ Hb). lia.
Qed.

Lemma notification_failure_is_swallowed_witness :
  In (publish_row 10 Sample.gamma)
     (db (snd (cron_callback Sample3.offline Sample.start))) /\
  (forall q, In q (db (snd (cron_callback Sample3.offline Sample.start))) ->
     id q = "id-3" ->
     published q = true /\ publishedAt q = Some 10 /\
     scheduledAt q = None /\ updatedAt q = 10) /\
  (updates_of "id-3" (trace Sample.start) + 1
   <= updates_of "id-3" (trace (snd (cron_callback Sample3.offline Sample.start))))%nat /\
  (calls_for "gamma" "it" (trace Sample.start) + 1
   <= calls_for "gamma" "it" (trace (snd (cron_callback Sample3.offline Sample.start))))%nat.
Proof.
  refine (proj2 (proj2 (proj2 (proj2
            (notification_failure_is_swallowed Sample.quiet
               (fun _ _ => Rejects) Sample.start))))
            _ Sample.gamma _ _ _).
  - reflexivity.
  - simpl; auto.
  - reflexivity.
  - exists 7. split; [reflexivity | simpl; lia].
Defined.

Lemma ok_spec st : ok st = true <-> 200 <= st <= 299.
Proof. unfold ok; rewrite andb_true_iff, !Z.leb_le; tauto. Qed.

Lemma filter_none {A} (f : A -> bool) l :
  (forall a, In a l -> f a = false) -> filter f l = [].
Proof.
  induction l as [|a l IH]; intros H; [reflexivity|].
  cbn. rewrite (H a (or_introl eq_refl)). apply IH; intros; apply H; now right.
Qed.

(** The transitioned posts, read off the table in storage order. *)
Lemma filter_known_handled env now rows :
  unique_ids rows ->
  filter (fun p => known (id p) (handled env now (filter (is_due now) rows))) rows
  = handled env now (filter (is_due now) rows).
Proof.
  unfold unique_ids. induction rows as [|r rest IH]; intros ND; [reflexivity|].
  cbn [map] in ND. inversion ND as [|? ? Hr ND']; subst. specialize (IH ND').
  assert (Hfar : forall done, (forall p, In p done -> In p rest) ->
                              known (id r) done = false).
  { intros done Hsub. destruct (known (id r) done) eqn:K; [|reflexivity].
    apply known_in in K as (p & Hp & E). exfalso. apply Hr.
    rewrite <- E. apply in_map, Hsub, Hp. }
  assert (Hsub : forall p, In p (handled env now (filter (is_due now) rest)) -> In p rest).
  { intros p Hp. apply in_handled in Hp. apply filter_In in Hp. tauto. }
  cbn [filter]. destruct (is_due now r) eqn:D.
  - cbn [handled]. destruct (update_ok env now r) eqn:U.
    + replace (known (id r) (r :: handled env now (filter (is_due now) rest))) with true
        by (symmetry; apply in_known; now left).
      f_equal. etransitivity; [|exact IH]. apply filter_ext_in. intros p Hp.
      unfold known; cbn [existsb]. unfold has_id at 1.
      destruct (String.eqb_spec (id r) (id p)) as [E|_]; [|reflexivity].
      exfalso. apply Hr. rewrite E. now apply in_map.
    + apply filter_none. intros; reflexivity.
  - rewrite (Hfar _ Hsub). exact IH.
Qed.

Lemma row_after_sweep env w p :
  unique_ids (db w) -> In p (db w) ->
  existsb (fun q => has_id (id p) q && published q)
          (db (snd (cron_callback env w)))
  = published (sweep_row env w p).
Proof.
  intros ND Hp. rewrite sweep_db.
  destruct (published (sweep_row env w p)) eqn:P.
  - apply existsb_exists. exists (sweep_row env w p). split.
    + now apply in_map.
    + rewrite P, andb_true_r. unfold has_id. rewrite sweep_row_id.
      apply String.eqb_refl.
  - destruct (existsb _ _) eqn:X; [|reflexivity].
    apply existsb_exists in X as (q' & Hq' & Hc).
    apply in_map_iff in Hq' as (q0 & <- & Hq0).
    apply andb_true_iff in Hc as [Hi Hpub].
    unfold has_id in Hi. rewrite sweep_row_id in Hi. apply String.eqb_eq in Hi.
    assert (q0 = p) by (apply (NoDup_map_inj_in id (db w)); assumption).
    subst q0. congruence.
Qed.

Lemma transitioned_sweep env w :
  unique_ids (db w) ->
  transitioned w (snd (cron_callback env w)) = sweep_done env w.
Proof.
  intros ND. unfold transitioned.
  assert (E : forall p, In p (db w) ->
              negb (published p) &&
              existsb (fun q => has_id (id p) q && published q)
                      (db (snd (cron_callback env w)))
              = known (id p) (sweep_done env w)).
  { intros p Hp. rewrite row_after_sweep by assumption.
    unfold sweep_row. destruct (known (id p) (sweep_done env w)) eqn:K.
    - apply known_in in K as (r & Hr & Er).
      apply sweep_done_due in Hr as [Hr Dr].
      assert (r = p) by (apply (NoDup_map_inj_in id (db w)); assumption).
      subst r. unfold is_due in Dr. apply andb_true_iff in Dr as [Dr _].
      rewrite Dr. reflexivity.
    - destruct (published p); reflexivity. }
  rewrite (filter_ext_in _ _ _ E).
  unfold sweep_done. destruct (db_fault env (FindManyDue (clock w))).
  - apply filter_none. intros; reflexivity.
  - apply filter_known_handled. exact ND.
Qed.

(** C8: an invocation of the notifier sends exactly one HTTP request, a
    POST to [{frontendUrl}/api/revalidate] with the bearer token in the
    Authorization header and the body [{ path: "/blog", slug }], and then
    writes one console line, which reports success exactly when a response
    arrived with a status between 200 and 299, and is a warning otherwise;
    it returns normally in every case.  In a sweep the number of requests
    sent for a slug is the number of posts with that slug that the sweep
    took from unpublished to published. *)
Theorem one_request_per_transitioned_post (env : Env) (w : World) :
  (forall s l w0,
     let req :=
       {| url := (str_or (FRONTEND_URL env) "https://thejord.it" ++ "/api/revalidate")%string;
          method := "POST";
          headers := [("Content-Type", "application/json");
                      ("Authorization",
                       ("Bearer " ++ str_or (REVALIDATE_TOKEN env)
                                       "dev-token-change-in-production")%string)];
          body := [("path", "/blog"); ("slug", s)] |} in
     let outcome := fetch_outcome env (S (List.length (trace w0))) req in
     exists line,
       revalidateCache env s l w0
       = (Returned tt,
          mkWorld (db w0) (clock w0)
                  (trace w0 ++ [Call_revalidateCache s l; Fetch req; line])) /\
       (line = Log (Revalidated s l)
        <-> exists st, outcome = Responds st /\ 200 <= st <= 299) /\
       (line = Log (Revalidated s l) \/
        (exists st, outcome = Responds st /\ line = Warn (RevalidationFailed s st)) \/
        (outcome = Rejects /\ line = Warn (RevalidationError s FetchRejected)))) /\
  (unique_ids (db w) ->
   forall s,
     fetches_of s (trace (snd (cron_callback env w)))
     = (fetches_of s (trace w)
        + count_slug s (transitioned w (snd (cron_callback env w))))%nat).
Proof.
  split.
  - intros s l w0 req outcome.
    exists (revalidate_line env (S (List.length (trace w0))) s l).
    split; [apply revalidateCache_run|].
    unfold revalidate_line. fold req. fold outcome.
    change (revalidate_request env s) with req. fold outcome.
    destruct outcome as [|st] eqn:O.
    + split; [|right; right; split; reflexivity].
      split; [discriminate | intros (st & H & _); discriminate H].
    + destruct (ok st) eqn:K.
      * split; [|left; reflexivity].
        split; [intros _; exists st; split; [reflexivity | now apply ok_spec]
               | reflexivity].
      * split; [|right; left; exists st; split; reflexivity].
        split; [discriminate|].
        intros (st' & H & R). injection H as <-.
        apply ok_spec in R. congruence.
  - intros ND s.
    rewrite transitioned_sweep by assumption.
    rewrite sweep_trace, fetches_of_app, fetches_of_sweep_events. reflexivity.
Qed.

Lemma one_request_per_transitioned_post_witness :
  fetches_of "alpha" (trace (snd (cron_callback Sample.quiet Sample.start)))
  = (fetches_of "alpha" (trace Sample.start)
     + count_slug "alpha"
         (transitioned Sample.start (snd (cron_callback Sample.quiet Sample.start))))%nat.
Proof.
  refine (proj2 (one_request_per_transitioned_post Sample.quiet Sample.start) _ "alpha").
  unfold unique_ids; simpl.
  repeat (constructor; [simpl; intuition discriminate|]). constructor.
Defined.

(* ================================================================== *)
(** ** Properties of the posts routes *)
(* ================================================================== *)

Lemma find_unique {A} (f : A -> bool) (l : list A) (a : A) :
  In a l -> f a = true -> (forall b, In b l -> f b = true -> b = a) ->
  find f l = Some a.
Proof.
  induction l as [|x l IH]; intros Ha Fa U; [contradiction|].
  cbn. destruct (f x) eqn:Fx.
  - f_equal. apply U; [now left | assumption].
  - destruct Ha as [->|Ha]; [congruence|].
    apply IH; [assumption | assumption | intros; apply U; [now right | assumption]].
Qed.

Lemma find_by_id rows p :
  unique_ids rows -> In p rows -> find (has_id (id p)) rows = Some p.
Proof.
  intros ND Hp. apply find_unique; [assumption | apply String.eqb_refl |].
  intros b Hb E. apply String.eqb_eq in E.
  apply (NoDup_map_inj_in id rows); assumption.
Qed.

Lemma find_by_key rows p :
  unique_keys rows -> In p rows ->
  find (has_slug_language (slug p) (language p)) rows = Some p.
Proof.
  intros ND Hp. apply find_unique; [assumption | now apply has_slug_language_key |].
  intros b Hb E. apply has_slug_language_key in E.
  apply (NoDup_map_inj_in key rows); assumption.
Qed.

(** C10: for an unpublished post of the table, a [GET /api/posts/:slugOrId]
    that designates it and carries no Authorization header is answered 404
    "Post not found"; the same request with any non-empty Authorization
    header, whatever its value, is answered with the post and
    [success: true].  (The lookup is assumed not to fail.) *)
Theorem unpublished_post_needs_only_a_header
    (env : Env) (w : World) (p : Post) (req : GetRequest) :
  unique_ids (db w) ->
  unique_keys (db w) ->
  (forall s, db_fault env s = None) ->
  In p (db w) ->
  published p = false ->
  addresses req p ->
  (authorization req = None ->
   fst (get_post env req w) = Returned (mkResponse 404 (Failure "Post not found"))) /\
  (forall value, authorization req = Some value -> value <> "" ->
   fst (get_post env req w) = Returned (mkResponse 200 (Success p))).
Proof.
  intros NDi NDk Hok Hp Hpub Haddr.
  assert (Hfound :
    (if isUUID (slugOrId req)
     then findUnique_id env (slugOrId req)
     else findUnique_slug_language env (slugOrId req)
            match lang req with Some l => l | None => "it" end) w
    = (Returned (Some p), mkWorld (db w) (clock w)
         (trace w ++ [Db (if isUUID (slugOrId req)
                          then FindUniqueId (slugOrId req)
                          else FindUniqueSlugLanguage (slugOrId req)
                                 match lang req with Some l => l | None => "it" end)]))).
  { destruct Haddr as [[U E] | (U & E & L)]; rewrite U.
    - unfold findUnique_id, prisma. rewrite Hok, E. cbn [db clock trace].
      now rewrite find_by_id.
    - unfold findUnique_slug_language, prisma. rewrite Hok, E, L. cbn [db clock trace].
      now rewrite find_by_key. }
  split.
  - intros Hauth. unfold get_post, try_catch, bind.
    rewrite Hfound, Hpub, Hauth. reflexivity.
  - intros value Hauth Hne. unfold get_post, try_catch, bind.
    rewrite Hfound, Hpub, Hauth. cbn [negb andb truthy_str].
    destruct (String.eqb_spec value ""); [contradiction|]. reflexivity.
Qed.

Lemma unpublished_post_needs_only_a_header_witness :
  fst (get_post Sample.quiet Sample4.anonymous Sample4.site)
  = Returned (mkResponse 404 (Failure "Post not found")) /\
  fst (get_post Sample.quiet Sample4.with_header Sample4.site)
  = Returned (mkResponse 200 (Success Sample4.hidden)).
Proof.
  split.
  - refine (proj1 (unpublished_post_needs_only_a_header Sample.quiet Sample4.site
                     Sample4.hidden Sample4.anonymous _ _ _ _ _ _) _).
    + unfold unique_ids; simpl; repeat constructor; simpl; tauto.
    + unfold unique_keys; simpl; repeat constructor; simpl; tauto.
    + reflexivity.
    + simpl; auto.
    + reflexivity.
    + right. repeat split; reflexivity.
    + reflexivity.
  - refine (proj2 (unpublished_post_needs_only_a_header Sample.quiet Sample4.site
                     Sample4.hidden Sample4.with_header _ _ _ _ _ _)
                  "not a token" _ _).
    + unfold unique_ids; simpl; repeat constructor; simpl; tauto.
    + unfold unique_keys; simpl; repeat constructor; simpl; tauto.
    + reflexivity.
    + simpl; auto.
    + reflexivity.
    + left. split; reflexivity.
    + reflexivity.
    + discriminate.
Defined.

Lemma handler_keeps_table (what : string) (c : string) (r1 r2 : Response)
      (e : Error) (w : World) :
  db (snd ((console_error (HandlerError what e) ;;;
            if code_is c e then ret r1 else ret r2) w)) = db w.
Proof. unfold bind, console_error, emit, ret. destruct (code_is c e); reflexivity. Qed.

Lemma table_ok_app rows p :
  table_ok rows -> unscheduled_if_published p -> table_ok (rows ++ [p]).
Proof.
  intros H Hp q Hq. apply in_app_or in Hq as [Hq|[<-|[]]]; [now apply H | assumption].
Qed.

(** C4, as stated, fails: from an empty table, a create request that is
    both published and scheduled stores a post with [published = true]
    and a non-null [scheduledAt]; and an edit that sets only
    [published: true] on a scheduled post leaves its [scheduledAt] in
    place. *)
Lemma create_and_edit_break_the_invariant :
  table_ok (db Sample5.nothing) /\
  (exists p,
     In p (db (snd (POST_posts Sample.quiet (Some "Bearer t")
                      Sample5.published_and_scheduled Sample5.nothing))) /\
     published p = true /\ scheduledAt p = Some 99) /\
  table_ok (db Sample.start) /\
  (exists p,
     In p (db (snd (PUT_posts Sample.quiet (Some "Bearer t") "id-1"
                      Sample5.publish_now Sample.start))) /\
     published p = true /\ scheduledAt p = Some 5).
Proof.
  split; [intros p []|]. split.
  - eexists. split; [vm_compute; left; reflexivity | split; reflexivity].
  - split.
    + intros p Hp. cbn in Hp.
      repeat (destruct Hp as [<-|Hp]; [intros H; discriminate H|]). contradiction.
    + eexists. split; [vm_compute; left; reflexivity | split; reflexivity].
Qed.

(** C4, amended: the sweep preserves the invariant that a published post
    has a null [scheduledAt].  The create and edit routes store the
    [published] and [scheduledAt] of the request as they come: a create
    preserves the invariant when its body does not have both a true
    [published] and a [scheduledAt]; an edit preserves it when its body
    sets [published] to false, or sets [scheduledAt] to null, or sets
    neither of the two. *)
Theorem invariant_kept_by_sweep_and_by_consistent_requests :
  (forall env w,
     table_ok (db w) -> table_ok (db (snd (cron_callback env w)))) /\
  (forall env auth b w,
     table_ok (db w) ->
     ~ (b_published b = Some true /\ b_scheduledAt b <> None) ->
     table_ok (db (snd (POST_posts env auth b w)))) /\
  (forall env auth i b w,
     table_ok (db w) ->
     (d_published (ub_data b) = Some false \/
      d_scheduledAt (ub_data b) = Some None \/
      (d_published (ub_data b) = None /\ d_scheduledAt (ub_data b) = None)) ->
     table_ok (db (snd (PUT_posts env auth i b w)))).
Proof.
  split; [|split].
  - intros env w H q Hq. rewrite sweep_db in Hq.
    apply in_map_iff in Hq as (q0 & <- & Hq0).
    unfold sweep_row. destruct (known _ _); [intros _; reflexivity | now apply H].
  - intros env auth b w H Hb.
    unfold POST_posts, protected.
    destruct (authMiddleware env auth); [exact H|].
    unfold create_post, try_catch.
    destruct (negb _ || _ || _ || _ || _); [exact H|].
    unfold bind at 1, new_Date. unfold bind at 1, crypto_randomUUID.
    unfold bind at 1, create, prisma.
    cbn [db clock trace].
    destruct (db_fault env _) as [e|].
    + rewrite handler_keeps_table. exact H.
    + destruct (existsb _ _ || existsb _ _).
      * rewrite handler_keeps_table. exact H.
      * cbn [ret snd db]. apply table_ok_app; [exact H|].
        intros Hpub. cbn [published scheduledAt] in *.
        destruct (b_published b) as [[]|]; try discriminate Hpub.
        destruct (b_scheduledAt b); [|reflexivity].
        exfalso; apply Hb; split; [reflexivity | discriminate].
  - intros env auth i b w H Hb.
    unfold PUT_posts, protected.
    destruct (authMiddleware env auth); [exact H|].
    unfold update_post, try_catch, bind at 1, update, prisma.
    cbn [db clock trace].
    destruct (db_fault env _) as [e|].
    + rewrite handler_keeps_table. exact H.
    + destruct (find (has_id i) (db w)) as [p|].
      * destruct (writes_key _ && _).
        -- rewrite handler_keeps_table. exact H.
        -- cbn [ret snd db]. intros q Hq.
           unfold update_rows in Hq. apply in_map_iff in Hq as (q0 & <- & Hq0).
           destruct (has_id i q0); [|now apply H].
           intros Hpub. cbn [apply_data published scheduledAt] in *.
           destruct Hb as [E|[E|[E1 E2]]].
           ++ rewrite E in Hpub. discriminate Hpub.
           ++ rewrite E. reflexivity.
           ++ rewrite E1 in Hpub. rewrite E2. now apply H.
      * rewrite handler_keeps_table. exact H.
Qed.

Lemma invariant_kept_by_sweep_and_by_consistent_requests_witness :
  table_ok (db (snd (cron_callback Sample.quiet Sample.start))) /\
  table_ok (db (snd (POST_posts Sample.quiet (Some "Bearer t")
                       Sample5.plain_draft Sample5.nothing))).
Proof.
  assert (H : table_ok (db Sample.start)).
  { intros p Hp. cbn in Hp.
    repeat (destruct Hp as [<-|Hp]; [intros E; discriminate E|]). contradiction. }
  split.
  - exact (proj1 invariant_kept_by_sweep_and_by_consistent_requests
             Sample.quiet Sample.start H).
  - refine (proj1 (proj2 invariant_kept_by_sweep_and_by_consistent_requests)
              Sample.quiet (Some "Bearer t") Sample5.plain_draft Sample5.nothing _ _).
    + intros p [].
    + intros [E _]. discriminate E.
Defined.

(* ================================================================== *)
(** ** Overlapping sweeps *)
(* ================================================================== *)

Lemma run_finished env fuel w : run env fuel Finished w = (Finished, w).
Proof. induction fuel as [|n IH]; [reflexivity | exact IH]. Qed.

Lemma run_S env n t w :
  run env (S n) t w = run env n (fst (step env t w)) (snd (step env t w)).
Proof. cbn [run]. destruct (step env t w); reflexivity. Qed.

(** One loop iteration is the update and its log line, then the
    notification. *)
Lemma publish_post_split env now p w :
  publish_post env now p w =
  match (update env (id p) (publish_data now) ;;;
         console_log (Published (title p) (language p))) w with
  | (Returned _, w1) => revalidateCache env (slug p) (language p) w1
  | (Thrown e, w1) => (Thrown e, w1)
  end.
Proof.
  unfold publish_post, bind, console_log, emit.
  destruct (update env (id p) (publish_data now) w) as [[a|e] w1]; reflexivity.
Qed.

Lemma try_catch_bind {A B} (m : M A) (k : M B) (h : Error -> M B) (w : World) :
  try_catch (m ;;; k) h w =
  match m w with
  | (Returned _, w1) => try_catch k h w1
  | (Thrown e, w1) => h e w1
  end.
Proof. unfold try_catch, bind. destruct (m w) as [[a|e] w1]; reflexivity. Qed.

(** A task run alone, to its end, is the callback. *)
Lemma run_loop env now rest : forall w,
  run env (S (2 * List.length rest)) (Looping now rest) w =
  (Finished,
   snd (try_catch (for_of rest (publish_post env now))
          (fun error => console_error (JobError error)) w)).
Proof.
  induction rest as [|p rest IH]; intros w; [reflexivity|].
  replace (S (2 * List.length (p :: rest)))
    with (S (S (S (2 * List.length rest)))) by (cbn [List.length]; lia).
  rewrite run_S. cbn [step for_of].
  rewrite try_catch_bind, publish_post_split.
  destruct ((update env (id p) (publish_data now) ;;;
             console_log (Published (title p) (language p))) w) as [[a|e] w1].
  - cbn [fst snd]. rewrite run_S. cbn [step].
    destruct (revalidateCache env (slug p) (language p) w1) as [[a'|e] w2].
    + cbn [fst snd]. apply IH.
    + unfold caught. cbn [fst snd]. apply run_finished.
  - unfold caught. cbn [fst snd]. apply run_finished.
Qed.

Lemma run_alone env w :
  exists fuel, run env fuel Starting w = (Finished, snd (cron_callback env w)).
Proof.
  exists (S (S (2 * List.length (due_batch w)))).
  rewrite run_S.
  unfold cron_callback, sweep_body, try_catch at 1, bind at 1.
  cbn [step].
  unfold sweep_select, bind, new_Date, findMany_due, prisma, ret.
  cbn [db clock trace].
  destruct (db_fault env (FindManyDue (clock w))) as [e|].
  - unfold caught. cbn [fst snd]. apply run_finished.
  - cbn [fst snd]. unfold sweep_publish. fold (due_batch w).
    destruct (due_batch w) as [|p rest] eqn:B.
    + reflexivity.
    + replace (0 <? List.length (p :: rest))%nat with true by reflexivity.
      cbn [fst snd]. rewrite run_loop. unfold try_catch, bind, console_log, emit.
      cbn [snd db clock trace]. reflexivity.
Qed.

Lemma update_log_cases env now p w :
  (exists e,
     (update env (id p) (publish_data now) ;;;
      console_log (Published (title p) (language p))) w =
     (Thrown e, mkWorld (db w) (clock w)
                  (trace w ++ [Db (Update (id p) (publish_data now))]))) \/
  (update env (id p) (publish_data now) ;;;
   console_log (Published (title p) (language p))) w =
  (Returned tt,
   mkWorld (update_rows (id p) (publish_data now) (db w)) (clock w)
     (trace w ++ [Db (Update (id p) (publish_data now));
                  Log (Published (title p) (language p))])).
Proof.
  unfold bind, update, prisma, console_log, emit. cbn [db clock trace].
  destruct (db_fault env (Update (id p) (publish_data now))) as [e|].
  - left. exists e. reflexivity.
  - destruct (find (has_id (id p)) (db w)) as [q|].
    + right. cbn [writes_key publish_data d_slug d_language andb db clock trace].
      rewrite <- app_assoc. reflexivity.
    + left. exists (PrismaKnown "P2025"). reflexivity.
Qed.

Lemma update_rows_keys i now rows :
  map key (update_rows i (publish_data now) rows) = map key rows.
Proof.
  unfold update_rows. rewrite map_map. apply map_ext; intros q.
  destruct (has_id i q); reflexivity.
Qed.

Lemma calls_for_post_events env now n p s l :
  calls_for s l (post_events env now n p) = count_key s l [p].
Proof.
  unfold calls_for, count_key, post_events; cbn [filter is_call].
  destruct (revalidate_line_silent env (n + 3) (slug p) (language p)) as [-> _].
  unfold has_slug_language.
  destruct ((slug p =? s)%string && (language p =? l)%string); reflexivity.
Qed.

Lemma calls_for_notify_events env n p s l :
  calls_for s l [Call_revalidateCache (slug p) (language p);
                 Fetch (revalidate_request env (slug p));
                 revalidate_line env n (slug p) (language p)]
  = count_key s l [p].
Proof.
  unfold calls_for, count_key; cbn [filter is_call].
  destruct (revalidate_line_silent env n (slug p) (language p)) as [-> _].
  unfold has_slug_language.
  destruct ((slug p =? s)%string && (language p =? l)%string); reflexivity.
Qed.

(** A step keeps the (slug, language) column of the table, and what it
    adds to the notifier's invocations it takes from what the task owes. *)
Lemma step_owed env s l t w :
  unique_keys (db w) ->
  map key (db (snd (step env t w))) = map key (db w) /\
  (calls_for s l (trace (snd (step env t w))) + owed s l (fst (step env t w))
   <= calls_for s l (trace w) + owed s l t)%nat.
Proof.
  intros ND. destruct t as [|now [|p rest]|now p rest|].
  - cbn [step]. unfold sweep_select, bind, new_Date, findMany_due, prisma, ret.
    cbn [db clock trace].
    destruct (db_fault env (FindManyDue (clock w))) as [e|].
    + unfold caught, console_error, emit. cbn [fst snd db trace owed].
      split; [reflexivity|]. rewrite !calls_for_app. cbn. lia.
    + pose proof (count_key_filter s l (is_due (clock w)) (db w)) as Lf.
      pose proof (count_key_unique s l (db w) ND) as Lu.
      destruct (0 <? List.length (filter (is_due (clock w)) (db w)))%nat.
      * unfold console_log, emit. cbn [fst snd db trace owed].
        split; [reflexivity|]. rewrite !calls_for_app. cbn. lia.
      * cbn [fst snd db trace owed].
        split; [reflexivity|]. rewrite !calls_for_app. cbn. lia.
  - cbn; split; [reflexivity | lia].
  - cbn [step owed].
    destruct (update_log_cases env now p w) as [[e ->] | ->].
    + unfold caught, console_error, emit. cbn [fst snd db trace owed].
      split; [reflexivity|]. rewrite !calls_for_app. cbn. lia.
    + cbn [fst snd db trace owed]. split; [apply update_rows_keys|].
      rewrite calls_for_app. cbn. lia.
  - cbn [step owed]. rewrite revalidateCache_run. cbn [fst snd db trace owed].
    split; [reflexivity|].
    change (p :: rest) with ([p] ++ rest).
    rewrite calls_for_app, calls_for_notify_events, count_key_app. lia.
  - cbn; split; [reflexivity | lia].
Qed.

Lemma schedule_owed envA envB s l ms : forall st,
  unique_keys (db (world st)) ->
  (calls_for s l (trace (world (schedule envA envB ms st)))
   <= calls_for s l (trace (world st)) + owed s l (taskA st) + owed s l (taskB st))%nat.
Proof.
  unfold schedule.
  induction ms as [|m ms IH]; intros st ND; [cbn; lia|].
  cbn [fold_left].
  assert (Hm : unique_keys (db (world (move envA envB m st))) /\
               (calls_for s l (trace (world (move envA envB m st)))
                + owed s l (taskA (move envA envB m st))
                + owed s l (taskB (move envA envB m st))
                <= calls_for s l (trace (world st))
                   + owed s l (taskA st) + owed s l (taskB st))%nat).
  { destruct m as [| |t]; unfold move.
    - pose proof (step_owed envA s l (taskA st) (world st) ND) as [K L].
      destruct (step envA (taskA st) (world st)) as [t' w'].
      cbn [fst snd taskA taskB world] in *. split; [|lia].
      unfold unique_keys in *. now rewrite K.
    - pose proof (step_owed envB s l (taskB st) (world st) ND) as [K L].
      destruct (step envB (taskB st) (world st)) as [t' w'].
      cbn [fst snd taskA taskB world] in *. split; [|lia].
      unfold unique_keys in *. now rewrite K.
    - cbn [taskA taskB world db trace]. split; [exact ND | lia]. }
  destruct Hm as [ND' L]. specialize (IH _ ND'). lia.
Qed.

(** C5, as stated, fails.  In the overlap of [Sample6], when run B has
    finished, [gamma] is published with B's timestamp and has been notified
    once, while run A is still suspended in its notification for [alpha],
    holding [gamma] in its array.  When A has finished too, no error has
    occurred, two [update] statements have been issued for [gamma] and both
    applied (the second, A's, found the row already published and replaced
    B's timestamp by its own), and the notifier has been invoked twice for
    [gamma]. *)
Lemma overlapping_sweeps_notify_twice :
  taskA Sample6.midway = Notifying 10 Sample.alpha [Sample.gamma] /\
  taskB Sample6.midway = Finished /\
  In (publish_row 70 Sample.gamma) (db (world Sample6.midway)) /\
  calls_for "gamma" "it" (trace (world Sample6.midway)) = 1%nat /\
  taskA Sample6.outcome = Finished /\
  taskB Sample6.outcome = Finished /\
  filter is_error_line (trace (world Sample6.outcome)) = [] /\
  updates_of "id-3" (trace (world Sample6.outcome)) = 2%nat /\
  In (publish_row 10 Sample.gamma) (db (world Sample6.outcome)) /\
  calls_for "gamma" "it" (trace (world Sample6.outcome)) = 2%nat /\
  fetches_of "gamma" (trace (world Sample6.outcome)) = 2%nat.
Proof.
  repeat split; try reflexivity.
  - vm_compute. right; right; left; reflexivity.
  - vm_compute. right; right; left; reflexivity.
Qed.

(** C5, amended: the [update] of the loop is keyed by the id alone, so it
    applies to the row, and is followed by a notification, also when the
    row has already been published by an overlapping sweep.  What holds is
    that one sweep invokes the notifier at most once for a post, so that
    however two sweeps are interleaved at their suspension points the
    notifier is invoked at most twice for it. *)
Theorem overlapping_sweeps_notify_at_most_once_each :
  (forall env now p w p',
     In p' (db w) -> id p' = id p -> published p' = true ->
     db_fault env (Update (id p) (publish_data now)) = None ->
     fst (publish_post env now p w) = Returned tt /\
     In (publish_row now p') (db (snd (publish_post env now p w))) /\
     calls_for (slug p) (language p) (trace (snd (publish_post env now p w)))
     = (calls_for (slug p) (language p) (trace w) + 1)%nat) /\
  (forall env w s l,
     unique_keys (db w) ->
     (calls_for s l (trace (snd (cron_callback env w)))
      <= calls_for s l (trace w) + 1)%nat) /\
  (forall envA envB ms w s l,
     unique_keys (db w) ->
     (calls_for s l
        (trace (world (schedule envA envB ms (mkOverlap Starting Starting w))))
      <= calls_for s l (trace w) + 2)%nat).
Proof.
  split; [|split].
  - intros env now p w p' Hin Eid Hpub F.
    rewrite publish_post_ok.
    + cbn [fst snd db trace]. split; [reflexivity|]. split.
      * unfold update_rows. apply in_map_iff. exists p'. split; [|assumption].
        unfold has_id. rewrite Eid, String.eqb_refl. reflexivity.
      * rewrite calls_for_app, calls_for_post_events.
        pose proof (count_key_in p [p] (or_introl eq_refl)) as L.
        assert (U : (count_key (slug p) (language p) [p] <= 1)%nat).
        { unfold count_key; cbn [filter].
          destruct (has_slug_language _ _ p); cbn; lia. }
        lia.
    + unfold update_ok. now rewrite F.
    + rewrite <- Eid. now apply in_known.
  - intros env w s l ND.
    rewrite sweep_trace, calls_for_app, calls_for_sweep_events.
    pose proof (count_key_sweep_done env s l w).
    pose proof (count_key_unique s l (db w) ND). lia.
  - intros envA envB ms w s l ND.
    pose proof (schedule_owed envA envB s l ms (mkOverlap Starting Starting w) ND) as L.
    cbn [world taskA taskB owed] in L. lia.
Qed.

Lemma overlapping_sweeps_notify_at_most_once_each_witness :
  (calls_for "gamma" "it" (trace (world Sample6.outcome))
   <= calls_for "gamma" "it" (trace Sample.start) + 2)%nat.
Proof.
  refine (proj2 (proj2 overlapping_sweeps_notify_at_most_once_each)
            Sample.quiet Sample.quiet (Sample6.first_moves ++ Sample6.last_moves)
            Sample.start "gamma" "it" _).
  unfold unique_keys; simpl.
  repeat (constructor; [simpl; intuition discriminate|]). constructor.
Defined.

(** The body of the callback, unlike the callback, can throw. *)
Lemma sweep_body_can_throw :
  fst (sweep_body Sample2.flaky Sample.start) = Thrown PrismaUnavailable.
Proof. reflexivity. Qed.

(* ================================================================== *)
(** ** More on routes/posts.ts: create, edit, read *)
(* ================================================================== *)

Lemma truthy_str_absent o : truthy_str o = false <-> absent o.
Proof.
  unfold truthy_str, absent. destruct o as [s|].
  - destruct (String.eqb_spec s ""); cbn; split; intros H.
    + right; now subst.
    + reflexivity.
    + discriminate.
    + destruct H as [H|H]; [discriminate | congruence].
  - split; auto.
Qed.

Lemma truthy_str_present o : ~ absent o -> truthy_str o = true.
Proof.
  intros H. destruct (truthy_str o) eqn:E; [reflexivity|].
  apply truthy_str_absent in E. contradiction.
Qed.

Lemma str_or_present o d : ~ absent o -> o = Some (str_or o d).
Proof.
  unfold absent, str_or. intros H. destruct o as [s|]; [|tauto].
  destruct (String.eqb_spec s ""); [subst; tauto | reflexivity].
Qed.

(** What the create handler does with a complete body. *)
Lemma create_post_complete env b w :
  complete b ->
  create_post env b w =
  try_catch
    (post <- create env (row_of (randomUUID env (List.length (trace w))) (clock w) b) ;;
     ret (mkResponse 201 (Success post)))
    (fun error =>
       console_error (HandlerError "Error creating post:" error) ;;;
       if code_is "P2002" error
       then ret (mkResponse 409 (Failure "Post with this slug and language already exists"))
       else ret (mkResponse 500 (FailureMsg "Failed to create post" error))) w.
Proof.
  intros (H1 & H2 & H3 & H4 & H5).
  unfold create_post, try_catch.
  rewrite !truthy_str_present by assumption. cbn [negb orb].
  unfold bind at 1, new_Date. unfold bind at 1, crypto_randomUUID.
  reflexivity.
Qed.

(** X1: a create request in which one of slug, language, title, excerpt
    and content is absent or empty is answered 400 "Missing required
    fields"; nothing is sent to the database, nothing is logged and the
    table is as before. *)
Theorem create_rejects_incomplete_body
    (env : Env) (auth : option string) (b : CreateBody) (w : World) :
  authMiddleware env auth = None ->
  absent (b_slug b) \/ absent (b_language b) \/ absent (b_title b) \/
  absent (b_excerpt b) \/ absent (b_content b) ->
  POST_posts env auth b w =
  (Returned (mkResponse 400
               (FailureRequired "Missing required fields"
                  ["slug"; "language"; "title"; "excerpt"; "content"])),
   w).
Proof.
  intros Hauth H. unfold POST_posts, protected. rewrite Hauth.
  unfold create_post, try_catch.
  replace (negb (truthy_str (b_slug b)) || negb (truthy_str (b_language b))
           || negb (truthy_str (b_title b)) || negb (truthy_str (b_excerpt b))
           || negb (truthy_str (b_content b))) with true; [reflexivity|].
  symmetry.
  destruct H as [H|[H|[H|[H|H]]]]; apply truthy_str_absent in H; rewrite H;
    cbn; rewrite ?orb_true_r; reflexivity.
Qed.

Lemma create_rejects_incomplete_body_witness :
  POST_posts Sample.quiet (Some "Bearer t") Sample7.untitled Sample.start =
  (Returned (mkResponse 400
               (FailureRequired "Missing required fields"
                  ["slug"; "language"; "title"; "excerpt"; "content"])),
   Sample.start).
Proof.
  apply (create_rejects_incomplete_body Sample.quiet (Some "Bearer t")
           Sample7.untitled Sample.start).
  - reflexivity.
  - right; right; left. left. reflexivity.
Defined.

Lemma complete_dec b :
  (negb (truthy_str (b_slug b)) || negb (truthy_str (b_language b))
   || negb (truthy_str (b_title b)) || negb (truthy_str (b_excerpt b))
   || negb (truthy_str (b_content b))) = false <-> complete b.
Proof.
  unfold complete. rewrite !orb_false_iff, !negb_false_iff. split.
  - intros ((((H1 & H2) & H3) & H4) & H5).
    repeat split; intros A; apply truthy_str_absent in A; congruence.
  - intros (H1 & H2 & H3 & H4 & H5).
    repeat split; now apply truthy_str_present.
Qed.

Lemma create_run env row w :
  db_fault env (Create row) = None ->
  create env row w =
  if existsb (has_id (id row)) (db w)
     || existsb (has_slug_language (slug row) (language row)) (db w)
  then (Thrown (PrismaKnown "P2002"),
        mkWorld (db w) (clock w) (trace w ++ [Db (Create row)]))
  else (Returned row,
        mkWorld (db w ++ [row]) (clock w) (trace w ++ [Db (Create row)])).
Proof.
  intros F. unfold create, prisma. rewrite F. cbn [db clock trace].
  destruct (existsb _ _ || existsb _ _); reflexivity.
Qed.

(** The four ways a create request can end. *)
Lemma POST_posts_cases env auth b w :
  let row := row_of (randomUUID env (List.length (trace w))) (clock w) b in
  let taken := existsb (has_id (id row)) (db w)
               || existsb (has_slug_language (slug row) (language row)) (db w) in
  (exists r, authMiddleware env auth = Some r /\
             POST_posts env auth b w = (Returned r, w)) \/
  (authMiddleware env auth = None /\ ~ complete b /\
   fst (POST_posts env auth b w) =
     Returned (mkResponse 400
                 (FailureRequired "Missing required fields"
                    ["slug"; "language"; "title"; "excerpt"; "content"])) /\
   snd (POST_posts env auth b w) = w) \/
  (authMiddleware env auth = None /\ complete b /\
   (exists e, db_fault env (Create row) = Some e /\
              fst (POST_posts env auth b w) =
                Returned (if code_is "P2002" e
                          then mkResponse 409
                                 (Failure "Post with this slug and language already exists")
                          else mkResponse 500 (FailureMsg "Failed to create post" e))) /\
   db (snd (POST_posts env auth b w)) = db w) \/
  (authMiddleware env auth = None /\ complete b /\
   db_fault env (Create row) = None /\ taken = true /\
   fst (POST_posts env auth b w) =
     Returned (mkResponse 409
                 (Failure "Post with this slug and language already exists")) /\
   db (snd (POST_posts env auth b w)) = db w) \/
  (authMiddleware env auth = None /\ complete b /\
   db_fault env (Create row) = None /\ taken = false /\
   fst (POST_posts env auth b w) = Returned (mkResponse 201 (Success row)) /\
   db (snd (POST_posts env auth b w)) = db w ++ [row]).
Proof.
  intros row taken. unfold POST_posts, protected.
  destruct (authMiddleware env auth) as [r|] eqn:A.
  { left. exists r. split; reflexivity. }
  right.
  destruct (negb (truthy_str (b_slug b)) || negb (truthy_str (b_language b))
            || negb (truthy_str (b_title b)) || negb (truthy_str (b_excerpt b))
            || negb (truthy_str (b_content b))) eqn:C.
  { left. split; [reflexivity|]. split.
    - intros H. apply complete_dec in H. congruence.
    - unfold create_post, try_catch. rewrite C. split; reflexivity. }
  right. apply complete_dec in C.
  rewrite (create_post_complete env b w C). fold row.
  unfold try_catch, bind.
  destruct (db_fault env (Create row)) as [e|] eqn:F.
  - left. split; [reflexivity|]. split; [assumption|].
    unfold create, prisma. rewrite F.
    unfold console_error, emit. split.
    + exists e. split; [reflexivity|]. destruct (code_is "P2002" e); reflexivity.
    + destruct (code_is "P2002" e); reflexivity.
  - right. rewrite (create_run env row w F). fold taken.
    destruct taken eqn:T.
    + left. repeat (split; [reflexivity || assumption|]).
      unfold console_error, emit. cbn. split; reflexivity.
    + right. repeat (split; [reflexivity || assumption|]).
      cbn. split; reflexivity.
Qed.

(** X2: a complete create request whose (slug, language), or whose id, is
    that of a post of the table is answered 409, and the table is as
    before. *)
Theorem create_conflict_is_409
    (env : Env) (auth : option string) (b : CreateBody) (w : World) (q : Post) :
  authMiddleware env auth = None ->
  complete b ->
  (forall s, db_fault env s = None) ->
  In q (db w) ->
  (b_slug b = Some (slug q) /\ b_language b = Some (language q)) \/
  (b_id b = Some (id q) /\ id q <> "") ->
  fst (POST_posts env auth b w) =
    Returned (mkResponse 409 (Failure "Post with this slug and language already exists")) /\
  db (snd (POST_posts env auth b w)) = db w.
Proof.
  intros A C F Hq Hclash.
  destruct (POST_posts_cases env auth b w)
    as [(r & A' & _) | [(_ & NC & _) | [(_ & _ & (e & F' & _) & _) |
        [(_ & _ & _ & _ & R & D) | (_ & _ & _ & T & _)]]]].
  - congruence.
  - contradiction.
  - rewrite F in F'. discriminate.
  - split; assumption.
  - exfalso. apply orb_false_iff in T as [T1 T2].
    destruct C as (C1 & C2 & _).
    destruct Hclash as [[Hs Hl] | [Hi Hne]].
    + assert (X : existsb (has_slug_language
                             (str_or (b_slug b) "") (str_or (b_language b) "")) (db w) = true).
      { apply existsb_exists. exists q. split; [assumption|].
        apply has_slug_language_key.
        pose proof (str_or_present (b_slug b) "" C1) as E1.
        pose proof (str_or_present (b_language b) "" C2) as E2.
        unfold key. congruence. }
      cbn [row_of slug language] in T2. congruence.
    + assert (X : existsb (has_id (str_or (b_id b)
                                     (randomUUID env (List.length (trace w))))) (db w) = true).
      { apply existsb_exists. exists q. split; [assumption|].
        rewrite Hi. unfold str_or, has_id.
        destruct (String.eqb_spec (id q) ""); [contradiction|].
        apply String.eqb_refl. }
      cbn [row_of id] in T1. congruence.
Qed.

Lemma create_conflict_is_409_witness :
  fst (POST_posts Sample.quiet (Some "Bearer t") Sample7.clash Sample.start) =
    Returned (mkResponse 409 (Failure "Post with this slug and language already exists")) /\
  db (snd (POST_posts Sample.quiet (Some "Bearer t") Sample7.clash Sample.start))
  = db Sample.start.
Proof.
  apply (create_conflict_is_409 Sample.quiet (Some "Bearer t") Sample7.clash
           Sample.start Sample.alpha).
  - reflexivity.
  - unfold complete, absent; cbn. repeat split; intros [H|H]; discriminate H.
  - reflexivity.
  - simpl; auto.
  - left. split; reflexivity.
Defined.

Lemma find_app_none {A} (f : A -> bool) l a :
  existsb f l = false -> f a = true -> find f (l ++ [a]) = Some a.
Proof.
  induction l as [|x l IH]; cbn; intros E Fa.
  - now rewrite Fa.
  - apply orb_false_iff in E as [E1 E2]. rewrite E1. now apply IH.
Qed.

(** X3: a post that [POST /api/posts] has just created (answer 201) can be
    read back with [GET /api/posts/:slugOrId], by its slug and language if
    the slug does not look like a UUID and by its id if the id does: the
    answer carries the very post the create request returned, provided the
    post is published or the read request has a non-empty Authorization
    header; otherwise it is 404. *)
Theorem created_post_is_readable
    (env : Env) (auth : option string) (b : CreateBody) (w w' : World) (p : Post)
    (hdr : option string) :
  authMiddleware env auth = None ->
  (forall s, db_fault env s = None) ->
  POST_posts env auth b w = (Returned (mkResponse 201 (Success p)), w') ->
  let expected :=
    if published p || truthy_str hdr
    then mkResponse 200 (Success p)
    else mkResponse 404 (Failure "Post not found") in
  (isUUID (slug p) = false ->
   forall l, match l with Some l => l | None => "it" end = language p ->
   fst (get_post env (mkGet (slug p) l hdr) w') = Returned expected) /\
  (isUUID (id p) = true ->
   forall l, fst (get_post env (mkGet (id p) l hdr) w') = Returned expected).
Proof.
  intros A F Hpost expected.
  destruct (POST_posts_cases env auth b w)
    as [(r & A' & _) | [(_ & _ & R & _) | [(_ & _ & (e & F' & _) & _) |
        [(_ & _ & _ & _ & R & _) | (_ & _ & _ & T & R & D)]]]].
  - congruence.
  - rewrite Hpost in R; cbn in R; discriminate R.
  - rewrite F in F'. discriminate.
  - rewrite Hpost in R; cbn in R; discriminate R.
  - rewrite Hpost in R, D. cbn [fst snd] in R, D.
    injection R as R. apply orb_false_iff in T as [T1 T2].
    rewrite <- R in T1, T2, D.
    split.
    + intros U l Hl. unfold get_post, try_catch, bind. cbn [slugOrId lang authorization].
      rewrite U, Hl. unfold findUnique_slug_language, prisma. rewrite F.
      cbn [db clock trace]. rewrite D.
      rewrite (find_app_none _ (db w) p T2) by (now apply has_slug_language_key).
      unfold expected. destruct (published p), (truthy_str hdr); reflexivity.
    + intros U l. unfold get_post, try_catch, bind. cbn [slugOrId lang authorization].
      rewrite U. unfold findUnique_id, prisma. rewrite F.
      cbn [db clock trace]. rewrite D.
      rewrite (find_app_none _ (db w) p T1) by (apply String.eqb_refl).
      unfold expected. destruct (published p), (truthy_str hdr); reflexivity.
Qed.

Lemma created_post_is_readable_witness :
  fst (get_post Sample.quiet
         (mkGet "launch" (Some "en") None)
         (snd (POST_posts Sample.quiet (Some "Bearer t") Sample7.announcement
                 Sample.start)))
  = Returned (mkResponse 200
                (Success (row_of "0b0e7a52-5a0c-4f0e-9c57-1d2f3a4b5c6d" 10
                            Sample7.announcement))).
Proof.
  refine (proj1 (created_post_is_readable Sample.quiet (Some "Bearer t")
                   Sample7.announcement Sample.start
                   (snd (POST_posts Sample.quiet (Some "Bearer t")
                           Sample7.announcement Sample.start))
                   (row_of "0b0e7a52-5a0c-4f0e-9c57-1d2f3a4b5c6d" 10
                      Sample7.announcement)
                   None _ _ _) _ (Some "en") _).
  - reflexivity.
  - reflexivity.
  - reflexivity.
  - reflexivity.
  - reflexivity.
Defined.

(** X4: a create request, however it ends, keeps the ids and the
    (slug, language) pairs of the table unique, and either leaves the table
    as it was or appends one row to it, the one it answers with 201. *)
Theorem create_keeps_indexes_unique
    (env : Env) (auth : option string) (b : CreateBody) (w : World) :
  unique_ids (db w) ->
  unique_keys (db w) ->
  let w' := snd (POST_posts env auth b w) in
  unique_ids (db w') /\ unique_keys (db w') /\
  (db w' = db w \/
   exists p, db w' = db w ++ [p] /\
             fst (POST_posts env auth b w) = Returned (mkResponse 201 (Success p))).
Proof.
  intros NDi NDk w'. subst w'.
  destruct (POST_posts_cases env auth b w)
    as [(r & _ & E) | [(_ & _ & _ & E) | [(_ & _ & _ & D) |
        [(_ & _ & _ & _ & _ & D) | (_ & _ & _ & T & R & D)]]]].
  - rewrite E. cbn. auto.
  - rewrite E. auto.
  - rewrite D. auto.
  - rewrite D. auto.
  - rewrite D. apply orb_false_iff in T as [T1 T2].
    split; [|split; [|right; eexists; split; [reflexivity | exact R]]].
    + unfold unique_ids. rewrite map_app. cbn [map].
      apply NoDup_app; [exact NDi | repeat constructor; intros [] |].
      intros i Hi [<-|[]]. apply in_map_iff in Hi as (q & Eq & Hq).
      assert (X : existsb (has_id (id (row_of (randomUUID env (List.length (trace w)))
                                         (clock w) b))) (db w) = true).
      { apply existsb_exists. exists q. split; [assumption|]. now apply String.eqb_eq. }
      congruence.
    + unfold unique_keys. rewrite map_app. cbn [map].
      apply NoDup_app; [exact NDk | repeat constructor; intros [] |].
      intros k Hk [<-|[]]. apply in_map_iff in Hk as (q & Eq & Hq).
      set (row := row_of (randomUUID env (List.length (trace w))) (clock w) b) in *.
      assert (X : existsb (has_slug_language (slug row) (language row)) (db w) = true).
      { apply existsb_exists. exists q. split; [assumption|].
        now apply has_slug_language_key. }
      congruence.
Qed.

Lemma create_keeps_indexes_unique_witness :
  unique_ids (db (snd (POST_posts Sample.quiet (Some "Bearer t")
                         Sample7.announcement Sample.start))).
Proof.
  refine (proj1 (create_keeps_indexes_unique Sample.quiet (Some "Bearer t")
                   Sample7.announcement Sample.start _ _)).
  - unfold unique_ids; simpl.
    repeat (constructor; [simpl; intuition discriminate|]). constructor.
  - unfold unique_keys; simpl.
    repeat (constructor; [simpl; intuition discriminate|]). constructor.
Defined.

Lemma find_has_id i rows p : find (has_id i) rows = Some p -> In p rows /\ id p = i.
Proof.
  intros H. apply find_some in H as [H1 H2]. split; [assumption|].
  now apply String.eqb_eq.
Qed.

Lemma find_none_known i rows : find (has_id i) rows = None -> known i rows = false.
Proof.
  intros H. unfold known. destruct (existsb (has_id i) rows) eqn:E; [|reflexivity].
  apply existsb_exists in E as (q & Hq & Eq).
  pose proof (find_none _ _ H q Hq). congruence.
Qed.

(** The five ways an edit request can end. *)
Lemma PUT_posts_cases env auth i b w :
  let d := ub_data b in
  (exists r, authMiddleware env auth = Some r /\
             PUT_posts env auth i b w = (Returned r, w)) \/
  (authMiddleware env auth = None /\
   (exists e, db_fault env (Update i d) = Some e /\
              fst (PUT_posts env auth i b w) =
                Returned (if code_is "P2025" e
                          then mkResponse 404 (Failure "Post not found")
                          else mkResponse 500 (FailureMsg "Failed to update post" e))) /\
   db (snd (PUT_posts env auth i b w)) = db w) \/
  (authMiddleware env auth = None /\ db_fault env (Update i d) = None /\
   find (has_id i) (db w) = None /\
   fst (PUT_posts env auth i b w) = Returned (mkResponse 404 (Failure "Post not found")) /\
   db (snd (PUT_posts env auth i b w)) = db w) \/
  (exists p,
     authMiddleware env auth = None /\ db_fault env (Update i d) = None /\
     find (has_id i) (db w) = Some p /\
     (writes_key d &&
      existsb (fun q => negb (has_id i q) &&
                        has_slug_language (slug (apply_data d p))
                                          (language (apply_data d p)) q) (db w)) = true /\
     fst (PUT_posts env auth i b w) =
       Returned (mkResponse 500 (FailureMsg "Failed to update post" (PrismaKnown "P2002"))) /\
     db (snd (PUT_posts env auth i b w)) = db w) \/
  (exists p,
     authMiddleware env auth = None /\ db_fault env (Update i d) = None /\
     find (has_id i) (db w) = Some p /\
     (writes_key d &&
      existsb (fun q => negb (has_id i q) &&
                        has_slug_language (slug (apply_data d p))
                                          (language (apply_data d p)) q) (db w)) = false /\
     fst (PUT_posts env auth i b w) = Returned (mkResponse 200 (Success (apply_data d p))) /\
     db (snd (PUT_posts env auth i b w)) = update_rows i d (db w)).
Proof.
  intros d. unfold PUT_posts, protected.
  destruct (authMiddleware env auth) as [r|] eqn:A.
  { left. exists r. split; reflexivity. }
  right. unfold update_post, try_catch, bind, update, prisma. fold d.
  cbn [db clock trace].
  destruct (db_fault env (Update i d)) as [e|] eqn:F.
  { left. split; [reflexivity|]. unfold console_error, emit. split.
    - exists e. split; [reflexivity|]. destruct (code_is "P2025" e); reflexivity.
    - destruct (code_is "P2025" e); reflexivity. }
  right. destruct (find (has_id i) (db w)) as [p|] eqn:Fd.
  - right. destruct (writes_key d && existsb _ (db w)) eqn:C.
    + left. exists p. do 3 (split; [reflexivity|]). split; [exact C|].
      split; reflexivity.
    + right. exists p. do 3 (split; [reflexivity|]). split; [exact C|].
      split; reflexivity.
  - left. do 3 (split; [reflexivity|]). split; reflexivity.
Qed.

(** X5: an edit of an id that no post has is answered 404 "Post not
    found" and leaves the table as it was. *)
Theorem edit_of_unknown_id_is_404
    (env : Env) (auth : option string) (i : string) (b : UpdateBody) (w : World) :
  authMiddleware env auth = None ->
  db_fault env (Update i (ub_data b)) = None ->
  (forall q, In q (db w) -> id q <> i) ->
  fst (PUT_posts env auth i b w) = Returned (mkResponse 404 (Failure "Post not found")) /\
  db (snd (PUT_posts env auth i b w)) = db w.
Proof.
  intros A F Hno.
  destruct (PUT_posts_cases env auth i b w)
    as [(r & A' & _) | [(_ & (e & F' & _) & _) | [(_ & _ & _ & R & D) |
        [(p & _ & _ & Fd & _) | (p & _ & _ & Fd & _)]]]].
  - congruence.
  - congruence.
  - split; assumption.
  - apply find_has_id in Fd as [Hp E]. exfalso. exact (Hno p Hp E).
  - apply find_has_id in Fd as [Hp E]. exfalso. exact (Hno p Hp E).
Qed.

Lemma edit_of_unknown_id_is_404_witness :
  fst (PUT_posts Sample.quiet (Some "Bearer t") "id-9" Sample7.retitle Sample.start)
  = Returned (mkResponse 404 (Failure "Post not found")) /\
  db (snd (PUT_posts Sample.quiet (Some "Bearer t") "id-9" Sample7.retitle Sample.start))
  = db Sample.start.
Proof.
  apply (edit_of_unknown_id_is_404 Sample.quiet (Some "Bearer t") "id-9"
           Sample7.retitle Sample.start).
  - reflexivity.
  - reflexivity.
  - intros q Hq. cbn in Hq.
    repeat (destruct Hq as [<-|Hq]; [discriminate|]). contradiction.
Defined.

Lemma key_apply_data_kept d p :
  writes_key d = false -> key (apply_data d p) = key p.
Proof.
  unfold writes_key, key. destruct (d_slug d) eqn:S, (d_language d) eqn:L;
    try discriminate. intros _. cbn. now rewrite S, L.
Qed.

Lemma update_rows_absent i d rows :
  (forall q, In q rows -> id q <> i) -> update_rows i d rows = rows.
Proof.
  intros H. unfold update_rows. rewrite <- (map_id rows) at 2.
  apply map_ext_in. intros q Hq. unfold has_id.
  destruct (String.eqb_spec (id q) i) as [E|_]; [|reflexivity].
  exfalso. exact (H q Hq E).
Qed.

Lemma update_rows_unique_keys i d rows :
  unique_ids rows -> unique_keys rows ->
  (forall q q', In q rows -> In q' rows -> id q = i -> id q' <> i ->
                key q' <> key (apply_data d q)) ->
  unique_keys (update_rows i d rows).
Proof.
  unfold unique_ids, unique_keys.
  induction rows as [|x rest IH]; intros NDi NDk H; [constructor|].
  cbn [map] in NDi, NDk. inversion NDi as [|? ? Xi NDi']; subst.
  inversion NDk as [|? ? Xk NDk']; subst.
  cbn [update_rows map]. fold (update_rows i d rest). unfold has_id at 1.
  destruct (String.eqb_spec (id x) i) as [E|N].
  - assert (Hrest : forall q, In q rest -> id q <> i).
    { intros q Hq Eq. apply Xi. rewrite E, <- Eq. now apply in_map. }
    rewrite (update_rows_absent i d rest Hrest).
    constructor; [|assumption].
    intros Hin. apply in_map_iff in Hin as (q' & Eq' & Hq').
    apply (H x q'); [now left | now right | assumption | now apply Hrest | assumption].
  - constructor.
    + intros Hin. apply in_map_iff in Hin as (q' & Eq' & Hq').
      unfold update_rows in Hq'. apply in_map_iff in Hq' as (q & Eq & Hq).
      unfold has_id in Eq. destruct (String.eqb_spec (id q) i) as [Ei|Ni].
      * subst q'. apply (H q x); [now right | now left | assumption | assumption |].
        now symmetry.
      * subst q'. apply Xk. rewrite <- Eq'. now apply in_map.
    + apply IH; [assumption | assumption |].
      intros q q' Hq Hq'. apply H; now right.
Qed.

(** X7: an edit request, however it ends, keeps the ids and the
    (slug, language) pairs of the table unique. *)
Theorem edit_keeps_indexes_unique
    (env : Env) (auth : option string) (i : string) (b : UpdateBody) (w : World) :
  unique_ids (db w) ->
  unique_keys (db w) ->
  unique_ids (db (snd (PUT_posts env auth i b w))) /\
  unique_keys (db (snd (PUT_posts env auth i b w))).
Proof.
  intros NDi NDk.
  destruct (PUT_posts_cases env auth i b w)
    as [(r & _ & E) | [(_ & _ & D) | [(_ & _ & _ & _ & D) |
        [(p & _ & _ & _ & _ & _ & D) | (p & _ & _ & Fd & C & _ & D)]]]];
    try (rewrite D; split; assumption).
  - rewrite E. split; assumption.
  - rewrite D. split.
    + unfold unique_ids, update_rows. rewrite map_map.
      erewrite map_ext; [exact NDi|]. intros q. destruct (has_id i q); reflexivity.
    + apply update_rows_unique_keys; [assumption | assumption |].
      intros q q' Hq Hq' Eq Nq'.
      apply find_has_id in Fd as [Hp Ep].
      assert (q = p) by (apply (NoDup_map_inj_in id (db w)); congruence || assumption).
      subst q.
      apply andb_false_iff in C as [C|C].
      * rewrite (key_apply_data_kept _ _ C). intros E.
        assert (q' = p) by (apply (NoDup_map_inj_in key (db w)); assumption).
        subst q'. contradiction.
      * intros E.
        assert (X : existsb (fun q0 => negb (has_id i q0) &&
                       has_slug_language (slug (apply_data (ub_data b) p))
                         (language (apply_data (ub_data b) p)) q0) (db w) = true).
        { apply existsb_exists. exists q'. split; [assumption|].
          apply andb_true_iff. split.
          - unfold has_id. destruct (String.eqb_spec (id q') i); [contradiction | reflexivity].
          - now apply has_slug_language_key. }
        congruence.
Qed.

Lemma edit_keeps_indexes_unique_witness :
  unique_ids (db (snd (PUT_posts Sample.quiet (Some "Bearer t") "id-1"
                         Sample7.retitle Sample.start))) /\
  unique_keys (db (snd (PUT_posts Sample.quiet (Some "Bearer t") "id-1"
                          Sample7.retitle Sample.start))).
Proof.
  apply (edit_keeps_indexes_unique Sample.quiet (Some "Bearer t") "id-1"
           Sample7.retitle Sample.start).
  - unfold unique_ids; simpl.
    repeat (constructor; [simpl; intuition discriminate|]). constructor.
  - unfold unique_keys; simpl.
    repeat (constructor; [simpl; intuition discriminate|]). constructor.
Defined.

(** X8: an edit that would give a post the (slug, language) of another
    post of the table is answered 500 "Failed to update post" (the handler
    singles out P2025 only, not the unique-constraint error that the create
    handler turns into 409), and the table is as before. *)
Theorem edit_conflict_is_500
    (env : Env) (auth : option string) (i : string) (b : UpdateBody) (w : World)
    (p q : Post) :
  authMiddleware env auth = None ->
  db_fault env (Update i (ub_data b)) = None ->
  unique_ids (db w) ->
  In p (db w) -> id p = i ->
  In q (db w) -> id q <> i ->
  writes_key (ub_data b) = true ->
  key (apply_data (ub_data b) p) = key q ->
  fst (PUT_posts env auth i b w) =
    Returned (mkResponse 500 (FailureMsg "Failed to update post" (PrismaKnown "P2002"))) /\
  db (snd (PUT_posts env auth i b w)) = db w.
Proof.
  intros A F NDi Hp Ep Hq Nq W K.
  destruct (PUT_posts_cases env auth i b w)
    as [(r & A' & _) | [(_ & (e & F' & _) & _) | [(_ & _ & Fd & _) |
        [(p' & _ & _ & _ & _ & R & D) | (p' & _ & _ & Fd & C & _)]]]].
  - congruence.
  - congruence.
  - apply find_none_known in Fd. rewrite <- Ep, (in_known p _ Hp) in Fd. discriminate.
  - split; assumption.
  - exfalso. apply find_has_id in Fd as [Hp' Ep'].
    assert (p' = p) by (apply (NoDup_map_inj_in id (db w)); congruence || assumption).
    subst p'. rewrite W in C. cbn [andb] in C.
    assert (X : existsb (fun q0 => negb (has_id i q0) &&
                   has_slug_language (slug (apply_data (ub_data b) p))
                     (language (apply_data (ub_data b) p)) q0) (db w) = true).
    { apply existsb_exists. exists q. split; [assumption|].
      apply andb_true_iff. split.
      - unfold has_id. destruct (String.eqb_spec (id q) i); [contradiction | reflexivity].
      - apply has_slug_language_key. now symmetry. }
    congruence.
Qed.

Lemma edit_conflict_is_500_witness :
  fst (PUT_posts Sample.quiet (Some "Bearer t") "id-1" Sample7.rename_to_beta Sample.start)
  = Returned (mkResponse 500 (FailureMsg "Failed to update post" (PrismaKnown "P2002"))) /\
  db (snd (PUT_posts Sample.quiet (Some "Bearer t") "id-1" Sample7.rename_to_beta
             Sample.start))
  = db Sample.start.
Proof.
  apply (edit_conflict_is_500 Sample.quiet (Some "Bearer t") "id-1"
           Sample7.rename_to_beta Sample.start Sample.alpha Sample.beta).
  - reflexivity.
  - reflexivity.
  - unfold unique_ids; simpl.
    repeat (constructor; [simpl; intuition discriminate|]). constructor.
  - simpl; auto.
  - reflexivity.
  - simpl; auto.
  - discriminate.
  - reflexivity.
  - reflexivity.
Defined.

(** X9: a published post is served to anyone: a read request that
    designates it is answered 200 with the post, with or without an
    Authorization header. *)
Theorem published_post_is_public
    (env : Env) (w : World) (p : Post) (req : GetRequest) :
  unique_ids (db w) ->
  unique_keys (db w) ->
  (forall s, db_fault env s = None) ->
  In p (db w) ->
  published p = true ->
  addresses req p ->
  fst (get_post env req w) = Returned (mkResponse 200 (Success p)).
Proof.
  intros NDi NDk F Hp Hpub Haddr.
  unfold get_post, try_catch, bind.
  destruct Haddr as [[U E] | (U & E & L)]; rewrite U.
  - unfold findUnique_id, prisma. rewrite F, E. cbn [db clock trace].
    rewrite find_by_id by assumption. now rewrite Hpub.
  - unfold findUnique_slug_language, prisma. rewrite F, E, L. cbn [db clock trace].
    rewrite find_by_key by assumption. now rewrite Hpub.
Qed.

Lemma published_post_is_public_witness :
  fst (get_post Sample.quiet (mkGet "guida" None None) Sample8.site)
  = Returned (mkResponse 200 (Success Sample8.guide_it)).
Proof.
  apply (published_post_is_public Sample.quiet Sample8.site Sample8.guide_it
           (mkGet "guida" None None)).
  - unfold unique_ids; simpl.
    repeat (constructor; [simpl; intuition discriminate|]). constructor.
  - unfold unique_keys; simpl.
    repeat (constructor; [simpl; intuition discriminate|]). constructor.
  - reflexivity.
  - simpl; auto.
  - reflexivity.
  - right. repeat split; reflexivity.
Defined.

Lemma uuid_shaped_parameter_is_an_id_aux env w req :
  isUUID (slugOrId req) = true ->
  db_fault env (FindUniqueId (slugOrId req)) = None ->
  (forall q, In q (db w) -> id q <> slugOrId req) ->
  fst (get_post env req w) = Returned (mkResponse 404 (Failure "Post not found")).
Proof.
  intros U F Hno. unfold get_post, try_catch, bind. rewrite U.
  unfold findUnique_id, prisma. rewrite F. cbn [db clock trace].
  replace (find (has_id (slugOrId req)) (db w)) with (@None Post); [reflexivity|].
  symmetry. destruct (find (has_id (slugOrId req)) (db w)) as [q|] eqn:Fd; [|reflexivity].
  apply find_has_id in Fd as [Hq E]. exfalso. exact (Hno q Hq E).
Qed.

(** X10: a path parameter that has the shape of a UUID is only ever
    looked up as an id.  If no post has it as its id the answer is 404,
    even when a published post has it as its slug: such a post cannot be
    read by its slug. *)
Theorem uuid_shaped_parameter_is_an_id
    (env : Env) (w : World) (req : GetRequest) :
  isUUID (slugOrId req) = true ->
  db_fault env (FindUniqueId (slugOrId req)) = None ->
  (forall q, In q (db w) -> id q <> slugOrId req) ->
  fst (get_post env req w) = Returned (mkResponse 404 (Failure "Post not found")).
Proof. apply uuid_shaped_parameter_is_an_id_aux. Qed.

Lemma uuid_shaped_parameter_is_an_id_witness :
  In Sample8.odd_slug (db Sample8.site) /\
  published Sample8.odd_slug = true /\
  fst (get_post Sample.quiet
         (mkGet (slug Sample8.odd_slug) (Some "it") (Some "Bearer t")) Sample8.site)
  = Returned (mkResponse 404 (Failure "Post not found")).
Proof.
  split; [simpl; auto|]. split; [reflexivity|].
  apply (uuid_shaped_parameter_is_an_id Sample.quiet Sample8.site
           (mkGet (slug Sample8.odd_slug) (Some "it") (Some "Bearer t"))).
  - reflexivity.
  - reflexivity.
  - intros q Hq. cbn in Hq.
    repeat (destruct Hq as [<-|Hq]; [discriminate|]). contradiction.
Defined.

(** X11: reading never changes the table; and when the lookup fails the
    error is written to the console and the answer is 500 "Failed to fetch
    post" with that error. *)
Theorem read_is_harmless_and_reports_failures
    (env : Env) (w : World) (req : GetRequest) :
  db (snd (get_post env req w)) = db w /\
  forall e,
    db_fault env (if isUUID (slugOrId req)
                  then FindUniqueId (slugOrId req)
                  else FindUniqueSlugLanguage (slugOrId req)
                         match lang req with Some l => l | None => "it" end)
    = Some e ->
    fst (get_post env req w) =
      Returned (mkResponse 500 (FailureMsg "Failed to fetch post" e)) /\
    exists stmt,
      trace (snd (get_post env req w)) =
      trace w ++ [Db stmt; Err (HandlerError "Error fetching post:" e)].
Proof.
  unfold get_post, try_catch, bind.
  destruct (isUUID (slugOrId req)).
  - unfold findUnique_id, prisma.
    destruct (db_fault env (FindUniqueId (slugOrId req))) as [e|] eqn:F.
    + split; [reflexivity|]. intros e' E. injection E as <-.
      split; [reflexivity|]. eexists. unfold console_error, emit. cbn.
      rewrite <- app_assoc. reflexivity.
    + cbn [db clock trace]. split; [|discriminate].
      destruct (find _ (db w)) as [q|]; [|reflexivity].
      destruct (negb (published q) && negb (truthy_str (authorization req)));
        reflexivity.
  - unfold findUnique_slug_language, prisma.
    destruct (db_fault env _) as [e|] eqn:F.
    + split; [reflexivity|]. intros e' E. injection E as <-.
      split; [reflexivity|]. eexists. unfold console_error, emit. cbn.
      rewrite <- app_assoc. reflexivity.
    + cbn [db clock trace]. split; [|discriminate].
      destruct (find _ (db w)) as [q|]; [|reflexivity].
      destruct (negb (published q) && negb (truthy_str (authorization req)));
        reflexivity.
Qed.

Lemma read_is_harmless_and_reports_failures_witness :
  fst (get_post Sample8.down (mkGet "guida" None None) Sample8.site)
  = Returned (mkResponse 500 (FailureMsg "Failed to fetch post" PrismaUnavailable)).
Proof.
  refine (proj1 (proj2 (read_is_harmless_and_reports_failures Sample8.down
                          Sample8.site (mkGet "guida" None None))
                   PrismaUnavailable _)).
  reflexivity.
Defined.

Lemma append_empty_r (s : string) : (s ++ "")%string = s.
Proof. induction s as [|c s IH]; cbn; [reflexivity | now rewrite IH]. Qed.

Lemma hexes_spec n : forall s r,
  hexes n s = Some r <-> exists a, s = (a ++ r)%string /\ hex_group n a.
Proof.
  unfold hex_group.
  induction n as [|n IH]; intros s r; cbn [hexes].
  - split.
    + intros H. injection H as <-. exists EmptyString. repeat split.
    + intros (a & -> & L & _). destruct a; [reflexivity | discriminate L].
  - destruct s as [|c s].
    + split; [discriminate|]. intros (a & E & L & _).
      destruct a; [discriminate L | discriminate E].
    + destruct (is_hex c) eqn:Hc.
      * rewrite IH. split.
        -- intros (a & -> & L & H). exists (String c a). cbn.
           rewrite Hc, H, L. auto.
        -- intros (a & E & L & H). destruct a as [|c' a]; [discriminate L|].
           cbn in E, L, H. injection E as <- ->. injection L as L.
           apply andb_true_iff in H as [_ H]. exists a. auto.
      * split; [discriminate|]. intros (a & E & L & H).
        destruct a as [|c' a]; [discriminate L|].
        cbn in E, H. injection E as <- _. rewrite Hc in H. discriminate H.
Qed.

Lemma dash_spec s r : dash s = Some r <-> s = String "-"%char r.
Proof.
  unfold dash. destruct s as [|c s]; [split; discriminate|].
  destruct (Ascii.eqb_spec c "-"%char) as [->|N].
  - split; [intros H; injection H as ->; reflexivity
           | intros H; injection H as ->; reflexivity].
  - split.
    + intros H. exfalso.
      destruct c as [[] [] [] [] [] [] [] []]; try discriminate H. now apply N.
    + intros H. injection H as -> _. now contradiction N.
Qed.

(** X12: the test for a UUID accepts exactly the strings made of five
    groups of 8, 4, 4, 4 and 12 hexadecimal digits, in either case,
    separated by single hyphens, with nothing before or after. *)
Theorem isUUID_accepts_exactly_hyphenated_hex_groups (s : string) :
  isUUID s = true <->
  exists a b c d e,
    s = (a ++ "-" ++ b ++ "-" ++ c ++ "-" ++ d ++ "-" ++ e)%string /\
    hex_group 8 a /\ hex_group 4 b /\ hex_group 4 c /\ hex_group 4 d /\
    hex_group 12 e.
Proof.
  unfold isUUID, andThen. split.
  - destruct (hexes 8 s) as [s1|] eqn:H1; [|discriminate].
    destruct (dash s1) as [s2|] eqn:D1; [|discriminate].
    destruct (hexes 4 s2) as [s3|] eqn:H2; [|discriminate].
    destruct (dash s3) as [s4|] eqn:D2; [|discriminate].
    destruct (hexes 4 s4) as [s5|] eqn:H3; [|discriminate].
    destruct (dash s5) as [s6|] eqn:D3; [|discriminate].
    destruct (hexes 4 s6) as [s7|] eqn:H4; [|discriminate].
    destruct (dash s7) as [s8|] eqn:D4; [|discriminate].
    destruct (hexes 12 s8) as [[|? ?]|] eqn:H5; try discriminate.
    intros _.
    apply hexes_spec in H1 as (a & -> & Ga). apply dash_spec in D1 as ->.
    apply hexes_spec in H2 as (b & -> & Gb). apply dash_spec in D2 as ->.
    apply hexes_spec in H3 as (c & -> & Gc). apply dash_spec in D3 as ->.
    apply hexes_spec in H4 as (d & -> & Gd). apply dash_spec in D4 as ->.
    apply hexes_spec in H5 as (e & -> & Ge).
    exists a, b, c, d, e.
    split; [| exact (conj Ga (conj Gb (conj Gc (conj Gd Ge))))].
    cbn [append]. now rewrite append_empty_r.
  - intros (a & b & c & d & e & -> & Ga & Gb & Gc & Gd & Ge).
    assert (Hh : forall n x r, hex_group n x -> hexes n (x ++ r) = Some r).
    { intros n x r G. apply hexes_spec. exists x. auto. }
    rewrite (Hh 8%nat a) by assumption. cbn [append dash].
    rewrite (Hh 4%nat b) by assumption. cbn [append dash].
    rewrite (Hh 4%nat c) by assumption. cbn [append dash].
    rewrite (Hh 4%nat d) by assumption. cbn [append dash].
    rewrite <- (append_empty_r e) at 1.
    rewrite (Hh 12%nat e) by assumption. reflexivity.
Qed.

(* ================================================================== *)
(** ** More on routes/posts.ts: deletion, list views, translations *)
(* ================================================================== *)

Lemma insert_by_perm {A} (le : A -> A -> bool) x l :
  Permutation (insert_by le x l) (x :: l).
Proof.
  induction l as [|y l IH]; cbn; [reflexivity|].
  destruct (le x y); [reflexivity|].
  rewrite IH. apply perm_swap.
Qed.

Lemma sort_by_perm {A} (le : A -> A -> bool) l : Permutation (sort_by le l) l.
Proof.
  induction l as [|x l IH]; cbn; [reflexivity|].
  rewrite insert_by_perm. now constructor.
Qed.

Lemma insert_by_sorted {A} (le : A -> A -> bool) x l :
  (forall a b, le a b = false -> le b a = true) ->
  (forall a b c, le a b = true -> le b c = true -> le a c = true) ->
  StronglySorted (fun a b => le a b = true) l ->
  StronglySorted (fun a b => le a b = true) (insert_by le x l).
Proof.
  intros Tot Tr. induction l as [|y l IH]; intros S; cbn.
  - repeat constructor.
  - inversion S as [|? ? S' Hy]; subst. destruct (le x y) eqn:E.
    + constructor; [assumption|]. constructor; [assumption|].
      eapply Forall_impl; [|exact Hy]. intros z Hz. eapply Tr; eassumption.
    + constructor; [now apply IH|].
      eapply Permutation_Forall; [symmetry; apply insert_by_perm|].
      constructor; [now apply Tot | assumption].
Qed.

Lemma sort_by_sorted {A} (le : A -> A -> bool) l :
  (forall a b, le a b = false -> le b a = true) ->
  (forall a b c, le a b = true -> le b c = true -> le a c = true) ->
  StronglySorted (fun a b => le a b = true) (sort_by le l).
Proof.
  intros Tot Tr. induction l as [|x l IH]; cbn; [constructor|].
  now apply insert_by_sorted.
Qed.

Lemma StronglySorted_weaken {A} (R S : A -> A -> Prop) l :
  (forall a b, R a b -> S a b) -> StronglySorted R l -> StronglySorted S l.
Proof.
  intros H. induction 1 as [|a l _ IH Ha]; constructor; [assumption|].
  eapply Forall_impl; [|exact Ha]. intros b. apply H.
Qed.


Lemma guarded_passes {A} env auth (h : M A) w :
  authMiddleware env auth = None ->
  guarded env auth h w =
  match h w with
  | (Returned a, w') => (Returned (inr a), w')
  | (Thrown e, w') => (Thrown e, w')
  end.
Proof. intros H. unfold guarded. rewrite H. reflexivity. Qed.

Lemma delete_rows_in i rows q : In q (delete_rows i rows) <-> In q rows /\ id q <> i.
Proof.
  unfold delete_rows. rewrite filter_In. unfold has_id.
  destruct (String.eqb_spec (id q) i); cbn; intuition congruence.
Qed.



Lemma delete_unknown env auth i w :
  authMiddleware env auth = None ->
  (forall q, In q (db w) -> id q <> i) ->
  DELETE_posts env auth None i w =
  (Returned (inr (mkAnswer 404 (Refusal "Post not found" None))),
   mkWorld (db w) (clock w)
     (trace w ++ [Err (HandlerError "Error deleting post:" (PrismaKnown "P2025"))])).
Proof.
  intros A Hno. unfold DELETE_posts. rewrite guarded_passes by assumption.
  unfold delete_post, try_catch, bind, delete, statement.
  replace (find (has_id i) (db w)) with (@None Post); [reflexivity|].
  symmetry. destruct (find (has_id i) (db w)) as [q|] eqn:Fd; [|reflexivity].
  apply find_has_id in Fd as [Hq E]. exfalso. exact (Hno q Hq E).
Qed.

(** X14: deleting an id that no post has is answered 404 "Post not found"
    and changes nothing; so deleting the same post a second time is 404.
    When the statement fails for another reason the answer is 500 "Failed
    to delete post" and the table is as before. *)
Theorem delete_of_unknown_id_is_404
    (env : Env) (auth : option string) (i : string) (w : World) :
  authMiddleware env auth = None ->
  ((forall q, In q (db w) -> id q <> i) ->
   fst (DELETE_posts env auth None i w)
   = Returned (inr (mkAnswer 404 (Refusal "Post not found" None))) /\
   db (snd (DELETE_posts env auth None i w)) = db w) /\
  fst (DELETE_posts env auth None i (snd (DELETE_posts env auth None i w)))
  = Returned (inr (mkAnswer 404 (Refusal "Post not found" None))) /\
  (forall e, code_is "P2025" e = false ->
     fst (DELETE_posts env auth (Some e) i w)
     = Returned (inr (mkAnswer 500 (Refusal "Failed to delete post" (Some e)))) /\
     db (snd (DELETE_posts env auth (Some e) i w)) = db w).
Proof.
  intros A. split; [|split].
  - intros Hno. rewrite delete_unknown by assumption. split; reflexivity.
  - rewrite (delete_unknown env auth i (snd (DELETE_posts env auth None i w)));
      [reflexivity | assumption |].
    intros q Hq. unfold DELETE_posts in Hq. rewrite guarded_passes in Hq by assumption.
    unfold delete_post, try_catch, bind, delete, statement in Hq.
    destruct (find (has_id i) (db w)) as [p|] eqn:Fd; cbn in Hq.
    + apply delete_rows_in in Hq. tauto.
    + intros E. apply find_none_known in Fd.
      rewrite <- E, (in_known q _ Hq) in Fd. discriminate.
  - intros e He. unfold DELETE_posts. rewrite guarded_passes by assumption.
    unfold delete_post, try_catch, bind, delete, statement, console_error, emit.
    rewrite He. split; reflexivity.
Qed.

Lemma delete_of_unknown_id_is_404_witness :
  fst (DELETE_posts Sample.quiet (Some "Bearer t") None "id-1"
         (snd (DELETE_posts Sample.quiet (Some "Bearer t") None "id-1" Sample.start)))
  = Returned (inr (mkAnswer 404 (Refusal "Post not found" None))).
Proof.
  refine (proj1 (proj2 (delete_of_unknown_id_is_404 Sample.quiet (Some "Bearer t")
                          "id-1" Sample.start _))).
  reflexivity.
Defined.

Section ListFacts.

Variable trim : string -> string.
Variable contains_insensitive : string -> string -> bool.
Variable has_some : list string -> Post -> bool.

(** X15: the three values [true], [false] and [scheduled] of the
    [published] parameter split what [all] lists: with the other parameters
    fixed, a post is listed under [all] exactly when it is listed under one
    of the three, and it is never listed under two of them.  Drafts
    ([false]) therefore never include a scheduled post. *)
Theorem published_parameter_partitions_the_list
    (lang search tags : option string) (p : Post) :
  let under v :=
    satisfies contains_insensitive has_some
              (where_of trim (only_published lang v search tags)) p in
  under "all" = under "true" || under "false" || under "scheduled" /\
  under "true" && under "false" = false /\
  under "true" && under "scheduled" = false /\
  under "false" && under "scheduled" = false.
Proof.
  intros under. subst under. unfold satisfies, where_of, only_published.
  cbn [q_lang q_published q_search q_tags w_language w_published w_scheduledAt
       w_OR w_tags String.eqb Ascii.eqb Bool.eqb andb].
  destruct (match (if (match lang with Some l => l | None => "it" end =? "all")%string
                   then None else Some match lang with Some l => l | None => "it" end)
            with Some l => (language p =? l)%string | None => true end);
    cbn [andb orb]; [|repeat split; reflexivity].
  destruct (match match search with
                  | Some s => if nonempty s && nonempty (trim s) then Some (trim s) else None
                  | None => None end
            with Some term => contains_insensitive term (title p)
                              || contains_insensitive term (excerpt p)
            | None => true end);
    [|destruct (published p), (scheduledAt p); repeat split; reflexivity].
  destruct (match match tags with
                  | Some t =>
                      if nonempty t && nonempty (trim t)
                      then if (0 <? List.length (filter nonempty (map trim (split_comma t))))%nat
                           then Some (filter nonempty (map trim (split_comma t))) else None
                      else None
                  | None => None end
            with Some ts => has_some ts p | None => true end);
    destruct (published p), (scheduledAt p); repeat split; reflexivity.
Qed.

(** X16: a value of the [published] parameter other than [true],
    [false], [all] and [scheduled] lists every unpublished post that passes
    the other filters, scheduled ones included: what [false] and
    [scheduled] list together. *)
Theorem unrecognised_published_value_lists_all_unpublished
    (lang search tags : option string) (v : string) (p : Post) :
  v <> "true" -> v <> "false" -> v <> "all" -> v <> "scheduled" ->
  let under v :=
    satisfies contains_insensitive has_some
              (where_of trim (only_published lang v search tags)) p in
  under v = under "false" || under "scheduled".
Proof.
  intros N1 N2 N3 N4 under. subst under. unfold satisfies, where_of, only_published.
  cbn [q_lang q_published q_search q_tags w_language w_published w_scheduledAt
       w_OR w_tags].
  apply String.eqb_neq in N1, N2, N3, N4. rewrite N1, N2, N3, N4.
  cbn [String.eqb Ascii.eqb Bool.eqb andb].
  destruct (match (if (match lang with Some l => l | None => "it" end =? "all")%string
                   then None else Some match lang with Some l => l | None => "it" end)
            with Some l => (language p =? l)%string | None => true end);
    cbn [andb orb]; [|reflexivity].
  destruct (match match search with
                  | Some s => if nonempty s && nonempty (trim s) then Some (trim s) else None
                  | None => None end
            with Some term => contains_insensitive term (title p)
                              || contains_insensitive term (excerpt p)
            | None => true end);
    [|destruct (published p), (scheduledAt p); reflexivity].
  destruct (match match tags with
                  | Some t =>
                      if nonempty t && nonempty (trim t)
                      then if (0 <? List.length (filter nonempty (map trim (split_comma t))))%nat
                           then Some (filter nonempty (map trim (split_comma t))) else None
                      else None
                  | None => None end
            with Some ts => has_some ts p | None => true end);
    destruct (published p), (scheduledAt p); reflexivity.
Qed.

(** X17: when its query succeeds, [GET /api/posts] answers 200 with the
    summaries of exactly the posts that satisfy the where clause, each
    once, newest first by [createdAt], and with [count] equal to their
    number; it never changes the table. *)
Theorem list_is_the_filtered_table_newest_first (q : ListQuery) (w : World) :
  exists posts : list Post,
    list_posts trim contains_insensitive has_some None q w
    = (Returned (mkAnswer 200 (Data (Some (List.length posts)) (map summary posts))), w) /\
    Permutation posts
      (filter (satisfies contains_insensitive has_some (where_of trim q)) (db w)) /\
    StronglySorted (fun a b => createdAt b <= createdAt a) posts.
Proof.
  exists (sort_by newer_first
            (filter (satisfies contains_insensitive has_some (where_of trim q)) (db w))).
  split; [|split].
  - unfold list_posts, try_catch, bind, statement, ret.
    rewrite length_map. destruct w; reflexivity.
  - apply sort_by_perm.
  - eapply StronglySorted_weaken; [|apply sort_by_sorted].
    + intros a b H. unfold newer_first in H. now apply Z.leb_le.
    + intros a b H. unfold newer_first in *. apply Z.leb_gt in H. apply Z.leb_le. lia.
    + intros a b c H1 H2. unfold newer_first in *.
      apply Z.leb_le in H1, H2. apply Z.leb_le. lia.
Qed.

End ListFacts.

Lemma unrecognised_published_value_lists_all_unpublished_witness :
  satisfies Sample9.same_text Sample9.any_tag
    (where_of Sample9.no_trim (only_published (Some "all") "draft" None None))
    Sample.alpha
  = satisfies Sample9.same_text Sample9.any_tag
      (where_of Sample9.no_trim (only_published (Some "all") "false" None None))
      Sample.alpha
    || satisfies Sample9.same_text Sample9.any_tag
         (where_of Sample9.no_trim (only_published (Some "all") "scheduled" None None))
         Sample.alpha.
Proof.
  apply (unrecognised_published_value_lists_all_unpublished Sample9.no_trim
           Sample9.same_text Sample9.any_tag (Some "all") None None "draft"
           Sample.alpha); discriminate.
Defined.

Lemma scheduled_list_run w :
  scheduled_list None w =
  (Returned (mkAnswer 200
               (Data (Some (List.length (filter is_scheduled (db w))))
                     (map upcoming (sort_by sooner_first (filter is_scheduled (db w)))))),
   w).
Proof.
  unfold scheduled_list, try_catch, bind, statement, ret.
  rewrite length_map, (Permutation_length (sort_by_perm _ _)).
  destruct w; reflexivity.
Qed.

Lemma filter_split {A} (f : A -> bool) l :
  Permutation l (filter f l ++ filter (fun a => negb (f a)) l).
Proof.
  induction l as [|a l IH]; cbn; [constructor|].
  destruct (f a); cbn [negb app].
  - now constructor.
  - now apply Permutation_cons_app.
Qed.

(** X18: the scheduled list and the sweep agree.  When its query
    succeeds, [GET /api/posts/scheduled/list] splits the table in two: the
    posts it lists are unpublished and have a [scheduledAt], every other
    post is published or has none; the listed posts come in ascending order
    of [scheduledAt], and [count] is their number.  The posts that a sweep
    selects are exactly the listed ones whose time has come; and after a
    sweep in which no database statement fails every post still listed is
    scheduled strictly after that sweep's time. *)
Theorem scheduled_list_agrees_with_the_sweep (env : Env) (w : World) :
  (exists posts others : list Post,
     scheduled_list None w
     = (Returned (mkAnswer 200 (Data (Some (List.length posts)) (map upcoming posts))), w) /\
     Permutation (db w) (posts ++ others) /\
     (forall p, In p posts -> published p = false /\ exists t, scheduledAt p = Some t) /\
     (forall p, In p others -> published p = true \/ scheduledAt p = None) /\
     StronglySorted
       (fun a b => forall ta tb,
          scheduledAt a = Some ta -> scheduledAt b = Some tb -> ta <= tb) posts /\
     Permutation posts (filter is_scheduled (db w))) /\
  (forall p,
     In p (due_batch w) <->
     In p (filter is_scheduled (db w)) /\
     exists t, scheduledAt p = Some t /\ t <= clock w) /\
  ((forall s, db_fault env s = None) ->
   forall p, In p (filter is_scheduled (db (snd (cron_callback env w)))) ->
             exists t, scheduledAt p = Some t /\ clock w < t).
Proof.
  split; [|split].
  - exists (sort_by sooner_first (filter is_scheduled (db w))),
           (filter (fun p => negb (is_scheduled p)) (db w)).
    split; [|split; [|split; [|split; [|split]]]].
    + rewrite scheduled_list_run, (Permutation_length (sort_by_perm _ _)). reflexivity.
    + rewrite sort_by_perm. apply filter_split.
    + intros p Hp. apply (Permutation_in _ (sort_by_perm _ _)) in Hp.
      apply filter_In in Hp as [_ Hp]. unfold is_scheduled in Hp.
      apply andb_true_iff in Hp as [H1 H2]. split; [now apply negb_true_iff in H1|].
      destruct (scheduledAt p) as [t|]; [now exists t | discriminate].
    + intros p Hp. apply filter_In in Hp as [_ Hp]. unfold is_scheduled in Hp.
      destruct (published p); [now left|]. right.
      destruct (scheduledAt p); [discriminate | reflexivity].
    + eapply StronglySorted_weaken; [|apply sort_by_sorted].
      * intros a b H ta tb Ea Eb. unfold sooner_first in H. rewrite Ea, Eb in H.
        now apply Z.leb_le.
      * intros a b. unfold sooner_first.
        destruct (scheduledAt a), (scheduledAt b); try reflexivity; try discriminate.
        intros H. apply Z.leb_gt in H. apply Z.leb_le. lia.
      * intros a b c. unfold sooner_first.
        destruct (scheduledAt a), (scheduledAt b), (scheduledAt c);
          try reflexivity; try discriminate.
        intros H1 H2. apply Z.leb_le in H1, H2. apply Z.leb_le. lia.
    + apply sort_by_perm.
  - intros p. unfold due_batch. rewrite !filter_In. unfold is_due, is_scheduled.
    destruct (published p), (scheduledAt p) as [t|]; cbn; split.
    + intros [_ H]; discriminate.
    + intros [[_ H] _]; discriminate.
    + intros [_ H]; discriminate.
    + intros [[_ H] _]; discriminate.
    + intros [H L]. apply Z.leb_le in L. split; [auto|]. exists t. auto.
    + intros [[H _] (t' & E & L)]. injection E as <-. split; [assumption|].
      now apply Z.leb_le.
    + intros [_ H]; discriminate.
    + intros [[_ H] _]; discriminate.
  - intros F p Hp. apply filter_In in Hp as [Hp S].
    rewrite sweep_db in Hp. apply in_map_iff in Hp as (q & <- & Hq).
    unfold sweep_row in *. rewrite sweep_done_no_fault in * by assumption.
    destruct (known (id q) (due_batch w)) eqn:K; [discriminate S|].
    unfold is_scheduled in S. apply andb_true_iff in S as [S1 S2].
    destruct (scheduledAt q) as [t|] eqn:E; [|discriminate]. exists t. split; [reflexivity|].
    destruct (Z.le_gt_cases t (clock w)) as [L|G]; [|lia].
    exfalso. assert (D : In q (due_batch w)).
    { apply filter_In. split; [assumption|]. unfold is_due. rewrite E.
      apply negb_true_iff in S1. rewrite S1. now apply Z.leb_le. }
    rewrite (in_known q _ D) in K. discriminate.
Qed.

Lemma scheduled_list_agrees_with_the_sweep_witness :
  (exists posts others : list Post,
     scheduled_list None Sample.start
     = (Returned (mkAnswer 200 (Data (Some (List.length posts)) (map upcoming posts))),
        Sample.start) /\
     Permutation [Sample.alpha; Sample.beta; Sample.gamma; Sample.draft]
                 (posts ++ others) /\
     (forall p, In p posts -> published p = false /\ exists t, scheduledAt p = Some t) /\
     (forall p, In p others -> published p = true \/ scheduledAt p = None) /\
     StronglySorted
       (fun a b => forall ta tb,
          scheduledAt a = Some ta -> scheduledAt b = Some tb -> ta <= tb) posts) /\
  (exists t, scheduledAt Sample.beta = Some t /\ clock Sample.start < t).
Proof.
  destruct (scheduled_list_agrees_with_the_sweep Sample.quiet Sample.start)
    as ((posts & others & R & P & L & O & S & _) & _ & After).
  split.
  - exists posts, others. exact (conj R (conj P (conj L (conj O S)))).
  - apply After; [reflexivity|]. vm_compute. left. reflexivity.
Defined.

Lemma member_set_same {V} k (v : V) o : member k (set_member k v o) = Some v.
Proof.
  induction o as [|[k' v'] o IH]; cbn; [now rewrite String.eqb_refl|].
  destruct (String.eqb_spec k' k) as [->|N]; cbn.
  - now rewrite String.eqb_refl.
  - destruct (String.eqb_spec k' k); [contradiction | assumption].
Qed.

Lemma member_set_other {V} k k' (v : V) o :
  k' <> k -> member k' (set_member k v o) = member k' o.
Proof.
  intros N. induction o as [|[k0 v0] o IH]; cbn.
  - destruct (String.eqb_spec k k'); [congruence | reflexivity].
  - destruct (String.eqb_spec k0 k) as [->|N0]; cbn.
    + destruct (String.eqb_spec k k'); [congruence | reflexivity].
    + destruct (String.eqb_spec k0 k'); [reflexivity | assumption].
Qed.

Lemma member_assign_same {V} k (v : V) o :
  k <> "__proto__" -> member k (assign k v o) = Some v.
Proof.
  intros N. unfold assign.
  destruct (String.eqb_spec k "__proto__"); [contradiction|]. apply member_set_same.
Qed.

Lemma member_assign_other {V} k k' (v : V) o :
  k' <> k -> member k' (assign k v o) = member k' o.
Proof.
  intros N. unfold assign.
  destruct (k =? "__proto__")%string; [reflexivity|]. now apply member_set_other.
Qed.

Lemma member_assign_proto {V} k (v : V) o :
  member "__proto__" (assign k v o) = member "__proto__" o.
Proof.
  unfold assign. destruct (String.eqb_spec k "__proto__") as [E|N]; [reflexivity|].
  apply member_set_other. congruence.
Qed.

(** An object filled from a list: what its members are. *)
Lemma member_fold_assign {X V} (kf : X -> string) (vf : X -> V) (xs : list X) :
  forall o l v,
  member l (fold_left (fun o x => assign (kf x) (vf x) o) xs o) = Some v ->
  (exists x, In x xs /\ kf x = l /\ vf x = v) \/ member l o = Some v.
Proof.
  induction xs as [|x xs IH]; intros o l v H; cbn in H; [now right|].
  apply IH in H as [(x' & Hx' & E)|H].
  - left. exists x'. split; [now right | assumption].
  - destruct (String.eqb_spec l (kf x)) as [->|N].
    + destruct (String.eqb_spec (kf x) "__proto__") as [P|P].
      * right. unfold assign in H. rewrite P in *. exact H.
      * rewrite member_assign_same in H by assumption. injection H as <-.
        left. exists x. split; [now left | auto].
    + rewrite member_assign_other in H by assumption. now right.
Qed.

Lemma member_fold_assign_proto {X V} (kf : X -> string) (vf : X -> V) (xs : list X) :
  forall o,
  member "__proto__" (fold_left (fun o x => assign (kf x) (vf x) o) xs o)
  = member "__proto__" o.
Proof.
  induction xs as [|x xs IH]; intros o; cbn; [reflexivity|].
  rewrite IH. apply member_assign_proto.
Qed.

Lemma member_fold_assign_unique {X V} (kf : X -> string) (vf : X -> V) (xs : list X) k :
  k <> "__proto__" -> NoDup (map kf xs) ->
  forall o,
  member k (fold_left (fun o x => assign (kf x) (vf x) o) xs o)
  = match find (fun x => (kf x =? k)%string) xs with
    | Some x => Some (vf x)
    | None => member k o
    end.
Proof.
  intros P. induction xs as [|x xs IH]; intros U o; [reflexivity|].
  cbn [map] in U. apply NoDup_cons_iff in U as [U1 U2].
  cbn [fold_left find]. rewrite (IH U2).
  destruct (String.eqb_spec (kf x) k) as [E|N].
  - replace (find (fun x0 => (kf x0 =? k)%string) xs) with (@None X).
    + rewrite E. now apply member_assign_same.
    + symmetry. destruct (find _ xs) as [y|] eqn:F; [|reflexivity].
      apply find_some in F as [Hy Ey]. apply String.eqb_eq in Ey.
      exfalso. apply U1. rewrite E, <- Ey. now apply in_map.
  - destruct (find _ xs); [reflexivity|]. apply member_assign_other. congruence.
Qed.

Lemma translation_map_sound ts : forall m l s,
  member l (fold_left (fun m t => assign (language t) (slug t) m) ts m) = Some s ->
  (exists t, In t ts /\ language t = l /\ slug t = s) \/ member l m = Some s.
Proof.
  exact (member_fold_assign language slug ts).
Qed.

Lemma translation_map_complete ts : forall m l,
  l <> "__proto__" ->
  (exists t, In t ts /\ language t = l) \/ member l m <> None ->
  member l (fold_left (fun m t => assign (language t) (slug t) m) ts m) <> None.
Proof.
  induction ts as [|t ts IH]; intros m l P H; cbn.
  - destruct H as [(t & [] & _)|H]; assumption.
  - apply IH; [assumption|]. destruct H as [(t' & [<-|Ht'] & E)|H].
    + right. subst l. rewrite member_assign_same by assumption. discriminate.
    + left. exists t'. auto.
    + right. destruct (String.eqb_spec l (language t)) as [->|N].
      * rewrite member_assign_same by assumption. discriminate.
      * now rewrite member_assign_other.
Qed.

Lemma translations_cases (w : World) (req : TranslationsRequest) :
  let lang := match t_lang req with Some l => l | None => "it" end in
  match find (has_slug_language (t_slug req) lang) (db w) with
  | None =>
      fst (translations None None req w)
      = Returned (mkAnswer 404 (Refusal "Post not found" None))
  | Some post =>
      match translationGroup post with
      | None => fst (translations None None req w) = Returned (mkAnswer 200 (Data None []))
      | Some g =>
          g = "" /\
          fst (translations None None req w) = Returned (mkAnswer 200 (Data None []))
          \/
          g <> "" /\
          exists m,
            fst (translations None None req w) = Returned (mkAnswer 200 (Data None m)) /\
            (forall l s, member l m = Some s ->
               exists t, In t (db w) /\ published t = true /\
                         translationGroup t = Some g /\
                         language t = l /\ slug t = s) /\
            (forall t, In t (db w) -> published t = true ->
                       translationGroup t = Some g ->
                       language t <> "__proto__" ->
                       member (language t) m <> None) /\
            member "__proto__" m = None
      end
  end.
Proof.
  intros lang. unfold translations, try_catch, bind, statement. fold lang.
  destruct (find (has_slug_language (t_slug req) lang) (db w)) as [post|]; [|reflexivity].
  cbn [db clock trace]. unfold truthy_str, str_or.
  destruct (translationGroup post) as [g|]; [|reflexivity].
  destruct (String.eqb_spec g "") as [->|N]; [left; split; reflexivity|].
  right. split; [assumption|]. cbn [negb db clock trace].
  exists (translation_map (filter (in_group g) (db w))).
  split; [reflexivity|]. split; [|split].
  - intros l s H. apply translation_map_sound in H as [(t & Ht & E1 & E2)|H];
      [|discriminate H].
    apply filter_In in Ht as [Ht G]. unfold in_group in G.
    apply andb_true_iff in G as [G P].
    destruct (translationGroup t) as [g'|] eqn:TG; [|discriminate].
    apply String.eqb_eq in G. subst g'. exists t. auto.
  - intros t Ht P TG L. apply translation_map_complete; [assumption|]. left. exists t.
    split; [|reflexivity]. apply filter_In. split; [assumption|].
    unfold in_group. rewrite TG, P, String.eqb_refl. reflexivity.
  - unfold translation_map. exact (member_fold_assign_proto language slug _ []).
Qed.

(** X19: the translations of a post are the published posts of its
    translation group, and nothing else.  For a post of the table that has
    a translation group, the answer is 200 with an object in which every
    member [language: slug] is the language and slug of a published post of
    that group, and every published post of the group has its language as a
    member, unless that language is [__proto__], which is never a member;
    an unpublished translation never appears.  A post without a group gets
    the empty object, and an unknown (slug, language) gets 404. *)
Theorem translations_are_the_published_posts_of_the_group
    (w : World) (req : TranslationsRequest) :
  let found :=
    find (has_slug_language (t_slug req)
            match t_lang req with Some l => l | None => "it" end) (db w) in
  (found = None ->
   fst (translations None None req w)
   = Returned (mkAnswer 404 (Refusal "Post not found" None))) /\
  (forall post, found = Some post -> absent (translationGroup post) ->
   fst (translations None None req w) = Returned (mkAnswer 200 (Data None []))) /\
  (forall post g,
     found = Some post -> translationGroup post = Some g -> g <> "" ->
     exists m,
       fst (translations None None req w) = Returned (mkAnswer 200 (Data None m)) /\
       (forall l s, member l m = Some s ->
          exists t, In t (db w) /\ published t = true /\
                    translationGroup t = Some g /\
                    language t = l /\ slug t = s) /\
       (forall t, In t (db w) -> published t = true ->
                  translationGroup t = Some g ->
                  language t <> "__proto__" ->
                  member (language t) m <> None) /\
       member "__proto__" m = None).
Proof.
  intros found. subst found. pose proof (translations_cases w req) as H. cbn zeta in H.
  destruct (find _ (db w)) as [post|].
  - split; [discriminate|]. split.
    + intros post' E A. injection E as <-.
      destruct (translationGroup post) as [g|]; [|assumption].
      destruct A as [A|A]; [discriminate|]. injection A as ->.
      destruct H as [[_ H]|[N _]]; [assumption | now contradiction N].
    + intros post' g E G N. injection E as <-. rewrite G in H.
      destruct H as [[E _]|[_ H]]; [contradiction | assumption].
  - split; [intros _; assumption|]. split; intros; discriminate.
Qed.

Lemma translations_are_the_published_posts_of_the_group_witness :
  exists m,
    fst (translations None None (mkTranslations "guida" None) Sample8.site)
    = Returned (mkAnswer 200 (Data None m)) /\
    (forall l s, member l m = Some s ->
       exists t, In t (db Sample8.site) /\ published t = true /\
                 translationGroup t = Some "g-guide" /\
                 language t = l /\ slug t = s) /\
    (forall t, In t (db Sample8.site) -> published t = true ->
               translationGroup t = Some "g-guide" ->
               language t <> "__proto__" ->
               member (language t) m <> None) /\
    member "__proto__" m = None.
Proof.
  refine (proj2 (proj2 (translations_are_the_published_posts_of_the_group
                          Sample8.site (mkTranslations "guida" None)))
            Sample8.guide_it "g-guide" _ _ _).
  - reflexivity.
  - reflexivity.
  - discriminate.
Defined.

Lemma apply_object_stripped b p :
  apply_object (delete_createdAt (delete_id b)) p = apply_data (ub_data b) p.
Proof. reflexivity. Qed.

Lemma guarded_db {A} env auth (h : M A) w :
  db (snd (guarded env auth h w))
  = match authMiddleware env auth with
    | Some _ => db w
    | None => db (snd (h w))
    end.
Proof.
  unfold guarded. destruct (authMiddleware env auth); [reflexivity|].
  unfold bind, ret. destruct (h w) as [[a|e] w1]; reflexivity.
Qed.

Lemma guarded_answer {A} env auth (h : M A) w a :
  fst (guarded env auth h w) = Returned (inr a) ->
  authMiddleware env auth = None /\ fst (h w) = Returned a.
Proof.
  unfold guarded. destruct (authMiddleware env auth); [discriminate|].
  unfold bind, ret. destruct (h w) as [[a'|e] w1]; cbn; [|discriminate].
  intros H. injection H as ->. split; reflexivity.
Qed.

(** The table that an edit leaves, for both descriptions of the handler. *)
Lemma edit_post_db (fault : option Error) (i : string) (b : UpdateBody) (w : World) :
  db (snd (edit_post fault i b w))
  = match fault, find (has_id i) (db w) with
    | None, Some p =>
        if writes_key (ub_data b) &&
           existsb (fun q => negb (has_id i q) &&
                             has_slug_language (slug (apply_data (ub_data b) p))
                                               (language (apply_data (ub_data b) p)) q)
                   (db w)
        then db w
        else update_rows i (ub_data b) (db w)
    | _, _ => db w
    end.
Proof.
  unfold edit_post, try_catch, bind, update_object, statement.
  destruct fault as [e|].
  { unfold console_error, emit. cbn. destruct (code_is "P2025" e); reflexivity. }
  cbn [ub_data delete_createdAt delete_id ub_id].
  destruct (find (has_id i) (db w)) as [p|]; [|reflexivity].
  rewrite orb_false_r, !apply_object_stripped.
  destruct (writes_key (ub_data b) && existsb _ (db w)); [reflexivity|].
  cbn. unfold update_rows. apply map_ext. intros q.
  now rewrite apply_object_stripped.
Qed.

Lemma edit_post_200 (fault : option Error) (i : string) (b : UpdateBody) (w : World) post :
  fst (edit_post fault i b w) = Returned (mkAnswer 200 (Data None post)) ->
  exists p,
    find (has_id i) (db w) = Some p /\ post = apply_data (ub_data b) p /\
    db (snd (edit_post fault i b w)) = update_rows i (ub_data b) (db w).
Proof.
  rewrite edit_post_db.
  unfold edit_post, try_catch, bind, update_object, statement.
  destruct fault as [e|].
  { unfold console_error, emit. cbn. destruct (code_is "P2025" e); discriminate. }
  cbn [ub_data delete_createdAt delete_id ub_id].
  destruct (find (has_id i) (db w)) as [p|]; [|discriminate].
  rewrite orb_false_r, !apply_object_stripped.
  destruct (writes_key (ub_data b) && existsb _ (db w)); [discriminate|].
  cbn. intros H. injection H as <-. exists p. repeat split.
Qed.

Lemma PUT_posts_db env auth i b w :
  db (snd (PUT_posts env auth i b w))
  = match authMiddleware env auth with
    | Some _ => db w
    | None =>
        match db_fault env (Update i (ub_data b)), find (has_id i) (db w) with
        | None, Some p =>
            if writes_key (ub_data b) &&
               existsb (fun q => negb (has_id i q) &&
                                 has_slug_language (slug (apply_data (ub_data b) p))
                                                   (language (apply_data (ub_data b) p)) q)
                       (db w)
            then db w
            else update_rows i (ub_data b) (db w)
        | _, _ => db w
        end
    end.
Proof.
  destruct (PUT_posts_cases env auth i b w)
    as [(r & A & E) | [(A & (e & F & _) & D) | [(A & F & Fd & _ & D) |
        [(p & A & F & Fd & C & _ & D) | (p & A & F & Fd & C & _ & D)]]]];
    rewrite A, ?E, ?D, ?F, ?Fd, ?C; reflexivity.
Qed.

(** X6: an edit cannot change the identity of a post.  Whatever the
    request carries (its body may name an [id] and a [createdAt], which the
    statement would write if they reached it) and however it ends, the
    table keeps its rows in place, every row keeps its id and its
    [createdAt], and a row whose id is not the one in the path is not
    changed at all.  When the answer is 200 its post is the addressed row
    with the other members of the body applied, under the id of the path
    and with the [createdAt] it had, and that is the row now in the table.
    The table is the one that [PUT_posts] leaves, which takes the body
    with the two members already split off. *)
Theorem edit_touches_one_post_and_keeps_its_identity
    (env : Env) (auth : option string) (fault : option Error)
    (i : string) (body : UpdateBody) (w : World) :
  (exists f : Post -> Post,
     db (snd (PUT_posts_object env auth fault i body w)) = map f (db w) /\
     forall q, id (f q) = id q /\ createdAt (f q) = createdAt q /\
               (id q <> i -> f q = q)) /\
  (forall post,
     fst (PUT_posts_object env auth fault i body w)
     = Returned (inr (mkAnswer 200 (Data None post))) ->
     id post = i /\
     In post (db (snd (PUT_posts_object env auth fault i body w))) /\
     exists p, In p (db w) /\ id p = i /\ createdAt post = createdAt p /\
               post = apply_data (ub_data body) p) /\
  (fault = db_fault env (Update i (ub_data body)) ->
   db (snd (PUT_posts_object env auth fault i body w))
   = db (snd (PUT_posts env auth i body w))).
Proof.
  unfold PUT_posts_object. split; [|split].
  - rewrite guarded_db, edit_post_db.
    assert (Same : exists f : Post -> Post,
              db w = map f (db w) /\
              forall q, id (f q) = id q /\ createdAt (f q) = createdAt q /\
                        (id q <> i -> f q = q)).
    { exists (fun q => q). split; [symmetry; apply map_id | auto]. }
    destruct (authMiddleware env auth); [exact Same|].
    destruct fault; [exact Same|].
    destruct (find (has_id i) (db w)) as [p|]; [|exact Same].
    destruct (writes_key (ub_data body) && existsb _ (db w)); [exact Same|].
    exists (fun q => if has_id i q then apply_data (ub_data body) q else q).
    split; [reflexivity|]. intros q. unfold has_id.
    destruct (String.eqb_spec (id q) i) as [Eq|Nq]; repeat split; try reflexivity.
    intros Nq. contradiction.
  - intros post H. apply guarded_answer in H as [A H].
    rewrite guarded_db, A.
    apply edit_post_200 in H as (p & Fd & -> & D).
    apply find_has_id in Fd as [Hp Ep]. split; [exact Ep|]. split.
    + rewrite D. unfold update_rows. apply in_map_iff. exists p.
      split; [|assumption]. unfold has_id. rewrite Ep, String.eqb_refl. reflexivity.
    + exists p. repeat split; assumption.
  - intros ->. now rewrite guarded_db, edit_post_db, PUT_posts_db.
Qed.

Lemma edit_touches_one_post_and_keeps_its_identity_witness :
  id (apply_data (ub_data Sample7.retitle) Sample.alpha) = "id-1" /\
  In (apply_data (ub_data Sample7.retitle) Sample.alpha)
     (db (snd (PUT_posts_object Sample.quiet (Some "Bearer t") None "id-1"
                 Sample7.retitle Sample.start))) /\
  exists p, In p (db Sample.start) /\ id p = "id-1" /\
            createdAt (apply_data (ub_data Sample7.retitle) Sample.alpha) = createdAt p /\
            apply_data (ub_data Sample7.retitle) Sample.alpha
            = apply_data (ub_data Sample7.retitle) p.
Proof.
  apply (proj1 (proj2 (edit_touches_one_post_and_keeps_its_identity
                         Sample.quiet (Some "Bearer t") None "id-1"
                         Sample7.retitle Sample.start))).
  reflexivity.
Defined.

(* ================================================================== *)
(** ** routes/analytics.ts *)
(* ================================================================== *)

Module AnalyticsFacts.

Import Analytics AnalyticsAux.

Lemma span_digits_run ds rest :
  all_digits ds = true ->
  span_digits (ds ++ String "."%char rest) = (ds, String "."%char rest).
Proof.
  induction ds as [|c ds IH]; cbn; intros H; [reflexivity|].
  apply andb_true_iff in H as [Hc H]. rewrite Hc, IH by assumption. reflexivity.
Qed.

Lemma tailscale_second_octet ds rest :
  all_digits ds = true -> ds <> EmptyString ->
  isTailscaleIP ("100." ++ ds ++ String "."%char rest) =
  ((64 <=? parseInt ds) && (parseInt ds <=? 127))%N.
Proof.
  intros H N. unfold isTailscaleIP. cbn [append strip_prefix Ascii.eqb Bool.eqb].
  rewrite span_digits_run by assumption.
  destruct ds; [contradiction | reflexivity].
Qed.

Lemma not_100_is_not_tailscale ds rest :
  all_digits ds = true -> ds <> "100"%string ->
  isTailscaleIP (ds ++ String "."%char rest) = false.
Proof.
  intros H N. unfold isTailscaleIP.
  replace (strip_prefix "100." (ds ++ String "."%char rest)) with (@None string);
    [reflexivity|].
  symmetry.
  assert (Dot : forall c, is_digit c = true -> Ascii.eqb "."%char c = false).
  { intros c Hc. destruct (Ascii.eqb_spec "."%char c) as [<-|]; [discriminate Hc | reflexivity]. }
  destruct ds as [|c1 ds]; [reflexivity|]. cbn [append strip_prefix].
  destruct (Ascii.eqb_spec "1"%char c1) as [<-|]; [|reflexivity].
  destruct ds as [|c2 ds]; [reflexivity|]. cbn [append strip_prefix].
  destruct (Ascii.eqb_spec "0"%char c2) as [<-|]; [|reflexivity].
  destruct ds as [|c3 ds]; [reflexivity|]. cbn [append strip_prefix].
  destruct (Ascii.eqb_spec "0"%char c3) as [<-|]; [|reflexivity].
  destruct ds as [|c4 ds]; [contradiction|]. cbn [append strip_prefix].
  cbn [all_digits] in H.
  do 3 (apply andb_true_iff in H as [_ H]).
  apply andb_true_iff in H as [H4 _]. now rewrite (Dot c4 H4).
Qed.

Lemma octets_are_numerals :
  forallb (fun n => all_digits (dec n) && negb (dec n =? "")%string
                    && (parseInt (dec n) =? N.of_nat n)%N
                    && (negb (dec n =? "100")%string || (n =? 100)%nat))
          (seq 0 256) = true.
Proof. vm_compute. reflexivity. Qed.

Lemma octet_numeral n :
  (n < 256)%nat ->
  all_digits (dec n) = true /\ dec n <> EmptyString /\
  parseInt (dec n) = N.of_nat n /\ (dec n = "100"%string -> n = 100%nat).
Proof.
  intros H. pose proof octets_are_numerals as F.
  rewrite forallb_forall in F. specialize (F n).
  assert (I : In n (seq 0 256)) by (apply in_seq; lia).
  apply F in I. apply andb_true_iff in I as [I I4].
  apply andb_true_iff in I as [I I3]. apply andb_true_iff in I as [I1 I2].
  repeat split.
  - assumption.
  - intros E. rewrite E in I2. discriminate.
  - now apply N.eqb_eq.
  - intros E. rewrite E in I4. cbn in I4. now apply Nat.eqb_eq.
Qed.

(** X20: on IPv4 addresses written in dotted decimal, the Tailscale test
    holds exactly on 100.64.0.0/10: the first octet is 100 and the second
    is between 64 and 127. *)
Theorem tailscale_range_is_100_64_slash_10 (a b c d : nat) :
  (a < 256)%nat -> (b < 256)%nat ->
  isTailscaleIP (dotted a b c d) = ((a =? 100) && (64 <=? b) && (b <=? 127))%nat.
Proof.
  intros Ha Hb. unfold dotted.
  destruct (octet_numeral a Ha) as (A1 & A2 & A3 & A4).
  destruct (octet_numeral b Hb) as (B1 & B2 & B3 & _).
  destruct (Nat.eqb_spec a 100) as [->|N].
  - change (dec 100) with "100"%string.
    change ("100" ++ "." ++ dec b ++ "." ++ dec c ++ "." ++ dec d)%string
      with ("100." ++ dec b ++ String "."%char (dec c ++ "." ++ dec d))%string.
    rewrite tailscale_second_octet by assumption. rewrite B3. cbn [andb].
    f_equal.
    + destruct (Nat.leb_spec 64 b); [apply N.leb_le | apply N.leb_gt]; lia.
    + destruct (Nat.leb_spec b 127); [apply N.leb_le | apply N.leb_gt]; lia.
  - cbn [andb].
    change (dec a ++ "." ++ dec b ++ "." ++ dec c ++ "." ++ dec d)%string
      with (dec a ++ String "."%char (dec b ++ "." ++ dec c ++ "." ++ dec d))%string.
    apply not_100_is_not_tailscale; [assumption|]. intros E. now apply N, A4.
Qed.

Lemma tailscale_range_is_100_64_slash_10_witness :
  isTailscaleIP (dotted 100 127 255 255) = true /\
  isTailscaleIP (dotted 100 128 0 0) = false.
Proof.
  split.
  - exact (tailscale_range_is_100_64_slash_10 100 127 255 255
             ltac:(lia) ltac:(lia)).
  - exact (tailscale_range_is_100_64_slash_10 100 128 0 0
             ltac:(lia) ltac:(lia)).
Defined.

Lemma calls_in_window ip : forall times m k R,
  m ip = Some (mkBucket k R) ->
  (forall t, In t times -> t <= R) ->
  fst (calls times ip m)
  = map (fun i => (RATE_LIMIT_MAX <? i)%nat) (seq (S k) (List.length times)).
Proof.
  induction times as [|t times IH]; intros m k R Hm Hw; [reflexivity|].
  cbn [calls]. unfold isRateLimited. rewrite Hm. cbn [resetTime count].
  replace (R <? t) with false
    by (symmetry; apply Z.ltb_ge; apply Hw; now left).
  specialize (IH (set_bucket ip (mkBucket (k + 1) R) m) (k + 1)%nat R).
  destruct (calls times ip (set_bucket ip (mkBucket (k + 1) R) m)) as [answers m2].
  cbn [fst] in *. cbn [List.length seq map]. f_equal.
  - f_equal. lia.
  - rewrite IH.
    + f_equal. f_equal. lia.
    + unfold set_bucket. now rewrite String.eqb_refl.
    + intros t' Ht'. apply Hw. now right.
Qed.

(** X21: the rate limiter allows the first 100 requests of a window and
    rejects the rest.  For an IP that has no bucket, or whose bucket has
    expired, the requests made from the first one until 60000 ms later are
    answered in order: not limited for the first 100, limited from the
    101st on. *)
Theorem rate_limit_allows_100_per_window
    (ip : string) (m : RateMap) (t1 : Z) (times : list Z) :
  (m ip = None \/ exists r, m ip = Some r /\ resetTime r < t1) ->
  (forall t, In t times -> t <= t1 + 60000) ->
  fst (calls (t1 :: times) ip m)
  = map (fun i => (100 <? i)%nat) (seq 1 (S (List.length times))).
Proof.
  intros Hm Hw. cbn [calls].
  assert (First : isRateLimited t1 ip m =
                  (false, set_bucket ip (mkBucket 1 (t1 + RATE_LIMIT_WINDOW_MS)) m)).
  { unfold isRateLimited. destruct Hm as [->|(r & -> & Hr)]; [reflexivity|].
    replace (resetTime r <? t1) with true by (symmetry; now apply Z.ltb_lt).
    reflexivity. }
  rewrite First.
  pose proof (calls_in_window ip times
                (set_bucket ip (mkBucket 1 (t1 + RATE_LIMIT_WINDOW_MS)) m)
                1%nat (t1 + RATE_LIMIT_WINDOW_MS)) as H.
  destruct (calls times ip _) as [answers m2]. cbn [fst] in *.
  cbn [seq map]. f_equal. apply H.
  - unfold set_bucket. now rewrite String.eqb_refl.
  - exact Hw.
Qed.

Lemma rate_limit_allows_100_per_window_witness :
  fst (calls (0 :: repeat 5 101) "203.0.113.9" no_buckets)
  = map (fun i => (100 <? i)%nat) (seq 1 (S (List.length (repeat 5 101)))).
Proof.
  apply (rate_limit_allows_100_per_window "203.0.113.9" no_buckets 0 (repeat 5 101)).
  - left. reflexivity.
  - intros t Ht. apply repeat_spec in Ht. subst t. lia.
Defined.

Lemma isRateLimited_other now ip ip' m :
  ip' <> ip -> snd (isRateLimited now ip m) ip' = m ip'.
Proof.
  intros N. unfold isRateLimited.
  destruct (m ip) as [r|]; [destruct (resetTime r <? now)|]; cbn [snd];
    unfold set_bucket; destruct (String.eqb_spec ip' ip); congruence.
Qed.

Lemma isRateLimited_own now ip m m' :
  m ip = m' ip ->
  fst (isRateLimited now ip m) = fst (isRateLimited now ip m') /\
  snd (isRateLimited now ip m) ip = snd (isRateLimited now ip m') ip.
Proof.
  intros E. unfold isRateLimited. rewrite <- E.
  destruct (m ip) as [r|]; [destruct (resetTime r <? now)|]; cbn [fst snd];
    unfold set_bucket; rewrite String.eqb_refl; split; reflexivity.
Qed.

Lemma calls_own ip : forall times m m',
  m ip = m' ip -> fst (calls times ip m) = fst (calls times ip m').
Proof.
  induction times as [|t times IH]; intros m m' E; [reflexivity|].
  cbn [calls]. destruct (isRateLimited_own t ip m m' E) as [E1 E2].
  destruct (isRateLimited t ip m) as [l1 m1], (isRateLimited t ip m') as [l2 m2].
  cbn [fst snd] in *. specialize (IH m1 m2 E2).
  destruct (calls times ip m1), (calls times ip m2). cbn [fst] in *. congruence.
Qed.

(** X22: the limit is per IP.  When requests of several clients are
    served in order, the answers that one IP gets are those it would get
    if its requests were the only ones. *)
Theorem rate_limit_is_per_ip (ip : string) (requests : list (Z * string)) (m : RateMap) :
  map snd (filter (fun ra => from ip (fst ra))
                  (combine requests (fst (serve requests m))))
  = fst (calls (map fst (filter (from ip) requests)) ip m).
Proof.
  revert m. induction requests as [|[t ip'] rest IH]; intros m; [reflexivity|].
  cbn [serve]. destruct (isRateLimited t ip' m) as [l m1] eqn:E.
  specialize (IH m1). destruct (serve rest m1) as [answers m2]. cbn [fst] in *.
  cbn [combine filter fst].
  change (from ip (t, ip')) with (ip' =? ip)%string.
  destruct (String.eqb_spec ip' ip) as [->|N].
  - cbn [map fst snd calls]. rewrite E.
    destruct (calls (map fst (filter (from ip) rest)) ip m1). cbn [fst] in *.
    now f_equal.
  - rewrite IH. apply calls_own.
    replace m1 with (snd (isRateLimited t ip' m)) by now rewrite E.
    apply isRateLimited_other. congruence.
Qed.

(** X23: the periodic clean-up cannot be observed through the limiter:
    for requests made at or after the time of the clean-up, the answers
    are the same whether or not the clean-up ran. *)
Theorem cleanup_is_transparent
    (now : Z) (ip : string) (times : list Z) (m : RateMap) :
  (forall t, In t times -> now <= t) ->
  fst (calls times ip (cleanup now m)) = fst (calls times ip m).
Proof.
  intros Hw. destruct times as [|t times]; [reflexivity|].
  cbn [calls].
  assert (H : fst (isRateLimited t ip (cleanup now m)) = fst (isRateLimited t ip m) /\
              snd (isRateLimited t ip (cleanup now m)) ip
              = snd (isRateLimited t ip m) ip).
  { assert (Ht : now <= t) by (apply Hw; now left).
    unfold isRateLimited, cleanup. destruct (m ip) as [r|].
    - destruct (resetTime r <? now) eqn:E1.
      + apply Z.ltb_lt in E1.
        replace (resetTime r <? t) with true by (symmetry; apply Z.ltb_lt; lia).
        cbn [fst snd]. unfold set_bucket. rewrite String.eqb_refl. split; reflexivity.
      + destruct (resetTime r <? t); cbn [fst snd]; unfold set_bucket;
          rewrite String.eqb_refl; split; reflexivity.
    - cbn [fst snd]. unfold set_bucket. rewrite String.eqb_refl. split; reflexivity. }
  destruct H as [H1 H2].
  destruct (isRateLimited t ip (cleanup now m)) as [l1 m1],
           (isRateLimited t ip m) as [l2 m2].
  cbn [fst snd] in *. pose proof (calls_own ip times m1 m2 H2) as H3.
  destruct (calls times ip m1), (calls times ip m2). cbn [fst] in *. congruence.
Qed.

Lemma cleanup_is_transparent_witness :
  fst (calls [70000; 70001] "203.0.113.9"
         (cleanup 65000 (set_bucket "203.0.113.9" (mkBucket 100 60000) no_buckets)))
  = fst (calls [70000; 70001] "203.0.113.9"
           (set_bucket "203.0.113.9" (mkBucket 100 60000) no_buckets)).
Proof.
  apply (cleanup_is_transparent 65000 "203.0.113.9" [70000; 70001]).
  intros t [<-|[<-|[]]]; lia.
Defined.


(** X25: what the route does to the rate limiter.  A request from an
    internal address (the excluded one, or a Tailscale address) is answered
    [internal] and counts for nothing: events and buckets are as before.
    Every other request is counted by the limiter, whatever becomes of it
    afterwards; and one that the limiter rejects is answered [rate_limited]
    and stores nothing, whatever its user agent and body. *)
Theorem track_counts_every_outside_request
    (now : Z) (uuid : string) (sha256_hex : string -> string)
    (fault : option Error) (req : TrackRequest) (st : AState) :
  let result := track now uuid sha256_hex fault req st in
  let ip := getClientIP req in
  (internal ip = true ->
   fst result = (200, NotTracked "internal") /\
   events (snd result) = events st /\
   rateLimitMap (snd result) = rateLimitMap st) /\
  (internal ip = false ->
   rateLimitMap (snd result) = snd (isRateLimited now ip (rateLimitMap st)) /\
   (fst (isRateLimited now ip (rateLimitMap st)) = true ->
    fst result = (200, NotTracked "rate_limited") /\
    events (snd result) = events st)).
Proof.
  cbv zeta. unfold internal, track, say. cbn [events rateLimitMap console].
  destruct (existsb _ EXCLUDED_IPS || isTailscaleIP _).
  { split; [intros _; repeat split | discriminate]. }
  split; [discriminate|]. intros _.
  destruct (isRateLimited now _ _) as [[|] m].
  { cbn. repeat split. }
  cbn [fst snd]. split; [|discriminate].
  destruct (isBot _ _); [reflexivity|].
  destruct (negb _); [reflexivity|].
  destruct fault; reflexivity.
Qed.

Lemma track_counts_every_outside_request_witness :
  fst (track 0 "u-1" fake_sha None colleague fresh) = (200, NotTracked "internal") /\
  events (snd (track 0 "u-1" fake_sha None colleague fresh)) = events fresh /\
  rateLimitMap (snd (track 0 "u-1" fake_sha None colleague fresh)) = rateLimitMap fresh.
Proof.
  apply (proj1 (track_counts_every_outside_request 0 "u-1" fake_sha None colleague fresh)).
  reflexivity.
Defined.

Lemma matches_at_spells w : forall mid post,
  spells w mid = true -> matches_at (word w) (mid ++ post) = true.
Proof.
  induction w as [|a w IH]; intros mid post H; [reflexivity|].
  destruct mid as [|b mid]; [discriminate H|].
  cbn in H. apply andb_true_iff in H as [H1 H2].
  cbn. rewrite H1. now apply IH.
Qed.

Lemma search_skip p : forall pre s, search p s = true -> search p (pre ++ s) = true.
Proof.
  induction pre as [|c pre IH]; intros s H; [assumption|].
  cbn. rewrite (IH s H). apply orb_true_r.
Qed.

Lemma search_spells w pre mid post :
  spells w mid = true -> search (word w) (pre ++ mid ++ post) = true.
Proof.
  intros H. apply search_skip.
  destruct (mid ++ post)%string eqn:E; cbn;
    rewrite <- E, (matches_at_spells w mid post H); reflexivity.
Qed.

(** X26: what is taken for a bot.  A user agent that is missing or
    shorter than 10 characters is; one in which any of the listed words
    occurs anywhere, in any mix of upper and lower case, is; and one that
    mentions Chrome is unless the request has an Accept-Language header. *)
Theorem isBot_flags
    (userAgent : string) (hdrs : Headers) :
  ((String.length userAgent < 10)%nat -> isBot userAgent hdrs = true) /\
  (forall w pre mid post,
     In w bot_words -> spells w mid = true ->
     userAgent = (pre ++ mid ++ post)%string ->
     isBot userAgent hdrs = true) /\
  (forall pre mid post,
     spells "chrome" mid = true ->
     userAgent = (pre ++ mid ++ post)%string ->
     absent (accept_language hdrs) ->
     isBot userAgent hdrs = true).
Proof.
  split; [|split].
  - intros H. unfold isBot.
    replace (String.length userAgent <? 10)%nat with true
      by (symmetry; now apply Nat.ltb_lt).
    now rewrite orb_true_r.
  - intros w pre mid post Hw Hs ->. unfold isBot.
    destruct (_ || _); [reflexivity|].
    replace (test BOT_PATTERNS (pre ++ mid ++ post)) with true; [reflexivity|].
    symmetry. unfold test. apply existsb_exists. exists (word w). split.
    + unfold BOT_PATTERNS. apply in_or_app. left. now apply in_map.
    + now apply search_spells.
  - intros pre mid post Hs -> Ha. unfold isBot.
    destruct (_ || _); [reflexivity|].
    destruct (test BOT_PATTERNS _); [reflexivity|].
    unfold isHeadlessBrowser. destruct (includes_lower "headless" _); [reflexivity|].
    apply truthy_str_absent in Ha. rewrite Ha.
    unfold includes_lower. now rewrite search_spells.
Qed.

Lemma isBot_flags_witness :
  isBot "Mozilla/5.0 (compatible; GoogleBot/2.1)" (headers visitor) = true.
Proof.
  refine (proj1 (proj2 (isBot_flags "Mozilla/5.0 (compatible; GoogleBot/2.1)"
                          (headers visitor)))
            "googlebot" "Mozilla/5.0 (compatible; " "GoogleBot" "/2.1)" _ _ _).
  - unfold bot_words. simpl. tauto.
  - reflexivity.
  - reflexivity.
Defined.

End AnalyticsFacts.

(* ================================================================== *)
(** ** The settings routes *)
(* ================================================================== *)

Module SettingsFacts.

Import Settings.

Lemma prefix_append p : forall t, String.prefix p (p ++ t) = true.
Proof.
  induction p as [|c p IH]; intros t; cbn; [now destruct t|].
  destruct (ascii_dec c c); [apply IH | contradiction].
Qed.

Lemma substring_from_append p : forall t,
  substring_from (String.length p) (p ++ t) = t.
Proof.
  induction p as [|c p IH]; intros t; cbn; [now destruct t | apply IH].
Qed.

Lemma prefix_split p : forall s,
  String.prefix p s = true -> s = (p ++ substring_from (String.length p) s)%string.
Proof.
  induction p as [|c p IH]; intros s H; cbn; [now destruct s|].
  destruct s as [|d s]; [discriminate H|]. cbn in H.
  destruct (ascii_dec c d) as [->|]; [|discriminate H].
  f_equal. now apply IH.
Qed.

Section Facts.

Variable V : Type.
Variable verify : string -> Verdict.

(** The middleware lets a request through exactly when its header is
    [Bearer ] followed by a token that verifies. *)
Lemma verifyToken_passes {A} token (next : Store V -> Answer A * Store V) st :
  verify token = Decoded ->
  verifyToken verify (Some ("Bearer " ++ token)%string) next st = next st.
Proof.
  intros H. unfold verifyToken.
  change (truthy_str (Some ("Bearer " ++ token)%string)) with true.
  change (str_or (Some ("Bearer " ++ token)%string) "")
    with ("Bearer " ++ token)%string.
  rewrite prefix_append. cbn [negb orb].
  change 7%nat with (String.length "Bearer ").
  rewrite substring_from_append, H. reflexivity.
Qed.

Lemma verifyToken_refuses {A} auth (next : Store V -> Answer A * Store V) st :
  (forall token, auth = Some ("Bearer " ++ token)%string -> verify token <> Decoded) ->
  exists error,
    In error ["No token provided"; "Token expired"; "Invalid token"] /\
    verifyToken verify auth next st = (mkAnswer 401 (Refusal error None), st).
Proof.
  intros H. unfold verifyToken, answer.
  destruct (truthy_str auth) eqn:T; cbn [negb orb].
  2:{ exists "No token provided". split; [now left | reflexivity]. }
  destruct (String.prefix "Bearer " (str_or auth "")) eqn:P; cbn [negb].
  2:{ exists "No token provided". split; [now left | reflexivity]. }
  apply prefix_split in P. change (String.length "Bearer ") with 7%nat in P.
  assert (E : auth = Some (str_or auth "")).
  { unfold truthy_str, str_or in *. destruct auth as [s|]; [|discriminate].
    destruct (s =? "")%string; [discriminate | reflexivity]. }
  rewrite P in E. specialize (H _ E).
  destruct (verify _).
  - contradiction.
  - exists "Token expired". split; [right; now left | reflexivity].
  - exists "Invalid token". split; [right; right; now left | reflexivity].
Qed.

Lemma verifyToken_401 {A} auth (next : Store V -> Answer A * Store V) st :
  code (fst (next st)) <> 401 ->
  code (fst (verifyToken verify auth next st)) = 401 ->
  forall token, auth = Some ("Bearer " ++ token)%string -> verify token <> Decoded.
Proof.
  intros N H token -> D. rewrite (verifyToken_passes _ _ _ D) in H. contradiction.
Qed.

Lemma find_upsert_rows k v (rows : list (Setting V)) k' :
  option_map value (find (has_key k') (upsert_rows k v rows))
  = if (k' =? k)%string then Some v
    else option_map value (find (has_key k') rows).
Proof.
  induction rows as [|s rows IH]; cbn [upsert_rows find].
  - unfold has_key; cbn [key]. destruct (String.eqb_spec k k') as [->|N].
    + now rewrite String.eqb_refl.
    + destruct (String.eqb_spec k' k); [congruence | reflexivity].
  - destruct (has_key k s) eqn:K; cbn [find].
    + unfold has_key in *; cbn [key]. apply String.eqb_eq in K.
      destruct (String.eqb_spec (key s) k') as [E|N].
      * replace (k' =? k)%string with true
          by (symmetry; apply String.eqb_eq; congruence).
        reflexivity.
      * destruct (String.eqb_spec k' k); [congruence | reflexivity].
    + destruct (has_key k' s) eqn:K'; [|apply IH].
      unfold has_key in *. apply String.eqb_eq in K'. apply String.eqb_neq in K.
      destruct (String.eqb_spec k' k); [congruence | reflexivity].
Qed.

Lemma upsert_rows_keys k v (rows : list (Setting V)) :
  map key (upsert_rows k v rows)
  = if existsb (has_key k) rows then map key rows else map key rows ++ [k].
Proof.
  induction rows as [|s rows IH]; [reflexivity|].
  cbn [upsert_rows existsb]. destruct (has_key k s); [reflexivity|].
  cbn [map orb]. rewrite IH. destruct (existsb _ rows); reflexivity.
Qed.

Lemma upsert_rows_unique k v (rows : list (Setting V)) :
  unique_setting_keys rows -> unique_setting_keys (upsert_rows k v rows).
Proof.
  unfold unique_setting_keys. intros U. rewrite upsert_rows_keys.
  destruct (existsb (has_key k) rows) eqn:E; [assumption|].
  apply NoDup_app; [assumption | repeat constructor; intros [] |].
  intros a Ha [<-|[]]. apply in_map_iff in Ha as (s & Es & Hs).
  assert (X : existsb (has_key k) rows = true).
  { apply existsb_exists. exists s. split; [assumption|].
    unfold has_key. now apply String.eqb_eq. }
  congruence.
Qed.

Lemma find_filter_out k (rows : list (Setting V)) k' :
  find (has_key k') (filter (fun s => negb (has_key k s)) rows)
  = if (k' =? k)%string then None else find (has_key k') rows.
Proof.
  induction rows as [|s rows IH]; cbn [filter find].
  - now destruct (k' =? k)%string.
  - destruct (has_key k s) eqn:K; cbn [negb find].
    + rewrite IH. destruct (String.eqb_spec k' k) as [E|N]; [reflexivity|].
      destruct (has_key k' s) eqn:K'; [|reflexivity].
      unfold has_key in *. apply String.eqb_eq in K, K'. congruence.
    + destruct (has_key k' s) eqn:K'; [|apply IH].
      unfold has_key in *. apply String.eqb_eq in K'. apply String.eqb_neq in K.
      destruct (String.eqb_spec k' k); [congruence | reflexivity].
Qed.

Lemma filter_out_unique k (rows : list (Setting V)) :
  unique_setting_keys rows ->
  unique_setting_keys (filter (fun s => negb (has_key k s)) rows).
Proof.
  unfold unique_setting_keys. induction rows as [|s rows IH]; intros U; [assumption|].
  cbn [map] in U. apply NoDup_cons_iff in U as [U1 U2]. cbn [filter].
  destruct (negb (has_key k s)); [|now apply IH].
  cbn [map]. apply NoDup_cons; [|now apply IH].
  intros H. apply U1. apply in_map_iff in H as (x & E & Hx).
  apply filter_In in Hx as [Hx _]. rewrite <- E. now apply in_map.
Qed.

(** X27: a setting that was put is the setting that is read.  With a
    token that verifies, PUT /api/settings/:key with a value answers 200
    with that value, and afterwards a read of that key answers with the
    value put, while a read of any other key answers as it did before; the
    keys of the table stay unique.  A request without [value] is answered
    400, and a failing statement 500, both leaving the table as it was. *)
Theorem put_setting_then_get
    (token k : string) (v : V) (st : Store V) :
  verify token = Decoded ->
  let auth := Some ("Bearer " ++ token)%string in
  let st' := snd (PUT_setting verify auth None k (Some v) st) in
  fst (PUT_setting verify auth None k (Some v) st) = mkAnswer 200 (Data None v) /\
  (forall k',
     fst (GET_setting verify auth None k' st')
     = if (k' =? k)%string then mkAnswer 200 (Data None (Some v))
       else fst (GET_setting verify auth None k' st)) /\
  (unique_setting_keys (table st) -> unique_setting_keys (table st')) /\
  PUT_setting verify auth None k None st
  = (mkAnswer 400 (Refusal "Value is required" None), st) /\
  (forall error,
     fst (PUT_setting verify auth (Some error) k (Some v) st)
     = mkAnswer 500 (Refusal "Failed to update setting" (Some error)) /\
     table (snd (PUT_setting verify auth (Some error) k (Some v) st)) = table st).
Proof.
  intros D auth st'. subst auth st'. unfold PUT_setting, GET_setting.
  rewrite !(verifyToken_passes _ _ _ D).
  split; [reflexivity|]. split; [|split; [|split]].
  - intros k'. rewrite !(verifyToken_passes _ _ _ D).
    unfold get_setting, put_setting, answer. cbn [fst snd table].
    rewrite find_upsert_rows. destruct (k' =? k)%string; reflexivity.
  - apply upsert_rows_unique.
  - reflexivity.
  - intros error. rewrite !(verifyToken_passes _ _ _ D). split; reflexivity.
Qed.

(** X28: deleting a setting.  With a token that verifies, DELETE
    /api/settings/:key of a key that has a row answers 200, and afterwards
    a read of that key answers null, a read of any other key answers as
    before, and a second delete answers 404; deleting a key that has no row
    answers 404 'Setting not found' and changes nothing; a failure other
    than P2025 is answered 500 and the table is as it was. *)
Theorem delete_setting_then_get
    (token k : string) (st : Store V) :
  verify token = Decoded ->
  let auth := Some ("Bearer " ++ token)%string in
  let st' := snd (DELETE_setting verify auth None k st) in
  (find (has_key k) (table st) = None ->
   DELETE_setting verify auth None k st
   = (mkAnswer 404 (Refusal "Setting not found" None), st)) /\
  (find (has_key k) (table st) <> None ->
   fst (DELETE_setting verify auth None k st)
   = mkAnswer 200 (Message "Setting deleted") /\
   (forall k',
      fst (GET_setting verify auth None k' st')
      = if (k' =? k)%string then mkAnswer 200 (Data None None)
        else fst (GET_setting verify auth None k' st)) /\
   (unique_setting_keys (table st) -> unique_setting_keys (table st')) /\
   DELETE_setting verify auth None k st'
   = (mkAnswer 404 (Refusal "Setting not found" None), st')) /\
  (forall error, code_is "P2025" error = false ->
     fst (DELETE_setting verify auth (Some error) k st)
     = mkAnswer 500 (Refusal "Failed to delete setting" (Some error)) /\
     table (snd (DELETE_setting verify auth (Some error) k st)) = table st).
Proof.
  intros D auth st'. subst auth st'. unfold DELETE_setting, GET_setting.
  rewrite !(verifyToken_passes _ _ _ D). split; [|split].
  - intros F. unfold delete_setting. rewrite F. reflexivity.
  - intros F.
    destruct (find (has_key k) (table st)) as [s|] eqn:E; [clear F|contradiction].
    assert (R : delete_setting None k st
                = (mkAnswer 200 (Message "Setting deleted"),
                   mkStore (filter (fun s => negb (has_key k s)) (table st))
                           (console st))).
    { unfold delete_setting. rewrite E. reflexivity. }
    rewrite R. cbn [fst snd].
    split; [reflexivity|]. split; [|split].
    + intros k'. rewrite ?(verifyToken_passes _ _ _ D).
      unfold get_setting, answer. cbn [fst snd table].
      rewrite find_filter_out. destruct (k' =? k)%string; reflexivity.
    + apply filter_out_unique.
    + rewrite ?(verifyToken_passes _ _ _ D). unfold delete_setting.
      cbn [table]. rewrite find_filter_out, String.eqb_refl. reflexivity.
  - intros error P. rewrite ?(verifyToken_passes _ _ _ D).
    unfold delete_setting. rewrite P. split; reflexivity.
Qed.

(** X29: every settings route needs a bearer token that verifies.
    When the Authorization header is not [Bearer ] followed by a token that
    [jwt.verify] accepts (no header, another scheme or letter case, an
    expired or invalid token), each of the four routes answers 401 with
    'No token provided', 'Token expired' or 'Invalid token', and neither
    reads nor writes: the table and the console are as before, whatever
    the request and whatever the database would have done.  Conversely a
    401 from any of them means that the header was not such a token. *)
Theorem settings_need_a_bearer_token_that_verifies
    (auth : option string) (st : Store V) (fault : option Error)
    (k : string) (body_value : option V) :
  let refused {A} (r : Answer A * Store V) :=
    snd r = st /\
    exists error,
      In error ["No token provided"; "Token expired"; "Invalid token"] /\
      fst r = mkAnswer 401 (Refusal error None) in
  let unverified :=
    forall token, auth = Some ("Bearer " ++ token)%string -> verify token <> Decoded in
  (unverified ->
   refused (GET_setting verify auth fault k st) /\
   refused (PUT_setting verify auth fault k body_value st) /\
   refused (DELETE_setting verify auth fault k st) /\
   refused (GET_settings verify auth fault st)) /\
  (code (fst (GET_setting verify auth fault k st)) = 401 \/
   code (fst (PUT_setting verify auth fault k body_value st)) = 401 \/
   code (fst (DELETE_setting verify auth fault k st)) = 401 \/
   code (fst (GET_settings verify auth fault st)) = 401 ->
   unverified).
Proof.
  cbv zeta. split.
  - intros U. unfold GET_setting, PUT_setting, DELETE_setting, GET_settings.
    repeat split;
      match goal with
      | |- snd (verifyToken _ _ ?next _) = _ =>
          destruct (verifyToken_refuses auth next st U) as (e & _ & ->); reflexivity
      | |- exists _, _ /\ fst (verifyToken _ _ ?next _) = _ =>
          destruct (verifyToken_refuses auth next st U) as (e & I & ->);
          exists e; split; [exact I | reflexivity]
      end.
  - unfold GET_setting, PUT_setting, DELETE_setting, GET_settings.
    intros [H|[H|[H|H]]]; revert H; apply verifyToken_401.
    + unfold get_setting. destruct fault; discriminate.
    + unfold put_setting. destruct body_value; [|discriminate].
      destruct fault; discriminate.
    + unfold delete_setting. destruct fault as [e|].
      * destruct (code_is "P2025" e); discriminate.
      * destruct (find _ _); discriminate.
    + unfold all_settings. destruct fault; discriminate.
Qed.

(** X30: the export agrees with the single reads.  With a token that
    verifies and a table with unique keys, GET /api/settings answers 200
    with an object whose member for any key other than [__proto__] is what
    a read of that key answers (absent where the read answers null), and
    changes nothing; a setting stored under the key [__proto__] is not in
    the export. *)
Theorem export_agrees_with_reads
    (token : string) (st : Store V) :
  verify token = Decoded ->
  unique_setting_keys (table st) ->
  let auth := Some ("Bearer " ++ token)%string in
  exists data,
    GET_settings verify auth None st = (mkAnswer 200 (Data None data), st) /\
    (forall k, k <> "__proto__" ->
       GET_setting verify auth None k st
       = (mkAnswer 200 (Data None (member k data)), st)) /\
    member "__proto__" data = None.
Proof.
  intros D U auth. subst auth. unfold GET_settings, GET_setting.
  rewrite (verifyToken_passes _ _ _ D). unfold all_settings, answer.
  eexists. split; [reflexivity|]. split.
  - intros k P. rewrite (verifyToken_passes _ _ _ D). unfold get_setting, answer.
    rewrite (member_fold_assign_unique key value (table st) k P U []).
    unfold has_key. destruct (find _ (table st)); reflexivity.
  - exact (member_fold_assign_proto key value (table st) []).
Qed.

End Facts.

Lemma put_setting_then_get_witness :
  fst (GET_setting one_token (Some "Bearer good") None "theme"
         (snd (PUT_setting one_token (Some "Bearer good") None "theme"
                 (Some "light") themed)))
  = mkAnswer 200 (Data None (Some "light")).
Proof.
  exact (proj1 (proj2 (put_setting_then_get string one_token "good" "theme" "light"
                         themed eq_refl)) "theme").
Defined.

Lemma delete_setting_then_get_witness :
  DELETE_setting one_token (Some "Bearer good") None "font" themed
  = (mkAnswer 404 (Refusal "Setting not found" None), themed).
Proof.
  apply (proj1 (delete_setting_then_get string one_token "good" "font" themed eq_refl)).
  reflexivity.
Defined.

Lemma settings_need_a_bearer_token_that_verifies_witness :
  snd (DELETE_setting one_token (Some "Bearer old") None "theme" themed) = themed.
Proof.
  refine (proj1 (proj1 (proj2 (proj2 (proj1
            (settings_need_a_bearer_token_that_verifies string one_token
               (Some "Bearer old") themed None "theme" None) _))))).
  intros token H. injection H as <-. discriminate.
Defined.

Lemma export_agrees_with_reads_witness :
  exists data,
    GET_settings one_token (Some "Bearer good") None themed
    = (mkAnswer 200 (Data None data), themed) /\
    (forall k, k <> "__proto__" ->
       GET_setting one_token (Some "Bearer good") None k themed
       = (mkAnswer 200 (Data None (member k data)), themed)) /\
    member "__proto__" data = None.
Proof.
  apply (export_agrees_with_reads string one_token "good" themed).
  - reflexivity.
  - unfold unique_setting_keys. cbn. repeat constructor; cbn; intuition discriminate.
Defined.

End SettingsFacts.
